(** * The pager: line classification, quote forest, highlighting, formatting

    A shallow embedding of the pager core (check_sig, classify_quote,
    shift_class_colors, mutt_is_quote_line, resolve_types, fill_buffer,
    format_line and the redraw loops of pager_custom_redraw / mutt_pager)
    together with the properties of its specification.

    Conventions.
    - A C [int], [short] or [size_t] is a [Z]; an index into an array is a
      [nat] where the code only ever uses it as an index.
    - A byte is a [Z] in 0..255.  A C string is the [list Z] of the bytes
      before its terminating NUL; reading the position just after the list
      yields the terminator 0.
    - A pointer to a heap object is an index into an arena ([list]) of
      objects; the NULL pointer is [None]. *)

From Stdlib Require Import ZArith Lia Bool String Ascii.
From stdpp Require Import base tactics option list numbers.
From stdpp Require sets.

Local Open Scope Z_scope.

(** ** Bytes and C strings *)

Definition byte_of_ascii (a : ascii) : Z := Z.of_N (N_of_ascii a).

Fixpoint bytes (s : string) : list Z :=
  match s with
  | EmptyString => []
  | String a s' => byte_of_ascii a :: bytes s'
  end.

(** [*p] for a pointer into a C string: the head byte, or the terminator. *)
Definition peek (p : list Z) : Z :=
  match p with
  | [] => 0
  | c :: _ => c
  end.

Definition ch_LF : Z := 10.
Definition ch_CR : Z := 13.
Definition ch_TAB : Z := 9.
Definition ch_BS : Z := 8.
Definition ch_BEL : Z := 7.
Definition ch_ESC : Z := 27.
Definition ch_SPACE : Z := 32.

(** [isdigit] of <ctype.h> on an unsigned char. *)
Definition isdigit (c : Z) : bool := (48 <=? c) && (c <=? 57).

(** Modelled from the spec: the ISSPACE macro is defined in a header that is
    not part of the sources at hand; the spec calls the bytes it accepts
    whitespace, taken here as the C-locale [isspace] set of an unsigned
    char (space, \t, \n, \v, \f, \r). *)
Definition ISSPACE (c : Z) : bool := (c =? 32) || ((9 <=? c) && (c <=? 13)).

(** [mutt_str_strcmp] on two C strings, as an equality test. *)
Definition str_eqb (a b : list Z) : bool := bool_decide (a = b).

(** ** The data model of the line store *)

(** The colour identifiers a line type ranges over; [MT_UNCLASSIFIED] is the
    value -1 the code stores before a line is classified. *)
Inductive ColorId :=
  | MT_UNCLASSIFIED
  | MT_COLOR_NORMAL
  | MT_COLOR_HEADER
  | MT_COLOR_HDEFAULT
  | MT_COLOR_QUOTED
  | MT_COLOR_SIGNATURE
  | MT_COLOR_ATTACHMENT
  | MT_COLOR_MESSAGE_LOG.

Global Instance ColorId_eq_dec : EqDecision ColorId.
Proof. solve_decision. Defined.

Definition ISHEADER (x : ColorId) : bool :=
  bool_decide (x = MT_COLOR_HEADER) || bool_decide (x = MT_COLOR_HDEFAULT).

(** struct Syntax *)
Record Syntax := mkSyntax {
  color : Z;
  first : Z;
  last : Z;
}.

Global Instance Syntax_eq_dec : EqDecision Syntax.
Proof. solve_decision. Defined.

(** struct Line; [quote] points into the arena of quote classes. *)
Record Line := mkLine {
  offset : Z;
  type : ColorId;
  continuation : Z;
  chunks : Z;
  search_cnt : Z;
  syntax : list Syntax;
  search : option (list Syntax);
  quote : option nat;
  is_cont_hdr : Z;
}.

Definition set_type (t : ColorId) (l : Line) : Line :=
  mkLine (offset l) t (continuation l) (chunks l) (search_cnt l)
         (syntax l) (search l) (quote l) (is_cont_hdr l).

Definition set_chunks (c : Z) (l : Line) : Line :=
  mkLine (offset l) (type l) (continuation l) c (search_cnt l)
         (syntax l) (search l) (quote l) (is_cont_hdr l).

Definition set_syntax (s : list Syntax) (l : Line) : Line :=
  mkLine (offset l) (type l) (continuation l) (chunks l) (search_cnt l)
         s (search l) (quote l) (is_cont_hdr l).

Definition set_quote (q : option nat) (l : Line) : Line :=
  mkLine (offset l) (type l) (continuation l) (chunks l) (search_cnt l)
         (syntax l) (search l) q (is_cont_hdr l).

Definition set_is_cont_hdr (b : Z) (l : Line) : Line :=
  mkLine (offset l) (type l) (continuation l) (chunks l) (search_cnt l)
         (syntax l) (search l) (quote l) b.

(** [line_info[n].type], with a slot outside the array read as unclassified. *)
Definition type_at (info : list Line) (n : nat) : ColorId :=
  match info !! n with
  | Some l => type l
  | None => MT_UNCLASSIFIED
  end.

(** In-place update of one slot of the array. *)
Definition upd (info : list Line) (n : nat) (f : Line -> Line) : list Line :=
  match info !! n with
  | Some l => <[n := f l]> info
  | None => info
  end.

(** ** Signature detection: check_sig *)

Module Sig.

Definition NUM_SIG_LINES : Z := 4.

(** The counting loop of check_sig:
    [while (n > 0 && count <= NUM_SIG_LINES) { if (info[n].type != SIG) break; count++; n--; }] *)
Fixpoint count_loop (info : list Line) (n : nat) (count : Z) : Z :=
  match n with
  | O => count
  | S n' =>
      if count <=? NUM_SIG_LINES then
        if bool_decide (type_at info n = MT_COLOR_SIGNATURE)
        then count_loop info n' (count + 1)
        else count
      else count
  end.

(** The blank-line scan of check_sig:
    [while ( *s) { if (!ISSPACE( *s)) return 0; s++; } return -1;] *)
Fixpoint blank_scan (s : list Z) : Z :=
  match s with
  | [] => -1
  | c :: s' =>
      if c =? 0 then -1
      else if negb (ISSPACE c) then 0
      else blank_scan s'
  end.

Definition check_sig (s : list Z) (info : list Line) (n : nat) : Z :=
  let count := count_loop info n 0 in
  if count =? 0 then -1
  else if count >? NUM_SIG_LINES then blank_scan s
  else 0.

(** Specification vocabulary: the number of consecutive Signature-typed
    lines at indices n, n-1, ..., 1 (index 0 is never looked at). *)
Fixpoint sig_run (info : list Line) (n : nat) : nat :=
  match n with
  | O => O
  | S n' =>
      if bool_decide (type_at info n = MT_COLOR_SIGNATURE)
      then S (sig_run info n')
      else O
  end.

(** The text of a line (up to its terminator) is entirely whitespace. *)
Fixpoint all_space (s : list Z) : bool :=
  match s with
  | [] => true
  | c :: s' => if c =? 0 then true else ISSPACE c && all_space s'
  end.

End Sig.

(** ** External collaborators: patterns and markers *)

(** A compiled pattern, seen through [regexec(re, text, 1, pmatch, eflags)]:
    given the text and whether REG_NOTBOL is set, either no match or the
    offsets [(rm_so, rm_eo)] of the match. *)
Definition regmatch : Type := Z * Z.
Definition rm_so (m : regmatch) : Z := fst m.
Definition rm_eo (m : regmatch) : Z := snd m.
Definition regex : Type := list Z -> bool -> option regmatch.

(** struct ColorLine, as far as the pager reads and writes it. *)
Record ColorLine := mkColorLine {
  cl_regex : regex;
  pair : Z;
  stop_matching : bool;
}.

Definition set_stop_matching (b : bool) (c : ColorLine) : ColorLine :=
  mkColorLine (cl_regex c) (pair c) b.

(** The configuration and the global tables the pager consults. *)
Record Config := mkConfig {
  C_HeaderColorPartial : bool;
  C_QuoteRegex : option regex;
  C_Smileys : option regex;
  C_AllowAnsi : bool;
  C_Markers : bool;
  AttachmentMarker : list Z;
  ProtectedHeaderMarker : list Z;
}.

(** ** The escape normalizer: is_ansi, check_marker, fill_buffer *)

Module Normalizer.

Fixpoint is_ansi (buf : list Z) : bool :=
  match buf with
  | [] => false
  | c :: r =>
      if negb (c =? 0) && (isdigit c || (c =? 59)) then is_ansi r
      else c =? 109
  end.

(** [for (; *p == *q && *q && *p && *q != '\a' && *p != '\a'; p++, q++); return *p - *q;] *)
Fixpoint check_marker (q p : list Z) : Z :=
  match q, p with
  | cq :: q', cp :: p' =>
      if (cp =? cq) && negb (cq =? 0) && negb (cp =? 0)
         && negb (cq =? ch_BEL) && negb (cp =? ch_BEL)
      then check_marker q' p'
      else cp - cq
  | _, _ => peek p - peek q
  end.

Definition check_attachment_marker (cfg : Config) (p : list Z) : Z :=
  check_marker (AttachmentMarker cfg) p.

Definition check_protected_header_marker (cfg : Config) (p : list Z) : Z :=
  check_marker (ProtectedHeaderMarker cfg) p.

(** [while ( *p++ != c) ;] : the rest of the string after the first [c].
    The callers only run it on a string in which [c] occurs. *)
Fixpoint skip_past (c : Z) (p : list Z) : list Z :=
  match p with
  | [] => []
  | x :: p' => if x =? c then p' else skip_past c p'
  end.

(** An ANSI colour sequence starts at [p]. *)
Definition ansi_at (p : list Z) : bool :=
  match p with
  | c0 :: c1 :: r => (c0 =? ch_ESC) && (c1 =? 91) && is_ansi r
  | _ => false
  end.

(** A private marker sequence (attachment or protected header) starts at [p]. *)
Definition marker_at (cfg : Config) (p : list Z) : bool :=
  match p with
  | c0 :: c1 :: _ =>
      (c0 =? ch_ESC) && (c1 =? 93)
      && ((check_attachment_marker cfg p =? 0)
          || (check_protected_header_marker cfg p =? 0))
  | _ => false
  end.

(** The copy loop of fill_buffer ("copy buf to fmt, but without bold and
    underline controls").  [at_start] is [p == *buf]; [qrev] is the part of
    [fmt] written so far, last byte first, so that [q > *fmt] reads
    [qrev <> []] and [*(q - 1) = c] replaces its head. *)
Fixpoint fmt_loop (cfg : Config) (fuel : nat) (at_start : bool)
    (p : list Z) (qrev : list Z) : list Z :=
  match fuel with
  | O => rev qrev
  | S fuel' =>
      match p with
      | [] => rev qrev
      | c :: p1 =>
          if c =? 0 then rev qrev
          else if (c =? ch_BS) && negb at_start then
            if peek p1 =? 95 then
              fmt_loop cfg fuel' false (drop 1 p1) qrev
            else if negb (peek p1 =? 0) && negb (bool_decide (qrev = [])) then
              fmt_loop cfg fuel' false (drop 1 p1) (peek p1 :: drop 1 qrev)
            else
              fmt_loop cfg fuel' false p1 (c :: qrev)
          else if ansi_at p then
            fmt_loop cfg fuel' false (skip_past 109 p) qrev
          else if marker_at cfg p then
            fmt_loop cfg fuel' false (skip_past ch_BEL p) qrev
          else
            fmt_loop cfg fuel' false p1 (c :: qrev)
      end
  end.

(** The clean text [fmt] that fill_buffer derives from the raw line [buf]. *)
Definition fill_buffer_fmt (cfg : Config) (buf : list Z) : list Z :=
  fmt_loop cfg (S (length buf)) true buf [].

(** Specification vocabulary: no ANSI sequence and no marker sequence starts
    anywhere in the line. *)
Definition no_sequences (cfg : Config) (raw : list Z) : Prop :=
  forall i : nat, ansi_at (drop i raw) = false /\ marker_at cfg (drop i raw) = false.

End Normalizer.

(** ** The quote classifier: struct QClass, new_class_color,
       shift_class_colors, classify_quote *)

Module Quote.

(** struct QClass.  The four links are indices into the arena; a NULL
    [prefix] (the one-colour node) reads as the empty string, as NONULL
    makes it in mutt_str_strncmp. *)
Record QClass := mkQClass {
  length : nat;
  index : Z;
  color : Z;
  prefix : list Z;
  next : option nat;
  prev : option nat;
  down : option nat;
  up : option nat;
}.

Global Instance QClass_eq_dec : EqDecision QClass.
Proof. solve_decision. Defined.

Definition set_index (v : Z) (c : QClass) : QClass :=
  mkQClass (length c) v (color c) (prefix c) (next c) (prev c) (down c) (up c).
Definition set_color (v : Z) (c : QClass) : QClass :=
  mkQClass (length c) (index c) v (prefix c) (next c) (prev c) (down c) (up c).
Definition set_next (v : option nat) (c : QClass) : QClass :=
  mkQClass (length c) (index c) (color c) (prefix c) v (prev c) (down c) (up c).
Definition set_prev (v : option nat) (c : QClass) : QClass :=
  mkQClass (length c) (index c) (color c) (prefix c) (next c) v (down c) (up c).
Definition set_down (v : option nat) (c : QClass) : QClass :=
  mkQClass (length c) (index c) (color c) (prefix c) (next c) (prev c) v (up c).
Definition set_up (v : option nat) (c : QClass) : QClass :=
  mkQClass (length c) (index c) (color c) (prefix c) (next c) (prev c) (down c) v.

(** The arena of allocated classes; [p->f = v] is [store p (set_f v)], which
    fails on a pointer that is not allocated. *)
Definition store (h : list QClass) (p : nat) (f : QClass -> QClass)
    : option (list QClass) :=
  c ← h !! p; Some (<[p := f c]> h).

(** [if (p) p->f = v;] *)
Definition store_opt (h : list QClass) (p : option nat) (f : QClass -> QClass)
    : option (list QClass) :=
  match p with
  | Some p' => store h p' f
  | None => Some h
  end.

(** [mutt_mem_calloc(1, sizeof(struct QClass))]: a zeroed class at a fresh
    address. *)
Definition calloc_QClass (h : list QClass) : list QClass * nat :=
  (h ++ [mkQClass 0 0 0 [] None None None None], Datatypes.length h).

(** [strncmp(a, b, n) == 0] on C strings. *)
Fixpoint strncmp_eq (a b : list Z) (n : nat) : bool :=
  match n with
  | O => true
  | S n' =>
      if peek a =? peek b then
        if peek a =? 0 then true else strncmp_eq (drop 1 a) (drop 1 b) n'
      else false
  end.

(** [strncpy(dst, src, n)] into a zeroed buffer of n + 1 bytes, read back as
    a C string. *)
Fixpoint strncpy (src : list Z) (n : nat) : list Z :=
  match n, src with
  | S n', c :: src' => if c =? 0 then [] else c :: strncpy src' n'
  | _, _ => []
  end.

(** The state classify_quote works on through its out-parameters. *)
Record Forest := mkForest {
  heap : list QClass;
  quote_list : option nat;
  q_level : Z;
  force_redraw : bool;
}.

Definition empty_forest : Forest := mkForest [] None 0 false.

Section WithPalette.

(** The table ColorQuote and the number ColorQuoteUsed of its entries in use. *)
Variable ColorQuote : Z -> Z.
Variable ColorQuoteUsed : Z.

Definition new_class_color (h : list QClass) (class : nat) (q_level : Z)
    : option (list QClass * Z) :=
  h1 ← store h class (set_index q_level);
  c ← h1 !! class;
  h2 ← store h1 class (set_color (ColorQuote (Z.rem (index c) ColorQuoteUsed)));
  Some (h2, q_level + 1).

(** The inner loop of shift_class_colors:
    [while (!q_list->next) { q_list = q_list->up; if (!q_list) break; }] *)
Fixpoint climb (fuel : nat) (h : list QClass) (q : nat) : option (option nat) :=
  match fuel with
  | O => None
  | S fuel' =>
      c ← h !! q;
      match next c with
      | Some _ => Some (Some q)
      | None =>
          match up c with
          | None => Some None
          | Some u => climb fuel' h u
          end
      end
  end.

(** The traversal loop of shift_class_colors. *)
Fixpoint shift_loop (fuel : nat) (h : list QClass) (q_list : option nat)
    (idx : Z) : option (list QClass) :=
  match q_list with
  | None => Some h
  | Some q =>
      match fuel with
      | O => None
      | S fuel' =>
          c ← h !! q;
          h1 ← (if idx <=? index c then
                  h' ← store h q (set_index (index c + 1));
                  store h' q (set_color (ColorQuote (Z.rem (index c + 1) ColorQuoteUsed)))
                else Some h);
          c1 ← h1 !! q;
          nxt ← match down c1 with
                | Some d => Some (Some d)
                | None =>
                    match next c1 with
                    | Some n => Some (Some n)
                    | None =>
                        r ← climb (S (Datatypes.length h1)) h1 q;
                        match r with
                        | None => Some None
                        | Some a => ca ← h1 !! a; Some (next ca)
                        end
                    end
                end;
          shift_loop fuel' h1 nxt idx
      end
  end.

Definition shift_class_colors (h : list QClass) (quote_list : option nat)
    (new_class : nat) (idx : Z) (q_level : Z) : option (list QClass * Z) :=
  h1 ← store h new_class (set_index (-1));
  h2 ← shift_loop (S (Datatypes.length h1)) h1 quote_list idx;
  h3 ← store h2 new_class (set_index idx);
  h4 ← store h3 new_class (set_color (ColorQuote (Z.rem idx ColorQuoteUsed)));
  Some (h4, q_level + 1).

(** [tmp = calloc; tmp->prefix = calloc(length + 1); strncpy(tmp->prefix, qptr, length);
     tmp->length = length;] *)
Definition new_class (h : list QClass) (qptr : list Z) (len : nat)
    : list QClass * nat :=
  let '(h1, tmp) := calloc_QClass h in
  (<[tmp := mkQClass len 0 0 (strncpy qptr len) None None None None]> h1, tmp).

(** "add a node above q_list": the block run when a shorter prefix is found
    for the first time.  [inner] tells the copy of the block in the
    subclassing loop (which also links [tmp] to the parent) from the one in
    the top-level loop (which also updates the root). *)
Definition insert_above (inner : bool) (h : list QClass) (root : option nat)
    (q : nat) (qptr : list Z) (len : nat)
    : option (list QClass * option nat * nat) :=
  let '(h0, tmp) := new_class h qptr len in
  c0 ← h0 !! q;
  h1 ← match next c0 with
       | Some n =>
           h' ← store h0 tmp (set_next (next c0)); store h' n (set_prev (Some tmp))
       | None => Some h0
       end;
  c1 ← h1 !! q;
  h2 ← match prev c1 with
       | Some p =>
           h' ← store h1 tmp (set_prev (prev c1)); store h' p (set_next (Some tmp))
       | None => Some h1
       end;
  h3 ← store h2 tmp (set_down (Some q));
  c3 ← h3 !! q;
  h4 ← (if inner then store h3 tmp (set_up (up c3)) else Some h3);
  h5 ← store h4 q (set_up (Some tmp));
  h6 ← (if inner then
          t ← h5 !! tmp;
          u ← up t;
          cu ← h5 !! u;
          if bool_decide (down cu = Some q) then store h5 u (set_down (Some tmp))
          else Some h5
        else Some h5);
  h7 ← store h6 q (set_next None);
  h8 ← store h7 q (set_prev None);
  let root' := if inner then root
               else if bool_decide (root = Some q) then Some tmp else root in
  Some (h8, root', tmp).

(** [while (ptr->next) ptr = ptr->next;] *)
Fixpoint last_sibling (fuel : nat) (h : list QClass) (ptr : nat) : option nat :=
  match fuel with
  | O => None
  | S fuel' =>
      c ← h !! ptr;
      match next c with
      | None => Some ptr
      | Some n => last_sibling fuel' h n
      end
  end.

(** "found another branch for which tmp is a shorter prefix": unlink
    [q] from its list and link it last among the children of [tmp]. *)
Definition relink_under (h : list QClass) (tmp q : nat)
    : option (list QClass * option nat) :=
  c0 ← h !! q;
  let save := next c0 in
  h1 ← match next c0 with
       | Some n => store h n (set_prev (prev c0))
       | None => Some h
       end;
  c1 ← h1 !! q;
  h2 ← match prev c1 with
       | Some p => store h1 p (set_next (next c1))
       | None => Some h1
       end;
  t ← h2 !! tmp;
  d ← down t;
  ptr ← last_sibling (S (Datatypes.length h2)) h2 d;
  h3 ← store h2 ptr (set_next (Some q));
  h4 ← store h3 q (set_next None);
  h5 ← store h4 q (set_prev (Some ptr));
  h6 ← store h5 q (set_up (Some tmp));
  Some (h6, save).

(** "still not found so far: add it as a sibling to the current node":
    the new class becomes the first child of [ptr]. *)
Definition add_child (h : list QClass) (ptr : nat) (qptr : list Z) (len : nat)
    (q_level : Z) : option (list QClass * Z * nat) :=
  let '(h0, tmp) := new_class h qptr len in
  p ← h0 !! ptr;
  h1 ← match down p with
       | Some d =>
           h' ← store h0 tmp (set_next (down p)); store h' d (set_prev (Some tmp))
       | None => Some h0
       end;
  h2 ← store h1 ptr (set_down (Some tmp));
  h3 ← store h2 tmp (set_up (Some ptr));
  r ← new_class_color h3 tmp q_level;
  Some (r.1, r.2, tmp).

(** "not found so far: add it as a top level class". *)
Definition add_top (h : list QClass) (root : option nat) (qptr : list Z)
    (len : nat) (q_level : Z) : option (list QClass * option nat * Z * nat) :=
  let '(h0, class) := new_class h qptr len in
  r ← new_class_color h0 class q_level;
  h2 ← match root with
       | Some r0 =>
           h' ← store r.1 class (set_next root); store h' r0 (set_prev (Some class))
       | None => Some r.1
       end;
  Some (h2, Some class, r.2, class).

(** The local variables that survive an iteration of the two walks. *)
Record Walk := mkWalk {
  w_heap : list QClass;
  w_root : option nat;
  w_tmp : option nat;
  w_index : Z;
  w_redraw : bool;
}.

(** How a walk ends: by [return q_list] on an exact match, or by running off
    the end of the sibling list. *)
Inductive WalkEnd :=
  | Found (w : Walk) (q : nat)
  | Exhausted (w : Walk) (ptr : option nat).

(** The test [mutt_str_strncmp(tail_qptr, q_list->prefix + offset, n) == 0].
    The code only forms [q_list->prefix + offset] for a class below the one
    of length [offset], whose prefix is longer than [offset]. *)
Definition tail_eq (qptr : list Z) (c : QClass) (off n : nat) : bool :=
  strncmp_eq (drop off qptr) (drop off (prefix c)) n.

(** One step on a class [q] whose prefix is at least as long as the new one
    (case 1 of the top-level walk and its copy in the subclassing walk):
    the result is the walk state and the next class to test, or [inl q] for
    [return q_list]. *)
Definition step_longer (inner : bool) (w : Walk) (q : nat) (c : QClass)
    (qptr : list Z) (len : nat) : option (nat + (Walk * option nat)) :=
  if bool_decide (len = length c) then Some (inl q)
  else
    match w_tmp w with
    | None =>
        r ← insert_above inner (w_heap w) (w_root w) q qptr len;
        let '(h1, root1, tmp) := r in
        c' ← h1 !! q;
        t ← h1 !! tmp;
        Some (inr (mkWalk h1 root1 (Some tmp) (index c') true, next t))
    | Some tmp =>
        r ← relink_under (w_heap w) tmp q;
        c' ← r.1 !! q;
        Some (inr (mkWalk r.1 (w_root w) (Some tmp) (index c') true, r.2))
    end.

(** The subclassing walk (case 2): the [while (q_list)] loop nested in the
    top-level one.  [ptr] is the class whose children are being tested and
    [off] its length. *)
Fixpoint inner_walk (fuel : nat) (qptr : list Z) (len : nat) (w : Walk)
    (q_list : option nat) (ptr : nat) (off : nat) : option WalkEnd :=
  match q_list with
  | None => Some (Exhausted w (Some ptr))
  | Some q =>
      match fuel with
      | O => None
      | S fuel' =>
          c ← w_heap w !! q;
          if bool_decide (len ≤ length c)%nat then
            if tail_eq qptr c off (len - off) then
              r ← step_longer true w q c qptr len;
              match r with
              | inl q' => Some (Found w q')
              | inr (w', nxt) => inner_walk fuel' qptr len w' nxt ptr off
              end
            else inner_walk fuel' qptr len w (next c) ptr off
          else
            if bool_decide (w_tmp w = None) && tail_eq qptr c off (length c - off)
            then inner_walk fuel' qptr len w (down c) q (length c)
            else inner_walk fuel' qptr len w (next c) ptr off
      end
  end.

(** The top-level walk: the outer [while (q_list)] loop.  On entering case 2
    it hands over to the subclassing walk, whose end is the function's. *)
Fixpoint top_walk (fuel : nat) (qptr : list Z) (len : nat) (w : Walk)
    (q_list : option nat) : option WalkEnd :=
  match q_list with
  | None => Some (Exhausted w None)
  | Some q =>
      match fuel with
      | O => None
      | S fuel' =>
          c ← w_heap w !! q;
          if bool_decide (len ≤ length c)%nat then
            if strncmp_eq qptr (prefix c) len then
              r ← step_longer false w q c qptr len;
              match r with
              | inl q' => Some (Found w q')
              | inr (w', nxt) => top_walk fuel' qptr len w' nxt
              end
            else top_walk fuel' qptr len w (next c)
          else
            if bool_decide (w_tmp w = None) && strncmp_eq qptr (prefix c) (length c)
            then inner_walk (S (Datatypes.length (w_heap w))) qptr len w
                            (down c) q (length c)
            else top_walk fuel' qptr len w (next c)
      end
  end.

(** classify_quote when more than one quote colour is in use. *)
Definition classify_walk (f : Forest) (qptr : list Z) (len : nat)
    : option (Forest * nat) :=
  let w0 := mkWalk (heap f) (quote_list f) None (-1) (force_redraw f) in
  e ← top_walk (S (Datatypes.length (heap f))) qptr len w0 (quote_list f);
  match e with
  | Found w q => Some (mkForest (w_heap w) (w_root w) (q_level f) (w_redraw w), q)
  | Exhausted w ptr =>
      match w_tmp w with
      | None =>
          match ptr with
          | Some p =>
              r ← add_child (w_heap w) p qptr len (q_level f);
              let '(h1, lvl, tmp) := r in
              Some (mkForest h1 (w_root w) lvl (w_redraw w), tmp)
          | None =>
              r ← add_top (w_heap w) (w_root w) qptr len (q_level f);
              let '(h1, root1, lvl, class) := r in
              (* [shift_class_colors( *quote_list, tmp, ...)] with tmp == NULL *)
              if bool_decide (w_index w ≠ -1) then None
              else Some (mkForest h1 root1 lvl (w_redraw w), class)
          end
      | Some class =>
          if bool_decide (w_index w ≠ -1) then
            r ← shift_class_colors (w_heap w) (w_root w) class (w_index w) (q_level f);
            Some (mkForest r.1 (w_root w) r.2 (w_redraw w), class)
          else Some (mkForest (w_heap w) (w_root w) (q_level f) (w_redraw w), class)
      end
  end.

Definition classify_quote (f : Forest) (qptr : list Z) (len : nat)
    : option (Forest * nat) :=
  if ColorQuoteUsed <=? 1 then
    match quote_list f with
    | None =>
        let '(h1, class) := calloc_QClass (heap f) in
        h2 ← store h1 class (set_color (ColorQuote 0));
        Some (mkForest h2 (Some class) (q_level f) (force_redraw f), class)
    | Some q => Some (f, q)
    end
  else classify_walk f qptr len.

(** A session: the classifier run on a sequence of quote prefixes from the
    empty forest; the result is the final forest and the class returned by
    each call, in order. *)
Fixpoint classify_all (f : Forest) (ps : list (list Z))
    : option (Forest * list nat) :=
  match ps with
  | [] => Some (f, [])
  | p :: ps' =>
      r ← classify_quote f p (Datatypes.length p);
      r' ← classify_all r.1 ps';
      Some (r'.1, r.2 :: r'.2)
  end.

End WithPalette.

End Quote.

(** ** The line classifier and highlighter: mutt_is_quote_line, resolve_types *)

Module Classifier.

Definition SHRT_MAX : Z := 32767.

(** The value a [short] holds after an [int] result is stored into it. *)
Definition to_short (z : Z) : Z := (z + 32768) mod 65536 - 32768.

(** mutt_is_quote_line: the answer and the contents of [pmatch] afterwards. *)
Definition mutt_is_quote_line (cfg : Config) (line : list Z) : bool * regmatch :=
  match C_QuoteRegex cfg with
  | Some qre =>
      match qre line false with
      | Some pm =>
          match C_Smileys cfg with
          | Some sre =>
              match sre line false with
              | Some sm =>
                  if 0 <? rm_so sm then
                    (* line[smatch[0].rm_so] = 0, and the quote pattern again *)
                    match qre (take (Z.to_nat (rm_so sm)) line) false with
                    | Some pm' => (true, pm')
                    | None => (false, pm)
                    end
                  else (false, pm)
              | None => (true, pm)
              end
          | None => (true, pm)
          end
      | None => (false, (0, 0))
      end
  | None => (false, (0, 0))
  end.


(** The state resolve_types reads and writes: the line array, the quote
    forest with its level and redraw flag, and the three rule lists (whose
    stop_matching flags it sets). *)
Record RState := mkRState {
  line_info : list Line;
  forest : Quote.Forest;
  ColorHdrList : list ColorLine;
  ColorBodyList : list ColorLine;
  ColorAttachList : list ColorLine;
}.

Definition set_line_info (li : list Line) (s : RState) : RState :=
  mkRState li (forest s) (ColorHdrList s) (ColorBodyList s) (ColorAttachList s).

Definition set_forest (f : Quote.Forest) (s : RState) : RState :=
  mkRState (line_info s) f (ColorHdrList s) (ColorBodyList s) (ColorAttachList s).

Definition set_redraw (f : Quote.Forest) : Quote.Forest :=
  Quote.mkForest (Quote.heap f) (Quote.quote_list f) (Quote.q_level f) true.

(** [line_info[n].f = v] on an allocated slot. *)
Definition wr (info : list Line) (n : nat) (f : Line -> Line) : option (list Line) :=
  l ← info !! n; Some (<[n := f l]> info).

(** [(line_info[n].syntax)[i] = v]; fails when [i] is outside the array. *)
Definition wr_syntax (l : Line) (i : Z) (v : Syntax) : option Line :=
  if (0 <=? i) && (i <? Z.of_nat (length (syntax l)))
  then Some (set_syntax (<[Z.to_nat i := v]> (syntax l)) l)
  else None.

Definition rd_syntax (l : Line) (i : Z) : option Syntax :=
  if 0 <=? i then syntax l !! Z.to_nat i else None.

(** [(line_info[n].syntax)[0].color = c] *)
Definition set_color0 (c : Z) (l : Line) : option Line :=
  s ← rd_syntax l 0;
  wr_syntax l 0 (mkSyntax c (first s) (last s)).

(** [mutt_mem_realloc(&syntax, k * sizeof(struct Syntax))]: the first [k]
    entries; entries beyond the old size hold no value yet. *)
Definition realloc_syntax (k : nat) (l : Line) : Line :=
  set_syntax (resize k (mkSyntax 0 0 0) (syntax l)) l.

(** The clean text with its final newline masked off ([buf[nl - 1] = 0]). *)
Definition mask_newline (buf : list Z) : list Z :=
  match reverse buf with
  | c :: r => if c =? ch_LF then reverse r else buf
  | [] => buf
  end.

(** The retroactive recolouring of the earlier continuation lines of a
    header field:
    [for (j = n - 1; j >= 0 && line_info[j].is_cont_hdr; --j) ...; if (j >= 0) ...]
    [j1] is [j + 1]. *)
Fixpoint recolor_cont (info : list Line) (j1 : nat) (t : ColorId) (c : Z)
    : option (list Line) :=
  match j1 with
  | O => Some info
  | S j =>
      l ← info !! j;
      l' ← set_color0 c (set_type t l);
      let info' := <[j := l']> info in
      if negb (is_cont_hdr l =? 0) then recolor_cont info' j t c
      else Some info'
  end.

(** The walk over ColorHdrList when header lines are coloured as a whole. *)
Fixpoint header_rules (rules : list ColorLine) (buf : list Z) (n : nat)
    (s : RState) : option RState :=
  match rules with
  | [] => Some s
  | r :: rules' =>
      match cl_regex r buf false with
      | Some _ =>
          l ← line_info s !! n;
          l' ← set_color0 (pair r) (set_type MT_COLOR_HEADER l);
          let info := <[n := l']> (line_info s) in
          if negb (is_cont_hdr l' =? 0) then
            info' ← recolor_cont info n MT_COLOR_HEADER (pair r);
            Some (set_forest (set_redraw (forest s)) (set_line_info info' s))
          else Some (set_line_info info s)
      | None => header_rules rules' buf n s
      end
  end.

(** The forward scan after a signature delimiter:
    [while (i < last && check_sig(buf, line_info, i - 1) == 0 && (type is plain)) ...] *)
Fixpoint sig_forward (fuel : nat) (buf : list Z) (info : list Line)
    (n i : nat) (last : nat) : option (list Line) :=
  match fuel with
  | O => Some info
  | S fuel' =>
      if bool_decide (i < last)%nat
         && (Sig.check_sig buf info (i - 1) =? 0)
         && (bool_decide (type_at info i = MT_COLOR_NORMAL)
             || bool_decide (type_at info i = MT_COLOR_QUOTED)
             || bool_decide (type_at info i = MT_COLOR_HEADER))
      then
        li ← info !! i;
        info1 ← (if negb (chunks li =? 0) then
                   i1 ← wr info i (set_chunks 0);
                   wr i1 n (realloc_syntax 1)
                 else Some info);
        info2 ← wr info1 i (set_type MT_COLOR_SIGNATURE);
        sig_forward fuel' buf info2 n (S i) last
      else Some info
  end.

Section WithConfig.

Variable cfg : Config.
Variable ColorQuote : Z -> Z.
Variable ColorQuoteUsed : Z.

(** The first part of resolve_types: the line type (and what is set along
    with it). *)
Definition resolve_line_type (buf raw : list Z) (n last : nat)
    (q_classify : bool) (s : RState) : option RState :=
  let info := line_info s in
  if bool_decide (n = O)
     || ISHEADER (type_at info (n - 1))
     || (Normalizer.check_protected_header_marker cfg raw =? 0)
  then
    if peek buf =? ch_LF then
      info' ← wr info n (set_type MT_COLOR_NORMAL); Some (set_line_info info' s)
    else
      s1 ← (if bool_decide (0 < n)%nat && ((peek buf =? ch_SPACE) || (peek buf =? ch_TAB))
            then
              prev ← info !! (n - 1)%nat;
              i1 ← wr info n (set_type (type prev));
              if negb (C_HeaderColorPartial cfg) then
                p0 ← rd_syntax prev 0;
                l ← i1 !! n;
                l' ← set_color0 (color p0) l;
                Some (set_line_info (<[n := set_is_cont_hdr 1 l']> i1) s)
              else Some (set_line_info i1 s)
            else
              i1 ← wr info n (set_type MT_COLOR_HDEFAULT);
              Some (set_line_info i1 s));
      if negb (C_HeaderColorPartial cfg)
      then header_rules (ColorHdrList s1) buf n s1
      else Some s1
  else if bool_decide (take 4 raw = [ch_ESC; 91; 48; 109]) then
    info' ← wr info n (set_type MT_COLOR_NORMAL); Some (set_line_info info' s)
  else if Normalizer.check_attachment_marker cfg raw =? 0 then
    info' ← wr info n (set_type MT_COLOR_ATTACHMENT); Some (set_line_info info' s)
  else if str_eqb (bytes "-- " ++ [ch_LF]) buf
          || str_eqb (bytes "-- " ++ [ch_CR; ch_LF]) buf then
    i1 ← wr info n (set_type MT_COLOR_SIGNATURE);
    i2 ← sig_forward last buf i1 n (S n) last;
    Some (set_line_info i2 s)
  else if Sig.check_sig buf info (n - 1) =? 0 then
    info' ← wr info n (set_type MT_COLOR_SIGNATURE); Some (set_line_info info' s)
  else
    let '(is_quote, pm) := mutt_is_quote_line cfg buf in
    if is_quote then
      l ← info !! n;
      s1 ← (if q_classify && bool_decide (quote l = None) then
              r ← Quote.classify_quote ColorQuote ColorQuoteUsed (forest s)
                     (drop (Z.to_nat (rm_so pm)) buf)
                     (Z.to_nat (rm_eo pm - rm_so pm));
              i1 ← wr info n (set_quote (Some r.2));
              Some (set_forest r.1 (set_line_info i1 s))
            else Some s);
      i2 ← wr (line_info s1) n (set_type MT_COLOR_QUOTED);
      Some (set_line_info i2 s1)
    else
      info' ← wr info n (set_type MT_COLOR_NORMAL); Some (set_line_info info' s).

End WithConfig.

(** *** The highlight passes *)

(** The variables of a pass that live across the rules and the offsets. *)
Record Pass := mkPass {
  p_line : Line;
  p_i : Z;
  p_found : bool;
  p_null_rx : bool;
}.

(** What a pass does with a non-empty match [(so, eo)] (offsets already
    relative to the whole line) of a rule of colour [c], once the chunk
    count has been dealt with. *)
Definition record_match (p : Pass) (c so eo : Z) : option Pass :=
  let i := chunks (p_line p) - 1 in
  cur ← rd_syntax (p_line p) i;
  l ← (if negb (p_found p) || (so <? first cur)
          || ((so =? first cur) && (eo >? last cur))
       then wr_syntax (p_line p) i (mkSyntax c so eo)
       else Some (p_line p));
  Some (mkPass l i true false).

(** [if (++(line_info[n].chunks) > 1) mutt_mem_realloc(...)] *)
Definition grow_chunks (l : Line) : Line :=
  let l1 := set_chunks (to_short (chunks l + 1)) l in
  if chunks l1 >? 1 then realloc_syntax (Z.to_nat (chunks l1)) l1 else l1.

(** The walk over the rules at one offset of the body/header pass.  The
    result is the rules with their stop_matching flags and the pass state. *)
Fixpoint body_rules (rules : list ColorLine) (text : list Z) (off : Z)
    (p : Pass) : option (list ColorLine * Pass) :=
  match rules with
  | [] => Some ([], p)
  | r :: rules' =>
      match (if stop_matching r then None
             else cl_regex r (drop (Z.to_nat off) text) (negb (off =? 0))) with
      | Some (so, eo) =>
          if negb (eo =? so) then
            if negb (p_found p) && (chunks (p_line p) =? SHRT_MAX) then
              (* "Abort if we fill up chunks": null_rx = false; break; *)
              Some (r :: rules', mkPass (p_line p) (p_i p) (p_found p) false)
            else
              let l1 := if negb (p_found p) then grow_chunks (p_line p) else p_line p in
              p1 ← record_match (mkPass l1 (p_i p) (p_found p) (p_null_rx p))
                     (pair r) (so + off) (eo + off);
              res ← body_rules rules' text off p1;
              Some (r :: res.1, res.2)
          else
            res ← body_rules rules' text off
                    (mkPass (p_line p) (p_i p) (p_found p) true);
            Some (r :: res.1, res.2)
      | None =>
          res ← body_rules rules' text off p;
          Some (set_stop_matching true r :: res.1, res.2)
      end
  end.

(** The same walk in the attachment pass: no stop_matching, no cap. *)
Fixpoint attach_rules (rules : list ColorLine) (text : list Z) (off : Z)
    (p : Pass) : option Pass :=
  match rules with
  | [] => Some p
  | r :: rules' =>
      match cl_regex r (drop (Z.to_nat off) text) (negb (off =? 0)) with
      | Some (so, eo) =>
          if negb (eo =? so) then
            let l1 := if negb (p_found p) then grow_chunks (p_line p) else p_line p in
            p1 ← record_match (mkPass l1 (p_i p) (p_found p) (p_null_rx p))
                   (pair r) (so + off) (eo + off);
            attach_rules rules' text off p1
          else
            attach_rules rules' text off (mkPass (p_line p) (p_i p) (p_found p) true)
      | None => attach_rules rules' text off p
      end
  end.

(** The new offset after the rules have been tried:
    [if (null_rx) offset++; else offset = (line_info[n].syntax)[i].last;] *)
Definition next_offset (p : Pass) (off : Z) : option Z :=
  if p_null_rx p then Some (off + 1)
  else s ← rd_syntax (p_line p) (p_i p); Some (last s).

(** The do-while loop of the body/header pass. *)
Fixpoint body_loop (fuel : nat) (rules : list ColorLine) (text : list Z)
    (off : Z) (l : Line) (i : Z) : option (list ColorLine * Line) :=
  match fuel with
  | O => None
  | S fuel' =>
      if peek (drop (Z.to_nat off) text) =? 0 then Some (rules, l)
      else
        res ← body_rules rules text off (mkPass l i false false);
        let '(rules1, p) := res in
        off1 ← next_offset p off;
        if p_found p || p_null_rx p
        then body_loop fuel' rules1 text off1 (p_line p) (p_i p)
        else Some (rules1, p_line p)
  end.

(** The do-while loop of the attachment pass. *)
Fixpoint attach_loop (fuel : nat) (rules : list ColorLine) (text : list Z)
    (off : Z) (l : Line) (i : Z) : option Line :=
  match fuel with
  | O => None
  | S fuel' =>
      if peek (drop (Z.to_nat off) text) =? 0 then Some l
      else
        p ← attach_rules rules text off (mkPass l i false false);
        off1 ← next_offset p off;
        if p_found p || p_null_rx p
        then attach_loop fuel' rules text off1 (p_line p) (p_i p)
        else Some (p_line p)
  end.

(** "body patterns": the pass over one line, from the reset of the rules'
    stop_matching flags on. *)
Definition body_pass (rules : list ColorLine) (buf : list Z) (l : Line)
    : option (list ColorLine * Line) :=
  let text := mask_newline buf in
  body_loop (S (length text)) (map (set_stop_matching false) rules) text 0
            (set_chunks 0 l) 0.

(** "attachment patterns". *)
Definition attach_pass (rules : list ColorLine) (buf : list Z) (l : Line)
    : option Line :=
  let text := mask_newline buf in
  attach_loop (S (length text)) rules text 0 (set_chunks 0 l) 0.

Section Resolve.

Variable cfg : Config.
Variable ColorQuote : Z -> Z.
Variable ColorQuoteUsed : Z.

Definition resolve_types (buf raw : list Z) (n last : nat) (q_classify : bool)
    (s : RState) : option RState :=
  s1 ← resolve_line_type cfg ColorQuote ColorQuoteUsed buf raw n last q_classify s;
  l1 ← line_info s1 !! n;
  s2 ← (if bool_decide (type l1 = MT_COLOR_NORMAL)
           || bool_decide (type l1 = MT_COLOR_QUOTED)
           || (bool_decide (type l1 = MT_COLOR_HDEFAULT) && C_HeaderColorPartial cfg)
        then
          if bool_decide (type l1 = MT_COLOR_HDEFAULT) then
            r ← body_pass (ColorHdrList s1) buf l1;
            Some (mkRState (<[n := r.2]> (line_info s1)) (forest s1)
                           r.1 (ColorBodyList s1) (ColorAttachList s1))
          else
            r ← body_pass (ColorBodyList s1) buf l1;
            Some (mkRState (<[n := r.2]> (line_info s1)) (forest s1)
                           (ColorHdrList s1) r.1 (ColorAttachList s1))
        else Some s1);
  l2 ← line_info s2 !! n;
  if bool_decide (type l2 = MT_COLOR_ATTACHMENT) then
    l3 ← attach_pass (ColorAttachList s2) buf l2;
    Some (set_line_info (<[n := l3]> (line_info s2)) s2)
  else Some s2.

End Resolve.

End Classifier.

(** ** The line formatter: grok_ansi, format_line *)

Module Format.

Definition ANSI_OFF : Z := 1.
Definition ANSI_BLINK : Z := 2.
Definition ANSI_BOLD : Z := 4.
Definition ANSI_UNDERLINE : Z := 8.
Definition ANSI_REVERSE : Z := 16.
Definition ANSI_COLOR : Z := 32.

(** struct AnsiAttr *)
Record AnsiAttr := mkAnsiAttr {
  attr : Z;
  fg : Z;
  bg : Z;
  apair : Z;
}.

(** The result of [mbrtowc]: a character made of [k] bytes, the null wide
    character (return value 0), an incomplete sequence ((size_t) -2) or an
    invalid one ((size_t) -1). *)
Inductive mbresult :=
  | MbChar (wc : Z) (k : nat)
  | MbNull
  | MbIncomplete
  | MbInvalid.

(** The C library's multibyte decoder and character classes for the locale
    in use, the curses attribute bits, and the other collaborators of
    format_line. *)
Record Locale := mkLocale {
  mbstate : Type;
  mbstate_zero : mbstate;
  mbrtowc : list Z -> mbstate -> mbresult * mbstate;
  IsWPrint : Z -> bool;
  wcwidth : Z -> Z;
  CharsetIsUtf8 : bool;
  mutt_mb_is_display_corrupting_utf8 : Z -> bool;
  A_BOLD : Z;
  A_UNDERLINE : Z;
  mutt_alloc_color : Z -> Z -> Z;
}.

(** What format_line puts on the screen, call by call. *)
Inductive Draw :=
  | DrawColor (vch : nat) (special : Z) (a : AnsiAttr)
  | DrawOctal (b : Z)
  | DrawWch (wc : Z)
  | DrawSpaces (n : Z)
  | DrawCaret (c : Z)
  | DrawReplacement.

(** [buf[i]] *)
Definition byte_at (buf : list Z) (i : nat) : Z := peek (drop i buf).

(** The [n] bytes at [buf + pos] that [mbrtowc(&wc, buf + pos, cnt - pos, ...)]
    may read. *)
Definition window (buf : list Z) (pos cnt : nat) : list Z :=
  take (cnt - pos) (drop pos buf).

(** [while (isdigit(buf[x]) || buf[x] == ';') x++;] *)
Fixpoint skip_params (fuel : nat) (buf : list Z) (x : nat) : nat :=
  match fuel with
  | O => x
  | S fuel' =>
      if isdigit (byte_at buf x) || (byte_at buf x =? 59)
      then skip_params fuel' buf (S x) else x
  end.

(** [while (pos < x && buf[pos] != ';') pos++; pos++;] *)
Fixpoint skip_code (fuel : nat) (buf : list Z) (pos x : nat) : nat :=
  match fuel with
  | O => S pos
  | S fuel' =>
      if bool_decide (pos < x)%nat && negb (byte_at buf pos =? 59)
      then skip_code fuel' buf (S pos) x else S pos
  end.

(** The [while (pos < x)] loop of grok_ansi over the attribute codes. *)
Fixpoint grok_codes (fuel : nat) (buf : list Z) (pos x : nat) (a : AnsiAttr)
    : AnsiAttr :=
  match fuel with
  | O => a
  | S fuel' =>
      if bool_decide (pos < x)%nat then
        let c := byte_at buf pos in
        let single := bool_decide (S pos = x) || (byte_at buf (S pos) =? 59) in
        if (c =? 49) && single then
          grok_codes fuel' buf (pos + 2) x
            (mkAnsiAttr (Z.lor (attr a) ANSI_BOLD) (fg a) (bg a) (apair a))
        else if (c =? 52) && single then
          grok_codes fuel' buf (pos + 2) x
            (mkAnsiAttr (Z.lor (attr a) ANSI_UNDERLINE) (fg a) (bg a) (apair a))
        else if (c =? 53) && single then
          grok_codes fuel' buf (pos + 2) x
            (mkAnsiAttr (Z.lor (attr a) ANSI_BLINK) (fg a) (bg a) (apair a))
        else if (c =? 55) && single then
          grok_codes fuel' buf (pos + 2) x
            (mkAnsiAttr (Z.lor (attr a) ANSI_REVERSE) (fg a) (bg a) (apair a))
        else if (c =? 48) && single then
          grok_codes fuel' buf (pos + 2) x (mkAnsiAttr ANSI_OFF (fg a) (bg a) (-1))
        else if (c =? 51) && isdigit (byte_at buf (S pos)) then
          grok_codes fuel' buf (pos + 3) x
            (mkAnsiAttr (Z.lor (attr a) ANSI_COLOR) (byte_at buf (S pos) - 48) (bg a) (-1))
        else if (c =? 52) && isdigit (byte_at buf (S pos)) then
          grok_codes fuel' buf (pos + 3) x
            (mkAnsiAttr (Z.lor (attr a) ANSI_COLOR) (fg a) (byte_at buf (S pos) - 48) (-1))
        else
          grok_codes fuel' buf (skip_code (x - pos) buf pos x) x a
      else a
  end.

Definition grok_ansi (allow_ansi : bool) (buf : list Z) (pos : nat)
    (pa : option AnsiAttr) : nat * option AnsiAttr :=
  let x := skip_params (length buf) buf pos in
  match pa with
  | Some a =>
      if allow_ansi && (byte_at buf x =? 109) then
        let a1 := if bool_decide (pos = x)
                  then mkAnsiAttr ANSI_OFF (fg a) (bg a) (-1) else a in
        (x, Some (grok_codes (S (x - pos)) buf pos x a1))
      else (x, pa)
  | None => (x, None)
  end.

Section WithLocale.

Variable cfg : Config.
Variable loc : Locale.

(** The part of resolve_color that writes to the AnsiAttr it is given. *)
Definition resolve_color_attr (special : Z) (a : AnsiAttr) : AnsiAttr :=
  if negb (special =? 0) || negb (attr a =? 0) then
    let a1 := if negb (Z.land (attr a) ANSI_COLOR =? 0) && (apair a =? -1)
              then mkAnsiAttr (attr a) (fg a) (bg a) (mutt_alloc_color loc (fg a) (bg a))
              else a in
    if negb (Z.land special (A_UNDERLINE loc) =? 0)
       || negb (Z.land (attr a1) ANSI_UNDERLINE =? 0) then a1
    else if negb (Z.land (attr a1) ANSI_REVERSE =? 0) then a1
    else if negb (Z.land (attr a1) ANSI_BLINK =? 0) then a1
    else if attr a1 =? ANSI_OFF then mkAnsiAttr 0 (fg a1) (bg a1) (apair a1)
    else a1
  else a.

(** The variables of format_line that live across the characters. *)
Record FState := mkFState {
  f_ch : nat;
  f_vch : nat;
  f_col : Z;
  f_space : Z;
  f_special : Z;
  f_last_special : Z;
  f_mbstate : mbstate loc;
  f_pa : option AnsiAttr;
  f_out : list Draw;
}.

Definition emit (pa : option AnsiAttr) (d : Draw) (out : list Draw) : list Draw :=
  match pa with
  | Some _ => out ++ [d]
  | None => out
  end.

(** The first [while] of the loop body: ANSI sequences at [ch]. *)
Fixpoint skip_ansi (fuel : nat) (buf : list Z) (cnt ch : nat)
    (pa : option AnsiAttr) : nat * option AnsiAttr :=
  match fuel with
  | O => (ch, pa)
  | S fuel' =>
      if bool_decide (2 ≤ cnt - ch)%nat && (byte_at buf ch =? ch_ESC)
         && (byte_at buf (S ch) =? 91) && Normalizer.is_ansi (drop (ch + 2) buf)
      then
        let '(x, pa') := grok_ansi (C_AllowAnsi cfg) buf (ch + 2) pa in
        skip_ansi fuel' buf cnt (S x) pa'
      else (ch, pa)
  end.

(** [while (buf[ch++] != '\a') if (ch >= cnt) break;] *)
Fixpoint skip_marker (fuel : nat) (buf : list Z) (cnt ch : nat) : nat :=
  match fuel with
  | O => ch
  | S fuel' =>
      if byte_at buf ch =? ch_BEL then S ch
      else if bool_decide (cnt ≤ S ch)%nat then S ch
      else skip_marker fuel' buf cnt (S ch)
  end.

(** The second [while] of the loop body: marker sequences at [ch]. *)
Fixpoint skip_markers (fuel : nat) (buf : list Z) (cnt ch : nat) : nat :=
  match fuel with
  | O => ch
  | S fuel' =>
      if bool_decide (2 ≤ cnt - ch)%nat && (byte_at buf ch =? ch_ESC)
         && (byte_at buf (S ch) =? 93)
         && ((Normalizer.check_attachment_marker cfg (drop ch buf) =? 0)
             || (Normalizer.check_protected_header_marker cfg (drop ch buf) =? 0))
      then skip_markers fuel' buf cnt (skip_marker (length buf) buf cnt ch)
      else ch
  end.

(** "Handle backspace": the loop merging [wc \b wc1] into one cell.  [r1] is
    the result of the pending decoding of the character after the current
    one, [st1] the decoder state it left. *)
Fixpoint backspaces (fuel : nat) (buf : list Z) (cnt ch k : nat) (wc special : Z)
    (st st1 : mbstate loc) (r1 : mbresult)
    : nat * nat * Z * Z * mbstate loc :=
  match fuel with
  | O => (ch, k, wc, special, st)
  | S fuel' =>
      match r1 with
      | MbChar wc1 k1 =>
          if bool_decide (0 < k1)%nat && (wc1 =? ch_BS) then
            let '(r2, st2) := mbrtowc loc (window buf (ch + k + k1) cnt) st1 in
            match r2 with
            | MbChar wc2 k2 =>
                if bool_decide (k2 = O) || negb (IsWPrint loc wc2)
                then (ch, k, wc, special, st)
                else
                  let special' :=
                    if wc =? wc2 then
                      Z.lor special
                        (if (wc =? 95) && negb (Z.land special (A_UNDERLINE loc) =? 0)
                         then A_UNDERLINE loc else A_BOLD loc)
                    else if (wc =? 95) || (wc2 =? 95) then
                      Z.lor special (A_UNDERLINE loc)
                    else special in
                  let wc' :=
                    if wc =? wc2 then wc
                    else if (wc =? 95) || (wc2 =? 95) then
                      (if wc2 =? 95 then wc else wc2)
                    else wc2 in
                  let ch' := (ch + (k + k1))%nat in
                  let '(r3, st3) := mbrtowc loc (window buf (ch' + k2) cnt) st2 in
                  backspaces fuel' buf cnt ch' k2 wc' special' st2 st3 r3
            | _ => (ch, k, wc, special, st)
            end
          else (ch, k, wc, special, st)
      | _ => (ch, k, wc, special, st)
      end
  end.

(** How one turn of the [for] loop ends: [continue] (or falling off the end
    of the body) with the [k] to add to [ch] and [vch], or [break]. *)
Inductive Flow :=
  | Next (s : FState) (k : nat)
  | Stop (s : FState).

(** The body of the [for] loop of format_line. *)
Definition format_body (buf : list Z) (cnt : nat) (color_flags : bool)
    (wrap_cols : Z) (s : FState) : Flow :=
  let '(ch1, pa1) := skip_ansi (length buf) buf cnt (f_ch s) (f_pa s) in
  let ch2 := skip_markers (length buf) buf cnt ch1 in
  let s0 := mkFState ch2 (f_vch s) (f_col s) (f_space s) (f_special s)
                     (f_last_special s) (f_mbstate s) pa1 (f_out s) in
  if bool_decide (cnt ≤ ch2)%nat then Stop s0
  else
    let '(r, st) := mbrtowc loc (window buf ch2 cnt) (f_mbstate s) in
    match r with
    | MbIncomplete | MbInvalid =>
        let st' := match r with MbInvalid => mbstate_zero loc | _ => st end in
        if f_col s + 4 >? wrap_cols
        then Stop (mkFState ch2 (f_vch s) (f_col s) (f_space s) (f_special s)
                            (f_last_special s) st' pa1 (f_out s))
        else Next (mkFState ch2 (f_vch s) (f_col s + 4) (f_space s) (f_special s)
                            (f_last_special s) st' pa1
                            (emit pa1 (DrawOctal (byte_at buf ch2)) (f_out s))) 1
    | _ =>
        let wc0 := match r with MbChar wc _ => wc | _ => 0 end in
        let k0 := match r with MbChar _ k => if bool_decide (k = O) then 1%nat else k
                             | _ => 1%nat end in
        if CharsetIsUtf8 loc
           && ((wc0 =? 8203) || (wc0 =? 65279)
               || mutt_mb_is_display_corrupting_utf8 loc wc0)
        then Next (mkFState ch2 (f_vch s) (f_col s) (f_space s) (f_special s)
                            (f_last_special s) st pa1 (f_out s)) k0
        else
          let '(ch3, k, wc, special, st3) :=
            if IsWPrint loc wc0 then
              let '(r1, st1) := mbrtowc loc (window buf (ch2 + k0) cnt) st in
              backspaces (length buf) buf cnt ch2 k0 wc0 0 st st1 r1
            else (ch2, k0, wc0, 0, st) in
          let colored :=
            match pa1 with
            | Some a => color_flags || negb (special =? 0)
                        || negb (f_last_special s =? 0) || negb (attr a =? 0)
            | None => false
            end in
          let pa2 := if colored then resolve_color_attr special <$> pa1 else pa1 in
          let out2 :=
            match pa1 with
            | Some a => if colored then f_out s ++ [DrawColor (f_vch s) special a]
                        else f_out s
            | None => f_out s
            end in
          let last_special := if colored then special else f_last_special s in
          let mk col space out :=
            mkFState ch3 (f_vch s) col space special last_special st3 pa2 out in
          if IsWPrint loc wc
             || (CharsetIsUtf8 loc && ((wc =? 160) || (wc =? 8239))) then
            let space := if wc =? ch_SPACE then Z.of_nat ch3 else f_space s in
            let t := wcwidth loc wc in
            if f_col s + t >? wrap_cols then Stop (mk (f_col s) space out2)
            else Next (mk (f_col s + t) space (emit pa2 (DrawWch wc) out2)) k
          else if wc =? ch_LF then Stop (mk (f_col s) (f_space s) out2)
          else if wc =? ch_TAB then
            let t := Z.land (f_col s) (Z.lnot 7) + 8 in
            if t >? wrap_cols then Stop (mk (f_col s) (Z.of_nat ch3) out2)
            else Next (mk t (Z.of_nat ch3) (emit pa2 (DrawSpaces (t - f_col s)) out2)) k
          else if (wc <? 32) || (wc =? 127) then
            if f_col s + 2 >? wrap_cols then Stop (mk (f_col s) (f_space s) out2)
            else Next (mk (f_col s + 2) (f_space s)
                          (emit pa2 (DrawCaret (Z.land (64 + wc) 127)) out2)) k
          else if wc <? 256 then
            if f_col s + 4 >? wrap_cols then Stop (mk (f_col s) (f_space s) out2)
            else Next (mk (f_col s + 4) (f_space s) (emit pa2 (DrawOctal wc) out2)) k
          else
            if f_col s + 1 >? wrap_cols then Stop (mk (f_col s) (f_space s) out2)
            else Next (mk (f_col s + Z.of_nat k) (f_space s)
                          (emit pa2 DrawReplacement out2)) k
    end.

(** The [for (ch = 0, vch = 0; ch < cnt; ch += k, vch += k)] loop. *)
Fixpoint format_loop (fuel : nat) (buf : list Z) (cnt : nat)
    (color_flags : bool) (wrap_cols : Z) (s : FState) : FState :=
  match fuel with
  | O => s
  | S fuel' =>
      if bool_decide (f_ch s < cnt)%nat then
        match format_body buf cnt color_flags wrap_cols s with
        | Stop s' => s'
        | Next s' k =>
            format_loop fuel' buf cnt color_flags wrap_cols
              (mkFState (f_ch s' + k) (f_vch s' + k) (f_col s') (f_space s')
                        (f_special s') (f_last_special s') (f_mbstate s')
                        (f_pa s') (f_out s'))
        end
      else s
  end.

(** format_line.  [continuation] is [( *line_info)[n].continuation],
    [color_flags] is [flags & (MUTT_SHOWCOLOR | MUTT_SEARCH | MUTT_PAGER_MARKER)],
    [wrap] the result of mutt_window_wrap_cols and [cols] the width of the
    pager window.  The result holds the return value [ch] and the values
    stored through pspace, pvch, pcol and pspecial. *)
Definition format_line (continuation : Z) (buf : list Z) (color_flags : bool)
    (pa : option AnsiAttr) (cnt : nat) (wrap cols : Z) : FState :=
  let col := if C_Markers cfg then continuation else 0 in
  let wrap_cols :=
    if Normalizer.check_attachment_marker cfg buf =? 0 then cols else wrap in
  format_loop (S cnt) buf cnt color_flags wrap_cols
    (mkFState 0 0 col (-1) 0 (-1) (mbstate_zero loc) pa []).

End WithLocale.

Arguments f_ch {loc} _.
Arguments f_vch {loc} _.
Arguments f_col {loc} _.
Arguments f_space {loc} _.
Arguments f_special {loc} _.
Arguments f_last_special {loc} _.
Arguments f_mbstate {loc} _.
Arguments f_pa {loc} _.
Arguments f_out {loc} _.
Arguments Next {loc} _ _.
Arguments Stop {loc} _.

(** *** A UTF-8 locale to run the formatter on *)

Definition is_cont_byte (b : Z) : bool := (128 <=? b) && (b <=? 191).

(** [mbrtowc] for UTF-8 on complete and incomplete sequences of one to
    three bytes; the decoder keeps no state between calls. *)
Definition utf8_mbrtowc (s : list Z) (st : unit) : mbresult * unit :=
  match s with
  | [] => (MbIncomplete, st)
  | b0 :: r =>
      if b0 =? 0 then (MbNull, st)
      else if b0 <? 128 then (MbChar b0 1, st)
      else if (194 <=? b0) && (b0 <=? 223) then
        match r with
        | [] => (MbIncomplete, st)
        | b1 :: _ =>
            if is_cont_byte b1
            then (MbChar ((b0 - 192) * 64 + (b1 - 128)) 2, st)
            else (MbInvalid, st)
        end
      else if (224 <=? b0) && (b0 <=? 239) then
        match r with
        | [] => (MbIncomplete, st)
        | [b1] => if is_cont_byte b1 then (MbIncomplete, st) else (MbInvalid, st)
        | b1 :: b2 :: _ =>
            if is_cont_byte b1 && is_cont_byte b2
            then (MbChar ((b0 - 224) * 4096 + (b1 - 128) * 64 + (b2 - 128)) 3, st)
            else (MbInvalid, st)
        end
      else (MbInvalid, st)
  end.

(** Printable in this locale: the ASCII graphic characters and the space,
    and the assigned characters from U+00A1 up to U+0377. *)
Definition utf8_IsWPrint (wc : Z) : bool :=
  ((32 <=? wc) && (wc <=? 126)) || ((161 <=? wc) && (wc <=? 887)).

Definition utf8_locale : Locale :=
  mkLocale unit tt utf8_mbrtowc utf8_IsWPrint (fun _ => 1) true
           (fun wc => (wc =? 173) || ((8234 <=? wc) && (wc <=? 8238)))
           2097152 131072 (fun f b => f * 8 + b).

Definition plain_config : Config :=
  mkConfig false None None true false
           ([ch_ESC; 93; 57; 59] ++ bytes "A" ++ [ch_BEL])
           ([ch_ESC; 93; 56; 59] ++ bytes "P" ++ [ch_BEL]).

End Format.

(** ** The viewport controller: display_line (scanning calls), the
       invalidation loops and the reflow of pager_custom_redraw *)

Module Pager.

Import Classifier.

(** A slot as [mutt_pager] and [display_line] initialise it:
    zeroed, type -1, search_cnt -1, one Syntax holding (-1, -1). *)
Definition fresh_line : Line :=
  mkLine 0 MT_UNCLASSIFIED 0 0 (-1) [mkSyntax 0 (-1) (-1)] None None 0.

(** struct PagerRedrawData, as far as the scan and the reflow use it. *)
Record PagerRedrawData := mkRd {
  rs : RState;
  lines : Z;
  max_line : nat;
  last_line : nat;
  topline : nat;
  search_compiled : bool;
  search_flag : bool;
  has_types : bool;
  nowrap : bool;
  retwinch : bool;
}.

Definition set_rs (r : RState) (rd : PagerRedrawData) : PagerRedrawData :=
  mkRd r (lines rd) (max_line rd) (last_line rd) (topline rd)
       (search_compiled rd) (search_flag rd) (has_types rd) (nowrap rd) (retwinch rd).

(** "Store current position": the count of the lines that are not
    continuations among the slots 0..topline, less one.
    [rd->lines = -1; for (i = 0; i <= rd->topline; i++) if (!continuation) rd->lines++;] *)
Fixpoint count_lines (info : list Line) (i : nat) (fuel : nat) (acc : Z) : Z :=
  match fuel with
  | O => acc
  | S fuel' =>
      match info !! i with
      | Some l =>
          count_lines info (S i) fuel' (if continuation l =? 0 then acc + 1 else acc)
      | None => count_lines info (S i) fuel' acc
      end
  end.

Definition logical_index (info : list Line) (top : nat) : Z :=
  count_lines info 0 (S top) (-1).

(** The body of the invalidation loop of the reflow. *)
Definition reset_line (search_compiled : bool) (l : Line) : Line :=
  mkLine 0 MT_UNCLASSIFIED 0 0 (-1) (take 1 (syntax l))
         (if search_compiled then None else search l) None (is_cont_hdr l).

(** [for (i = 0; i < rd->max_line; i++) { ... }] *)
Definition reflow_invalidate (search_compiled : bool) (max_line : nat)
    (info : list Line) : list Line :=
  map (reset_line search_compiled) (take max_line info) ++ drop max_line info.

(** The invalidation that precedes the compilation of a new search pattern:
    [for (i = 0; i < rd.last_line; i++) { if (search) FREE(&search); search_cnt = -1; }] *)
Definition clear_search (l : Line) : Line :=
  mkLine (offset l) (type l) (continuation l) (chunks l) (-1)
         (syntax l) None (quote l) (is_cont_hdr l).

Definition search_invalidate (last_line : nat) (info : list Line) : list Line :=
  map clear_search (take last_line info) ++ drop last_line info.

(** append_line *)
Fixpoint line_start (info : list Line) (m1 : nat) : Z :=
  match m1 with
  | O => -1
  | S m =>
      match info !! m with
      | Some l => if continuation l =? 0 then Z.of_nat m else line_start info m
      | None => line_start info m
      end
  end.

Definition append_line (info : list Line) (n : nat) (cnt : Z)
    : option (list Line) :=
  ln ← info !! n;
  l1 ← info !! S n;
  s0 ← rd_syntax ln 0;
  s1 ← rd_syntax l1 0;
  let m := line_start info (S n) in
  let lst := if negb (continuation ln =? 0) then cnt + last s0 else cnt in
  l1' ← wr_syntax l1 0 (mkSyntax (color s0) m lst);
  Some (<[S n := mkLine (offset l1') (type ln) 1 (chunks l1') (search_cnt l1')
                        (syntax l1') (search l1') (quote l1') (is_cont_hdr l1')]> info).

(** Modelled from the spec: mutt_file_read_line belongs to a library file
    that is not part of the sources at hand; the spec gives the stream a
    [read_line() -> bytes, bytes_consumed].  With MUTT_EOL the line keeps its
    newline; past the end of the stream there is no line. *)
Fixpoint upto_newline (s : list Z) : list Z :=
  match s with
  | [] => []
  | c :: s' => if c =? ch_LF then [c] else c :: upto_newline s'
  end.

Definition read_line (file : list Z) (off : Z) : option (list Z) :=
  if (0 <=? off) && (off <? Z.of_nat (length file))
  then Some (upto_newline (drop (Z.to_nat off) file))
  else None.

(** The loop that fills [search] with the matches of the search pattern. *)
Fixpoint search_loop (fuel : nat) (re : regex) (fmt : list Z) (off : Z)
    (cnt : Z) (acc : list Syntax) : option (Z * list Syntax) :=
  match fuel with
  | O => None
  | S fuel' =>
      match re (drop (Z.to_nat off) fmt) (negb (off =? 0)) with
      | Some (so, eo) =>
          let cnt1 := to_short (cnt + 1) in
          if cnt1 <? 1 then None
          else
            let acc1 := resize (Z.to_nat cnt1) (mkSyntax 0 0 0) acc in
            let acc2 := <[Z.to_nat (cnt1 - 1) :=
                           mkSyntax 0 (so + off) (eo + off)]> acc1 in
            let off1 := if eo =? so then off + 1 else eo + off in
            if peek (drop (Z.to_nat off1) fmt) =? 0 then Some (cnt1, acc2)
            else search_loop fuel' re fmt off1 cnt1 acc2
      | None => Some (cnt, acc)
      end
  end.

(** Specification vocabulary: every slot of [info] whose index satisfies [P]
    is still there in [info'], with the same continuation flag. *)
Definition keeps (P : nat -> Prop) (info info' : list Line) : Prop :=
  forall m l, P m -> info !! m = Some l ->
    exists l', info' !! m = Some l' /\ continuation l' = continuation l.

(** Specification vocabulary: the fields of the redraw data that a scanning
    call of display_line does not write. *)
Definition same_settings (rd rd1 : PagerRedrawData) : Prop :=
  lines rd1 = lines rd /\ topline rd1 = topline rd
  /\ search_flag rd1 = search_flag rd /\ has_types rd1 = has_types rd
  /\ nowrap rd1 = nowrap rd /\ retwinch rd1 = retwinch rd
  /\ search_compiled rd1 = search_compiled rd.

(** Specification vocabulary: the number of logical lines (records that are
    not continuations) among the first [last] records. *)
Definition logical_lines (info : list Line) (last : nat) : Z :=
  count_lines info 0 last 0.

(** The counting loop, one slot at a time. *)
Definition count_step (info : list Line) (i : nat) (acc : Z) : Z :=
  match info !! i with
  | Some l => if continuation l =? 0 then acc + 1 else acc
  | None => acc
  end.

(** Specification vocabulary: record [t] starts a logical line (it is not a
    continuation) and is the one of logical index [L]. *)
Definition at_logical_line (info : list Line) (t : nat) (L : Z) : Prop :=
  (exists l, info !! t = Some l /\ continuation l = 0)
  /\ logical_index info t = L.

Section Scan.

Variable cfg : Config.
Variable loc : Format.Locale.
Variable ColorQuote : Z -> Z.
Variable ColorQuoteUsed : Z.
(** The file behind [fp], the search pattern, the curses height LINES, the
    width mutt_window_wrap_cols yields with and without MUTT_PAGER_NOWRAP,
    the width of the pager window, and the smart_wrap setting. *)
Variable file : list Z.
Variable search_re : regex.
Variable LINES : nat.
Variable wrap_cols_of : bool -> Z.
Variable cols : Z.
Variable C_SmartWrap : bool.

(** The growth of the array in display_line. *)
Definition grow (info : list Line) : list Line := info ++ replicate LINES fresh_line.

(** "avoid race condition for continuation lines when scrolling up":
    [for (m = n + 1; m < *last && offset && continuation; m++) type[m] = type[n];] *)
Fixpoint spread_type (fuel : nat) (info : list Line) (m last : nat) (t : ColorId)
    : list Line :=
  match fuel with
  | O => info
  | S fuel' =>
      match info !! m with
      | Some l =>
          if bool_decide (m < last)%nat && negb (offset l =? 0)
             && negb (continuation l =? 0)
          then spread_type fuel' (<[m := set_type t l]> info) (S m) last t
          else info
      | None => info
      end
  end.

(** "skip trailing blanks": [while (ch && (buf[ch] == ' ' || '\t' || '\r')) ch--;] *)
Fixpoint back_over_blanks (buf : list Z) (ch : nat) : nat :=
  match ch with
  | O => O
  | S ch' =>
      let c := Format.byte_at buf ch in
      if (c =? ch_SPACE) || (c =? ch_TAB) || (c =? ch_CR)
      then back_over_blanks buf ch' else ch
  end.

(** "skip leading blanks on the next line too" *)
Fixpoint over_blanks (fuel : nat) (buf : list Z) (p : nat) : nat :=
  match fuel with
  | O => p
  | S fuel' =>
      let c := Format.byte_at buf p in
      if (c =? ch_SPACE) || (c =? ch_TAB) then over_blanks fuel' buf (S p) else p
  end.

(** "now chose a good place to break the line": the offset [buf_ptr - buf]
    at which the next record starts. *)
Definition break_point (l : Line) (buf : list Z) (nw nskip : bool) : nat :=
  let b_read := length buf in
  let r := Format.format_line cfg loc (continuation l) buf false None b_read
             (wrap_cols_of nw) cols in
  let cnt := Format.f_ch r in
  let ch := Format.f_space r in
  let p1 :=
    if C_SmartWrap then
      let p0 :=
        if bool_decide (cnt < b_read)%nat && negb (ch =? -1)
           && negb (ISHEADER (type l)) && negb (ISSPACE (Format.byte_at buf cnt))
        then
          if bool_decide (back_over_blanks buf (Z.to_nat ch) = O) then cnt
          else Z.to_nat ch
        else cnt in
      if negb nskip then over_blanks (length buf) buf p0 else p0
    else cnt in
  let p2 := if Format.byte_at buf p1 =? ch_CR then S p1 else p1 in
  if Format.byte_at buf p2 =? ch_LF then S p2 else p2.

(** What a call of display_line leaves behind when it gives up on a read. *)
Definition read_failed (rd : PagerRedrawData) (r : RState) (last : nat)
    (change_last : bool) : Z * PagerRedrawData :=
  (-1, mkRd r (lines rd) (max_line rd) (if change_last then last - 1 else last)%nat
            (topline rd) (search_compiled rd) (search_flag rd) (has_types rd)
            (nowrap rd) (retwinch rd)).

(** display_line for a call that only scans: its flags are
    [types | searching | nw | nskip] (MUTT_TYPES, MUTT_SEARCH,
    MUTT_PAGER_NOWRAP, MUTT_PAGER_NSKIP), with MUTT_SHOW, MUTT_SHOWCOLOR,
    MUTT_HIDE and MUTT_PAGER_LOGS unset.  The
    result is the return code and the state; [None] stands for an access
    outside the line array or a failure inside resolve_types. *)
Definition display_line (n : nat) (types searching nw nskip : bool)
    (rd : PagerRedrawData) : option (Z * PagerRedrawData) :=
  let change_last := bool_decide (n = last_line rd) in
  let last := if change_last then S (last_line rd) else last_line rd in
  let grown := bool_decide (last = max_line rd) in
  let max := if grown then (max_line rd + LINES)%nat else max_line rd in
  let r0 := if grown then set_line_info (grow (line_info (rs rd))) (rs rd) else rs rd in
  let rd0 := mkRd r0 (lines rd) max last (topline rd) (search_compiled rd)
                  (search_flag rd) (has_types rd) (nowrap rd) (retwinch rd) in
  ln ← line_info r0 !! n;
  let line := read_line file (offset ln) in
  (* only do color highlighting if we are viewing a message *)
  r1 ← (if types && bool_decide (type ln = MT_UNCLASSIFIED) then
          match line with
          | None => Some (inl tt)
          | Some buf =>
              r ← resolve_types cfg ColorQuote ColorQuoteUsed
                     (Normalizer.fill_buffer_fmt cfg buf) buf n last false r0;
              l' ← line_info r !! n;
              Some (inr (set_line_info
                           (spread_type (length (line_info r)) (line_info r)
                                        (S n) last (type l')) r))
          end
        else Some (inr r0));
  match r1 with
  | inl _ => Some (read_failed rd0 r0 last change_last)
  | inr r1 =>
      ln1 ← line_info r1 !! n;
      r2 ← (if searching && (continuation ln1 =? 0) && (search_cnt ln1 =? -1) then
              match line with
              | None => Some (inl tt)
              | Some buf =>
                  let fmt := Normalizer.fill_buffer_fmt cfg buf in
                  res ← search_loop (S (length fmt)) search_re fmt 0 0 [];
                  Some (inr (set_line_info
                    (<[n := mkLine (offset ln1) (type ln1) (continuation ln1)
                                   (chunks ln1) res.1 (syntax ln1)
                                   (if res.1 =? 0 then search ln1 else Some res.2)
                                   (quote ln1) (is_cont_hdr ln1)]> (line_info r1)) r1))
              end
            else Some (inr r1));
      match r2 with
      | inl _ => Some (read_failed rd0 r1 last change_last)
      | inr r2 =>
          ln2 ← line_info r2 !! n;
          nx ← line_info r2 !! S n;
          if offset nx >? 0 then
            (* we've already scanned this line, so just exit *)
            Some (0, set_rs r2 rd0)
          else
            match line with
            | None => Some (read_failed rd0 r2 last change_last)
            | Some buf =>
                let p := break_point ln2 buf nw nskip in
                info3 ← (if bool_decide (p < length buf)%nat && (continuation nx =? 0)
                         then append_line (line_info r2) n (Z.of_nat p)
                         else Some (line_info r2));
                nx3 ← info3 !! S n;
                let info4 :=
                  <[S n := mkLine (offset ln2 + Z.of_nat p) (type nx3) (continuation nx3)
                                  (chunks nx3) (search_cnt nx3) (syntax nx3)
                                  (search nx3) (quote nx3) (is_cont_hdr nx3)]> info3 in
                Some (0, set_rs (set_line_info info4 r2) rd0)
            end
      end
  end.

(** The loop that replays the stored position against the rescanned lines:
    [while (display_line(..., ++i, ...) == 0)
       if (!line_info[i].continuation && (++j == rd->lines))
         { rd->topline = i; if (!rd->search_flag) break; }]
    [i] is the index the next call is for and [j] the count so far. *)
Fixpoint replay (fuel : nat) (i : nat) (j : Z) (rd : PagerRedrawData)
    : option PagerRedrawData :=
  match fuel with
  | O => None
  | S fuel' =>
      r ← display_line i (has_types rd) (search_flag rd) (nowrap rd) false rd;
      let '(rc, rd1) := r in
      if rc =? 0 then
        l ← line_info (rs rd1) !! i;
        if continuation l =? 0 then
          if j + 1 =? lines rd1 then
            let rd2 := mkRd (rs rd1) (lines rd1) (max_line rd1) (last_line rd1) i
                            (search_compiled rd1) (search_flag rd1) (has_types rd1)
                            (nowrap rd1) (retwinch rd1) in
            if negb (search_flag rd2) then Some rd2
            else replay fuel' (S i) (j + 1) rd2
          else replay fuel' (S i) (j + 1) rd1
        else replay fuel' (S i) j rd1
      else Some rd1
  end.

(** The REDRAW_FLOW block of pager_custom_redraw up to the replay. *)
Definition reflow_reset (rd : PagerRedrawData) : PagerRedrawData :=
  if negb (retwinch rd) then
    let info := line_info (rs rd) in
    mkRd (set_line_info (reflow_invalidate (search_compiled rd) (max_line rd) info) (rs rd))
         (logical_index info (topline rd)) (max_line rd) 0 0
         (search_compiled rd) (search_flag rd) (has_types rd) (nowrap rd) (retwinch rd)
  else rd.

(** The REDRAW_FLOW block of pager_custom_redraw. *)
Definition reflow (fuel : nat) (rd : PagerRedrawData) : option PagerRedrawData :=
  replay fuel 0 (-1) (reflow_reset rd).

(** The invariant of the replay loop before the call for record [i]. *)
Definition replay_inv (i : nat) (j : Z) (rd : PagerRedrawData) : Prop :=
  last_line rd = i
  /\ (forall m, (m < i)%nat -> is_Some (line_info (rs rd) !! m))
  /\ j = count_lines (line_info (rs rd)) 0 i (-1)
  /\ (j < lines rd
      \/ (lines rd <= j /\ (topline rd < i)%nat
          /\ at_logical_line (line_info (rs rd)) (topline rd) (lines rd))).

End Scan.

End Pager.

(** ** Patterns and inputs to run the model on *)

Module Samples.

(** [find w s]: the offset of the leftmost occurrence of [w] in [s]. *)
Fixpoint find (w s : list Z) (pos : Z) : option Z :=
  if bool_decide (take (length w) s = w) then Some pos
  else match s with
       | [] => None
       | _ :: s' => find w s' (pos + 1)
       end.

(** The pattern of a literal, non-empty word: its leftmost occurrence. *)
Definition re_lit (w : list Z) : regex :=
  fun text _ =>
    match find w text 0 with
    | Some so => Some (so, so + Z.of_nat (length w))
    | None => None
    end.

Fixpoint run_of (c : Z) (s : list Z) : Z :=
  match s with
  | x :: s' => if x =? c then 1 + run_of c s' else 0
  | [] => 0
  end.

(** The pattern [c*]: it matches at offset 0, as far as the run of [c]
    there goes (an empty match when the text starts with something else). *)
Definition re_star (c : Z) : regex :=
  fun text _ => Some (0, run_of c text).


(** A line of the array that has been given a type. *)
Definition typed_line (t : ColorId) : Line :=
  mkLine 0 t 0 0 (-1) [mkSyntax 0 (-1) (-1)] None None 0.

(** A line of [n] letters "a" with its newline, and the rule list that
    colours every "a". *)
Definition line_of_a (n : nat) : list Z := replicate n 97 ++ [ch_LF].
Definition rule_a : list ColorLine := [mkColorLine (re_lit [97]) 7 false].

(** The state of a pass over "aa...a" that has recorded [k] chunks. *)
Definition chunked (k : nat) (l : Line) (i : Z) : Prop :=
  chunks l = Z.of_nat k
  /\ length (syntax l) = Nat.max 1 k
  /\ i = Z.of_nat (k - 1)
  /\ ((1 <= k)%nat ->
      exists c f, syntax l !! (k - 1)%nat = Some (mkSyntax c f (Z.of_nat k))).

(** The rules [cd] (colour 1) and [b*] (colour 2), in this order. *)
Definition rules_cd_bstar : list ColorLine :=
  [mkColorLine (re_lit (bytes "cd")) 1 false; mkColorLine (re_star 98) 2 false].

(** A line of the array that has been scanned at byte offset [off]. *)
Definition scanned_line (off : Z) : Line :=
  mkLine off MT_COLOR_NORMAL 0 0 (-1) [mkSyntax 0 (-1) (-1)] None None 0.



(** The lines of a message classified one after the other, as the scan does:
    line [n] is resolved when [last] is [n + 1]. *)
Fixpoint classify_lines (cfg : Config) (ColorQuote : Z -> Z) (ColorQuoteUsed : Z)
    (q_classify : bool) (ls : list (list Z)) (n : nat) (s : Classifier.RState)
    : option Classifier.RState :=
  match ls with
  | [] => Some s
  | l :: ls' =>
      s' ← Classifier.resolve_types cfg ColorQuote ColorQuoteUsed
             (Normalizer.fill_buffer_fmt cfg l) l n (S n) q_classify s;
      classify_lines cfg ColorQuote ColorQuoteUsed q_classify ls' (S n) s'
  end.

(** A stream of five lines (the first one empty), a pager that has scanned
    it with a wrap width of 10 columns, and the view on it with the top of
    the window at the record 5: the start of the fourth line. *)
Definition sample_file : list Z :=
  [ch_LF] ++ bytes "alpha beta gamma delta" ++ [ch_LF] ++ bytes "> second" ++ [ch_LF]
  ++ bytes "third line is long too" ++ [ch_LF] ++ bytes "end" ++ [ch_LF].

Definition sample_reflow (w : Z) : nat -> Pager.PagerRedrawData ->
    option Pager.PagerRedrawData :=
  Pager.reflow Format.plain_config Format.utf8_locale (fun i => i) 3 sample_file
               (re_lit (bytes "zzz")) 4 (fun _ => w) w false.

Definition sample_view : Pager.PagerRedrawData :=
  Eval vm_compute in
    match sample_reflow 10 50
            (Pager.mkRd (Classifier.mkRState (replicate 4 Pager.fresh_line)
                           Quote.empty_forest [] [] [])
                        3 4 0 0 false true true false true) with
    | Some rd =>
        Pager.mkRd (Pager.rs rd) 0 (Pager.max_line rd) (Pager.last_line rd)
                   (Pager.topline rd) false false true false false
    | None => Pager.mkRd (Classifier.mkRState [] Quote.empty_forest [] [] [])
                         0 0 0 0 false false false false false
    end.

Definition blank_state (k : nat) : Classifier.RState :=
  Classifier.mkRState (replicate k Pager.fresh_line) Quote.empty_forest [] [] [].

End Samples.

(** ** Scrolling: up_n_lines and the line-wise movements of mutt_pager *)

Module Scroll.

(** The loop of up_n_lines:
    [while (cur > 0 && nlines > 0) { cur--; if (!hiding || info[cur].type != MT_COLOR_QUOTED) nlines--; }]
    It makes at most [cur] turns. *)
Fixpoint up_loop (fuel : nat) (nlines : Z) (info : list Line) (cur : Z)
    (hiding : bool) : Z :=
  match fuel with
  | O => cur
  | S fuel' =>
      if (cur >? 0) && (nlines >? 0) then
        let cur1 := cur - 1 in
        let nlines1 :=
          if negb hiding
             || negb (bool_decide (type_at info (Z.to_nat cur1) = MT_COLOR_QUOTED))
          then nlines - 1 else nlines in
        up_loop fuel' nlines1 info cur1 hiding
      else cur
  end.

Definition up_n_lines (nlines : Z) (info : list Line) (cur : Z) (hiding : bool) : Z :=
  up_loop (Z.to_nat cur) nlines info cur hiding.

(** The loop of OP_NEXT_LINE when quoted text is hidden:
    [while (line_info[topline].type == MT_COLOR_QUOTED && topline < last_line) topline++;] *)
Fixpoint skip_quoted_down (fuel : nat) (info : list Line) (top last_line : Z) : Z :=
  match fuel with
  | O => top
  | S fuel' =>
      if bool_decide (type_at info (Z.to_nat top) = MT_COLOR_QUOTED)
         && (top <? last_line)
      then skip_quoted_down fuel' info (top + 1) last_line
      else top
  end.

(** OP_NEXT_LINE: the new [topline].
    [if (rd.line_info[rd.curline].offset < (rd.sb.st_size - 1))
       { rd.topline++; if (rd.hide_quoted) { while (...) rd.topline++; } }
     else mutt_message(_("Bottom of message is shown"));]
    [curline] is the record [rd.curline] and [st_size] the size of the file;
    the result is [None] when [curline] lies outside the array. *)
Definition op_next_line (info : list Line) (curline st_size top last_line : Z)
    (hiding : bool) : option Z :=
  l ← (if 0 <=? curline then info !! Z.to_nat curline else None);
  if offset l <? st_size - 1 then
    let top1 := top + 1 in
    Some (if hiding
          then skip_quoted_down (Z.to_nat (last_line - top1)) info top1 last_line
          else top1)
  else Some top.

(** OP_PREV_LINE: [if (rd.topline) rd.topline = up_n_lines(1, ...);]
    (otherwise an error message and no move). *)
Definition op_prev_line (info : list Line) (top : Z) (hiding : bool) : Z :=
  if top =? 0 then top else up_n_lines 1 info top hiding.

(** Specification vocabulary: record [i] is shown, that is, it is not hidden
    as quoted text. *)
Definition shown (hiding : bool) (info : list Line) (i : Z) : bool :=
  negb hiding || negb (bool_decide (type_at info (Z.to_nat i) = MT_COLOR_QUOTED)).

(** Specification vocabulary: the number of shown records among the [len]
    records from [lo] on. *)
Fixpoint shown_count (hiding : bool) (info : list Line) (lo : Z) (len : nat) : Z :=
  match len with
  | O => 0
  | S k => (if shown hiding info lo then 1 else 0) + shown_count hiding info (lo + 1) k
  end.

End Scroll.

(** ** Overstruck text, as nroff and man write bold and underlined characters *)

Module Overstrike.

(** Specification vocabulary: one character of an overstruck text: plain,
    bold (the character, a backspace, the character again) or underlined
    (an underscore, a backspace, the character; or the other way round). *)
Inductive Cell :=
  | Plain (c : Z)
  | Bold (c : Z)
  | Under (c : Z)
  | UnderAfter (c : Z).

Definition cell_char (a : Cell) : Z :=
  match a with Plain c | Bold c | Under c | UnderAfter c => c end.

Definition cell_bytes (a : Cell) : list Z :=
  match a with
  | Plain c => [c]
  | Bold c => [c; ch_BS; c]
  | Under c => [95; ch_BS; c]
  | UnderAfter c => [c; ch_BS; 95]
  end.

(** The bytes of an overstruck text, and the text it stands for. *)
Definition encode (cs : list Cell) : list Z := concat (map cell_bytes cs).
Definition text (cs : list Cell) : list Z := map cell_char cs.

(** A character that is none of the bytes the normalizer reacts to. *)
Definition plain_char (c : Z) : Prop := c <> 0 /\ c <> ch_BS /\ c <> ch_ESC.

End Overstrike.

(** ** ANSI sequences *)

Module AnsiSeq.

(** Specification vocabulary: a byte of the parameters of an ANSI sequence:
    a digit or a semicolon. *)
Definition param_byte (c : Z) : bool := isdigit c || (c =? 59).

End AnsiSeq.

(** ** What identifies a quote class *)

Module QuoteKeys.

(** Specification vocabulary: the prefix a class stands for and its length
    field, and the list of them over the arena, in allocation order. *)
Definition class_key (c : Quote.QClass) : list Z * nat :=
  (Quote.prefix c, Quote.length c).

Definition keys (h : list Quote.QClass) : list (list Z * nat) := map class_key h.

(** The invariant of the two walks of classify_quote over the arena [h0] the
    call started from: no class has been added and [tmp] is NULL, or [tmp]
    is the one class added, which carries the new prefix. *)
Definition walk_keys (h0 : list Quote.QClass) (qptr : list Z) (len : nat)
    (w : Quote.Walk) : Prop :=
  (keys (Quote.w_heap w) = keys h0 /\ Quote.w_tmp w = None)
  \/ (keys (Quote.w_heap w) = keys h0 ++ [(Quote.strncpy qptr len, len)]
      /\ Quote.w_tmp w = Some (length h0)).

(** The same at the end of a walk; a class that was found has the length of
    the new prefix. *)
Definition end_keys (h0 : list Quote.QClass) (qptr : list Z) (len : nat)
    (e : Quote.WalkEnd) : Prop :=
  match e with
  | Quote.Found w q =>
      walk_keys h0 qptr len w
      /\ exists pfx, keys (Quote.w_heap w) !! q = Some (pfx, len)
  | Quote.Exhausted w _ => walk_keys h0 qptr len w
  end.

End QuoteKeys.

(** ** The highlight passes: what they rely on and what they keep *)

Module Highlight.

Import Classifier.

(** The contract of regexec for the match it reports in [pmatch[0]]: the
    offsets are ordered and lie inside the text it was given. *)
Definition regex_ok (re : regex) : Prop :=
  forall t nb so eo, re t nb = Some (so, eo) ->
    0 <= so <= eo /\ eo <= Z.of_nat (length t).

Definition rules_ok (rules : list ColorLine) : Prop :=
  Forall (fun r => regex_ok (cl_regex r)) rules.

(** Specification vocabulary: a chunk is a non-empty span of the text. *)
Definition chunk_ok (text : list Z) (s : Syntax) : Prop :=
  0 <= first s < last s /\ last s <= Z.of_nat (length text).

(** Specification vocabulary: the chunk count of a line is within the cap
    and within its array, and the chunks counted are spans of the text. *)
Definition line_ok (text : list Z) (l : Line) : Prop :=
  0 <= chunks l <= SHRT_MAX
  /\ (1 <= length (syntax l))%nat
  /\ (Z.to_nat (chunks l) <= length (syntax l))%nat
  /\ Forall (chunk_ok text) (take (Z.to_nat (chunks l)) (syntax l)).

(** The invariant of the walk over the rules at the offset [off]. *)
Definition pass_ok (text : list Z) (off : Z) (p : Pass) : Prop :=
  line_ok text (p_line p)
  /\ 0 <= p_i p < Z.of_nat (length (syntax (p_line p)))
  /\ (p_found p = true ->
      p_i p = chunks (p_line p) - 1 /\ 1 <= chunks (p_line p)
      /\ exists s, syntax (p_line p) !! Z.to_nat (p_i p) = Some s /\ off < last s).

End Highlight.

(** ** What format_line hands back to its caller *)

Module FormatLayout.

Import Format.

(** Specification vocabulary: the layout part of the state of format_line:
    the byte cursor [ch] it returns, the values it stores through [pvch],
    [pcol], [pspace] and [pspecial], and the state of the decoder; that is,
    everything but the attributes and what was drawn. *)
Definition layout {loc : Locale} (s : FState loc)
    : nat * nat * Z * Z * Z * mbstate loc :=
  (f_ch s, f_vch s, f_col s, f_space s, f_special s, f_mbstate s).

Definition flow_layout {loc : Locale} (f : Flow loc)
    : nat * nat * Z * Z * Z * mbstate loc * option nat :=
  match f with
  | Next s k => (layout s, Some k)
  | Stop s => (layout s, None)
  end.

(** The state a turn of the loop ends in. *)
Definition flow_state {loc : Locale} (f : Flow loc) : FState loc :=
  match f with
  | Next s _ => s
  | Stop s => s
  end.

(** The byte cursor after a turn of the loop: [ch + k] after [continue] or
    the end of the body, [ch] after [break]. *)
Definition flow_cursor {loc : Locale} (f : Flow loc) : nat :=
  match f with
  | Next s k => (f_ch s + k)%nat
  | Stop s => f_ch s
  end.

(** The contract of mbrtowc for a character it decodes: it is made of at
    most the [n] bytes the call was allowed to read. *)
Definition locale_ok (loc : Locale) : Prop :=
  forall s st wc k st', mbrtowc loc s st = (MbChar wc k, st') -> (k <= length s)%nat.

End FormatLayout.

(** ** The shape of the quote forest *)

Module ForestShape.

Import Quote.

(** Specification vocabulary: a forest of classes as a list of trees of
    addresses; the children of a node are in sibling order. *)
#[warnings="-register-all"]
Inductive tree := T (id : nat) (kids : list tree).

Definition root (t : tree) : nat := match t with T i _ => i end.

(** The addresses of a tree, the node before its children (preorder). *)
Fixpoint ids (t : tree) : list nat :=
  match t with T i ks => i :: concat (map ids ks) end.

Definition ids_of (ts : list tree) : list nat := concat (map ids ts).

(** A run of siblings [xs] under the parent [par] in the arena [h]: the
    run starts at the pointer [first], each class points back to the one
    before it ([prv] for the first) and up to [par], and the [next] pointer
    of the last one is [nxt]. *)
Fixpoint dseg (h : list QClass) (par prv : option nat) (xs : list nat)
    (first nxt : option nat) : Prop :=
  match xs with
  | [] => first = nxt
  | x :: xs' =>
      first = Some x
      /\ exists c, h !! x = Some c /\ prev c = prv /\ up c = par
                   /\ dseg h par (Some x) xs' (next c) nxt
  end.

(** A whole sibling list: it starts with no predecessor and ends in NULL. *)
Definition dll (h : list QClass) (par : option nat) (xs : list nat)
    (first : option nat) : Prop :=
  dseg h par None xs first None.

(** The arena holds the tree [t]: the [down] pointer of every node is the
    head of the sibling list of its children. *)
#[warnings="-register-all"]
Inductive rep_tree (h : list QClass) : tree -> Prop :=
  | rep_T i ks c :
      h !! i = Some c ->
      dll h (Some i) (map root ks) (down c) ->
      Forall (rep_tree h) ks ->
      rep_tree h (T i ks).

(** The arena holds the forest [F] under the root pointer [rt], every class
    of it once. *)
Definition rep (h : list QClass) (rt : option nat) (F : list tree) : Prop :=
  dll h None (map root F) rt /\ Forall (rep_tree h) F /\ NoDup (ids_of F).

(** A forest as classify_quote leaves it. *)
Definition forest_wf (f : Forest) : Prop :=
  exists F, rep (heap f) (quote_list f) F.

(** A step of the way down to a class: the node passed, with the trees of
    its children before and after the one the way goes on in. *)
Record Frame := mkFrame {
  fr_node : nat;
  fr_before : list tree;
  fr_after : list tree;
}.

(** The tree with [t] at the end of the way [path] (innermost step first). *)
Fixpoint plug (path : list Frame) (t : tree) : tree :=
  match path with
  | [] => t
  | fr :: path' => plug path' (T (fr_node fr) (fr_before fr ++ t :: fr_after fr))
  end.

(** The addresses on and beside the way. *)
Definition frame_ids (fr : Frame) : list nat :=
  fr_node fr :: ids_of (fr_before fr) ++ ids_of (fr_after fr).

Definition path_ids (path : list Frame) : list nat := concat (map frame_ids path).

(** The last address of a run, or [d] for the empty run. *)
Fixpoint last_or (xs : list nat) (d : option nat) : option nat :=
  match xs with
  | [] => d
  | x :: xs' => last_or xs' (Some x)
  end.

(** The four links of a class. *)
Definition links (c : QClass) : option nat * option nat * option nat * option nat :=
  (next c, prev c, down c, up c).

(** The children [L] of [par] (the top-level classes for [None]), with
    [hd] the pointer to the first. *)
Definition sibs (h : list QClass) (par hd : option nat) (L : list tree) : Prop :=
  dll h par (map root L) hd /\ Forall (rep_tree h) L.

(** What a block leaves of the arena [h] when it rearranges the children [L]
    of [par] into [L']: the new list is linked, no class occurs twice, the
    classes are those of [L] and new ones, nothing outside [L] and [par]
    changes its links, and [par] only its [down] pointer. *)
Definition moved (h h' : list QClass) (par hd' : option nat) (L L' : list tree)
    : Prop :=
  sibs h' par hd' L' /\ NoDup (ids_of L')
  /\ (Datatypes.length h <= Datatypes.length h')%nat
  /\ (forall x, x ∈ ids_of L' -> x ∈ ids_of L \/ (Datatypes.length h <= x)%nat)
  /\ (forall x c, h !! x = Some c -> x ∉ ids_of L -> Some x <> par ->
        exists c', h' !! x = Some c' /\ links c' = links c)
  /\ (forall p cp, par = Some p -> h !! p = Some cp ->
        exists cp', h' !! p = Some cp' /\ next cp' = next cp /\ prev cp' = prev cp
                    /\ up cp' = up cp /\ down cp' = hd').

(** Where the list [L] of the children of [par] is in the forest [F]. *)
Definition at_list (F : list tree) (par : option nat) (FA : list tree)
    (path : list Frame) (FR : list tree) (L : list tree) : Prop :=
  match par with
  | None => F = L
  | Some p => F = FA ++ plug path (T p L) :: FR
  end.

(** The ancestors [anc] of a class whose [up] pointer is [u], nearest first. *)
Fixpoint chain (h : list QClass) (u : option nat) (anc : list nat) : Prop :=
  match anc with
  | [] => u = None
  | p :: anc' => u = Some p /\ exists c, h !! p = Some c /\ chain h (up c) anc'
  end.

(** The class the traversal goes on with after the last child of the nearest
    ancestor: the [next] of the nearest ancestor that has one. *)
Fixpoint cont (h : list QClass) (anc : list nat) : option nat :=
  match anc with
  | [] => None
  | p :: anc' =>
      match h !! p with
      | Some c => match next c with Some n => Some n | None => cont h anc' end
      | None => None
      end
  end.

End ForestShape.

(** ** More inputs to run the model on *)

Module Inputs.

Import Samples.

(** Seven records: two of text, a quoted block of three, two of text. *)
Definition quoted_block : list Line :=
  [typed_line MT_COLOR_NORMAL; typed_line MT_COLOR_NORMAL;
   typed_line MT_COLOR_QUOTED; typed_line MT_COLOR_QUOTED; typed_line MT_COLOR_QUOTED;
   typed_line MT_COLOR_NORMAL; typed_line MT_COLOR_NORMAL].

(** The same seven records, scanned from a file of 70 bytes: record [i]
    starts at the byte [10 * i]. *)
Definition scanned_block : list Line :=
  [Samples.scanned_line 0; Samples.scanned_line 10;
   set_type MT_COLOR_QUOTED (Samples.scanned_line 20);
   set_type MT_COLOR_QUOTED (Samples.scanned_line 30);
   set_type MT_COLOR_QUOTED (Samples.scanned_line 40);
   Samples.scanned_line 50; Samples.scanned_line 60].

(** The line [ESC [ 1 ; 3 1 m X]. *)
Definition ansi_line : list Z := [27; 91; 49; 59; 51; 49; 109; 88].

(** The forest after the prefixes [>>] and [>>|] have been classified with
    a palette of three colours. *)
Definition sample_forest : Quote.Forest :=
  Eval vm_compute in
    match Quote.classify_all (fun i => i) 3 Quote.empty_forest
            [bytes ">>"; bytes ">>|"] with
    | Some (f, _) => f
    | None => Quote.empty_forest
    end.

(** The line [H \b H ESC [ 1 m i \n]: a bold H, an ANSI sequence, an i. *)
Definition styled_line : list Z := [72; 8; 72; 27; 91; 49; 109; 105; 10].

End Inputs.


(** * Properties *)

(** ** Signature detection *)

Module SigFacts.

Import Sig.

Lemma count_loop_run info n c :
  0 <= c <= 5 ->
  count_loop info n c =
    if c <=? NUM_SIG_LINES then Z.min (c + Z.of_nat (sig_run info n)) 5 else c.
Proof.
  revert c. induction n as [|n IH]; intros c Hc; simpl.
  - unfold NUM_SIG_LINES. destruct (Z.leb_spec c 4); lia.
  - unfold NUM_SIG_LINES in *. destruct (Z.leb_spec c 4) as [Hle|Hgt]; [|done].
    case_bool_decide as Ht.
    + rewrite IH by lia. destruct (Z.leb_spec (c + 1) 4); lia.
    + simpl. lia.
Qed.

Lemma blank_scan_all_space s :
  blank_scan s = if all_space s then -1 else 0.
Proof.
  induction s as [|c s IH]; simpl; [done|].
  destruct (c =? 0); [done|]. destruct (ISSPACE c); simpl; [apply IH|done].
Qed.

Lemma check_sig_cases s info n :
  check_sig s info n =
    if bool_decide (sig_run info n = O) then -1
    else if bool_decide (4 < sig_run info n)%nat
         then (if all_space s then -1 else 0)
         else 0.
Proof.
  unfold check_sig. rewrite count_loop_run by lia. unfold NUM_SIG_LINES. simpl.
  rewrite blank_scan_all_space.
  repeat case_bool_decide;
    repeat match goal with
           | |- context [?a =? ?b] => destruct (Z.eqb_spec a b)
           | |- context [?a >? ?b] => destruct (Z.gtb_spec a b)
           end; try done; lia.
Qed.

Lemma check_sig_answers s info n :
  (check_sig s info n = 0 \/ check_sig s info n = -1) /\
  (check_sig s info n = 0 <->
     (1 <= sig_run info n <= 4)%nat
     \/ ((4 < sig_run info n)%nat /\ all_space s = false)).
Proof.
  rewrite check_sig_cases.
  repeat case_bool_decide; destruct (all_space s); split; try (by auto);
    split; intros; try done; try lia; try (left; lia); try (right; split; [lia|done]);
    destruct H1 as [?|[? ?]]; (done || lia).
Qed.

(** C1 (as amended): resolve_types reaches the backward signature test for a
    line [n] > 0 that is outside the header zone (the line above is not a
    header line and the raw text does not carry the protected-header
    marker), whose raw text does not begin with ESC [ 0 m and does not carry
    the attachment marker, and whose text is not the delimiter "-- ".  For
    such a line check_sig counts the consecutive Signature-typed lines
    immediately above it (walking upward, never looking at line 0); it
    answers 0 ("signature") exactly when that count is between one and
    four, whatever the text, or exceeds four and the text holds a byte that
    is not whitespace, and -1 otherwise: with no Signature-typed line
    immediately above, or when the count exceeds four and the line is
    entirely whitespace.  Whenever it answers 0, resolve_types returns and
    has typed the line Signature, leaving everything else as it was. *)
Theorem check_sig_long_run_needs_text cfg CQ CQU buf raw n last qc s l :
  (0 < n)%nat ->
  Classifier.line_info s !! n = Some l ->
  ISHEADER (type_at (Classifier.line_info s) (n - 1)) = false ->
  Normalizer.check_protected_header_marker cfg raw <> 0 ->
  take 4 raw <> [ch_ESC; 91; 48; 109] ->
  Normalizer.check_attachment_marker cfg raw <> 0 ->
  buf <> bytes "-- " ++ [ch_LF] ->
  buf <> bytes "-- " ++ [ch_CR; ch_LF] ->
  (check_sig buf (Classifier.line_info s) (n - 1) = 0
   \/ check_sig buf (Classifier.line_info s) (n - 1) = -1)
  /\ (check_sig buf (Classifier.line_info s) (n - 1) = 0 <->
        (1 <= sig_run (Classifier.line_info s) (n - 1) <= 4)%nat
        \/ ((4 < sig_run (Classifier.line_info s) (n - 1))%nat
            /\ all_space buf = false))
  /\ (check_sig buf (Classifier.line_info s) (n - 1) = 0 ->
      Classifier.resolve_types cfg CQ CQU buf raw n last qc s
      = Some (Classifier.set_line_info
                (<[n := set_type MT_COLOR_SIGNATURE l]> (Classifier.line_info s)) s)).
Proof.
  intros Hn0 Hl Hhdr Hprot Hreset Hatt Hd1 Hd2.
  destruct (check_sig_answers buf (Classifier.line_info s) (n - 1)) as [H1 H2].
  split; [done|]. split; [done|]. intros Hsig.
  unfold Classifier.resolve_types, Classifier.resolve_line_type.
  rewrite bool_decide_eq_false_2 by lia. rewrite Hhdr.
  rewrite (proj2 (Z.eqb_neq _ _) Hprot). cbn [orb].
  rewrite bool_decide_eq_false_2 by done.
  rewrite (proj2 (Z.eqb_neq _ _) Hatt).
  unfold str_eqb.
  rewrite (bool_decide_eq_false_2 (bytes "-- " ++ [ch_LF] = buf)) by congruence.
  rewrite (bool_decide_eq_false_2 (bytes "-- " ++ [ch_CR; ch_LF] = buf)) by congruence.
  cbn [orb]. rewrite Hsig. change (0 =? 0) with true. cbv iota.
  unfold Classifier.wr. rewrite Hl. cbn [mbind option_bind].
  assert (<[n := set_type MT_COLOR_SIGNATURE l]> (Classifier.line_info s) !! n
          = Some (set_type MT_COLOR_SIGNATURE l)) as Hn
    by (apply list_lookup_insert_eq; by eapply lookup_lt_Some).
  cbn [Classifier.line_info Classifier.set_line_info]. rewrite Hn.
  cbn [mbind option_bind type set_type].
  rewrite !bool_decide_eq_false_2 by done. cbn [orb andb].
  cbn [mbind option_bind Classifier.line_info Classifier.set_line_info].
  rewrite Hn. cbn [mbind option_bind type set_type].
  by rewrite bool_decide_eq_false_2 by done.
Qed.

End SigFacts.

Module SigExample.

Import Samples Classifier.

(** C1 (counterexample): a message whose body is the delimiter "-- "
    followed by six lines "a" .. "f" that are not blank.  Every one of the
    six is typed Signature; the sixth has five Signature-typed lines
    immediately above it, holds a byte that is not whitespace, and check_sig
    still answers 0 for it. *)
Lemma signature_runs_past_four_lines :
  let msg := [[ch_LF]; bytes "-- " ++ [ch_LF];
              bytes "a" ++ [ch_LF]; bytes "b" ++ [ch_LF]; bytes "c" ++ [ch_LF];
              bytes "d" ++ [ch_LF]; bytes "e" ++ [ch_LF]; bytes "f" ++ [ch_LF]] in
  exists s6 s7,
    classify_lines Format.plain_config (fun i => i) 3 false (take 7 msg) 0
                   (blank_state 9) = Some s6
    /\ classify_lines Format.plain_config (fun i => i) 3 false msg 0
                      (blank_state 9) = Some s7
    /\ (4 < Sig.sig_run (line_info s6) 6)%nat
    /\ Sig.all_space (bytes "f" ++ [ch_LF]) = false
    /\ Sig.check_sig (bytes "f" ++ [ch_LF]) (line_info s6) 6 = 0
    /\ map type (take 8 (line_info s7)) =
         [MT_COLOR_NORMAL; MT_COLOR_SIGNATURE; MT_COLOR_SIGNATURE;
          MT_COLOR_SIGNATURE; MT_COLOR_SIGNATURE; MT_COLOR_SIGNATURE;
          MT_COLOR_SIGNATURE; MT_COLOR_SIGNATURE].
Proof.
  eexists _, _. split; [vm_compute; reflexivity|].
  split; [vm_compute; reflexivity|].
  vm_compute. repeat split; lia.
Qed.

(** The witness of [check_sig_long_run_needs_text]: the line "a" right
    below the delimiter, which is typed Signature. *)
Lemma check_sig_long_run_needs_text_witness :
  let s := mkRState [typed_line MT_COLOR_NORMAL; typed_line MT_COLOR_SIGNATURE;
                     Pager.fresh_line; Pager.fresh_line]
                    Quote.empty_forest [] [] [] in
  let buf := bytes "a" ++ [ch_LF] in
  (Sig.check_sig buf (line_info s) (2 - 1) = 0
   \/ Sig.check_sig buf (line_info s) (2 - 1) = -1)
  /\ (Sig.check_sig buf (line_info s) (2 - 1) = 0 <->
        (1 <= Sig.sig_run (line_info s) (2 - 1) <= 4)%nat
        \/ ((4 < Sig.sig_run (line_info s) (2 - 1))%nat /\ Sig.all_space buf = false))
  /\ (Sig.check_sig buf (line_info s) (2 - 1) = 0 ->
      resolve_types Format.plain_config (fun i => i) 3 buf buf 2 3 true s
      = Some (set_line_info
                (<[2%nat := set_type MT_COLOR_SIGNATURE Pager.fresh_line]> (line_info s)) s)).
Proof.
  intros s buf.
  apply (SigFacts.check_sig_long_run_needs_text Format.plain_config (fun i => i) 3
           buf buf 2 3 true s Pager.fresh_line);
    vm_compute; (lia || congruence || done).
Defined.

End SigExample.

(** ** The quote test and the smiley exception *)

Module QuoteLineFacts.

Import Classifier.





End QuoteLineFacts.

Module QuoteLineExample.

Import Samples Classifier.



End QuoteLineExample.

(** ** Invalidation of the line store *)

Module InvalidateFacts.

Import Pager.

Lemma lookup_map_take_drop {A} (f : A -> A) (k : nat) (l : list A) (i : nat) (x : A) :
  l !! i = Some x ->
  (map f (take k l) ++ drop k l) !! i = Some (if bool_decide (i < k)%nat then f x else x).
Proof.
  intros Hx. case_bool_decide as Hi.
  - rewrite lookup_app_l.
    + rewrite list_lookup_fmap, lookup_take_lt by done. by rewrite Hx.
    + rewrite length_map, length_take. apply lookup_lt_Some in Hx. lia.
  - assert (Hk : (k <= length l)%nat) by (apply lookup_lt_Some in Hx; lia).
    rewrite lookup_app_r; rewrite length_map, length_take; [|lia].
    rewrite lookup_drop. rewrite <- Hx. f_equal. lia.
Qed.

(** C8 (as amended): the invalidation that precedes the compilation of a new
    search pattern clears only the search matches and the search count of
    the slots below last_line, and leaves every slot's byte offset, type,
    continuation flag, style chunks and quote class as they were; the
    invalidation of a reflow resets every slot below max_line altogether --
    type unclassified, no chunks, no continuation, search count -1, no
    quote class -- and sets its byte offset to 0. *)
Theorem invalidation_effect info last_line max_line sc i l :
  info !! i = Some l ->
  (exists l1,
      search_invalidate last_line info !! i = Some l1
      /\ offset l1 = offset l /\ type l1 = type l
      /\ continuation l1 = continuation l /\ chunks l1 = chunks l
      /\ syntax l1 = syntax l /\ quote l1 = quote l
      /\ ((i < last_line)%nat -> search l1 = None /\ search_cnt l1 = -1)
      /\ ((last_line <= i)%nat -> l1 = l))
  /\ (exists l2,
      reflow_invalidate sc max_line info !! i = Some l2
      /\ ((i < max_line)%nat ->
          offset l2 = 0 /\ type l2 = MT_UNCLASSIFIED /\ continuation l2 = 0
          /\ chunks l2 = 0 /\ search_cnt l2 = -1 /\ quote l2 = None
          /\ syntax l2 = take 1 (syntax l))
      /\ ((max_line <= i)%nat -> l2 = l)).
Proof.
  intros Hl. split.
  - unfold search_invalidate.
    rewrite (lookup_map_take_drop _ _ _ _ _ Hl).
    eexists. split; [done|]. case_bool_decide; simpl;
      repeat split; try done; intros; lia.
  - unfold reflow_invalidate.
    rewrite (lookup_map_take_drop _ _ _ _ _ Hl).
    eexists. split; [done|]. case_bool_decide; simpl;
      repeat split; try done; intros; lia.
Qed.

End InvalidateFacts.

Module InvalidateExample.

Import Pager Samples.

(** C8 (counterexample): three scanned lines at the byte offsets 0, 57 and 93;
    after the invalidation of a reflow the offsets of the second and third
    are 0, not the 57 and 93 known before. *)
Lemma reflow_forgets_offsets :
  let info := [scanned_line 0; scanned_line 57; scanned_line 93] in
  map offset info = [0; 57; 93]
  /\ map offset (reflow_invalidate false 3 info) = [0; 0; 0].
Proof. vm_compute. done. Qed.

Lemma invalidation_effect_witness :
  let info := [scanned_line 0; scanned_line 57; scanned_line 93] in
  (exists l1,
      search_invalidate 3 info !! 1%nat = Some l1
      /\ offset l1 = 57 /\ type l1 = MT_COLOR_NORMAL
      /\ continuation l1 = 0 /\ chunks l1 = 0
      /\ syntax l1 = [mkSyntax 0 (-1) (-1)] /\ quote l1 = None
      /\ ((1 < 3)%nat -> search l1 = None /\ search_cnt l1 = -1)
      /\ ((3 <= 1)%nat -> l1 = scanned_line 57))
  /\ (exists l2,
      reflow_invalidate false 3 info !! 1%nat = Some l2
      /\ ((1 < 3)%nat ->
          offset l2 = 0 /\ type l2 = MT_UNCLASSIFIED /\ continuation l2 = 0
          /\ chunks l2 = 0 /\ search_cnt l2 = -1 /\ quote l2 = None
          /\ syntax l2 = take 1 [mkSyntax 0 (-1) (-1)])
      /\ ((3 <= 1)%nat -> l2 = scanned_line 57)).
Proof.
  exact (InvalidateFacts.invalidation_effect
           [scanned_line 0; scanned_line 57; scanned_line 93] 3 3 false 1
           (scanned_line 57) eq_refl).
Defined.

End InvalidateExample.

(** ** The escape normalizer *)

Module NormalizerFacts.

Import Normalizer.

Lemma no_sequences_tail cfg c p :
  no_sequences cfg (c :: p) -> no_sequences cfg p.
Proof. intros H i. apply (H (S i)). Qed.

Lemma fmt_loop_plain cfg p :
  forall fuel at_start qrev,
    (length p < fuel)%nat ->
    Forall (fun b => b <> 0 /\ b <> ch_BS) p ->
    no_sequences cfg p ->
    fmt_loop cfg fuel at_start p qrev = rev qrev ++ p.
Proof.
  induction p as [|c p IH]; intros fuel at_start qrev Hfuel Hall Hseq.
  - destruct fuel; simpl; by rewrite app_nil_r.
  - destruct fuel as [|fuel]; [simpl in Hfuel; lia|].
    apply Forall_cons_1 in Hall as [[Hc0 Hc8] Hall].
    pose proof (Hseq O) as [Ha Hm]. rewrite drop_0 in Ha, Hm.
    cbn [fmt_loop]. rewrite Ha, Hm.
    rewrite (proj2 (Z.eqb_neq c 0) Hc0), (proj2 (Z.eqb_neq c ch_BS) Hc8).
    cbn [andb].
    rewrite IH; [|simpl in Hfuel; lia|done|by eapply no_sequences_tail].
    simpl. by rewrite <- app_assoc.
Qed.

Lemma no_escape_no_sequences cfg raw :
  Forall (fun b => b <> ch_ESC) raw -> no_sequences cfg raw.
Proof.
  intros Hall i.
  assert (Hd : Forall (fun b => b <> ch_ESC) (drop i raw)) by by apply Forall_drop.
  destruct (drop i raw) as [|c0 [|c1 r]]; try done.
  apply Forall_cons_1 in Hd as [Hc _].
  unfold ansi_at, marker_at. rewrite (proj2 (Z.eqb_neq c0 ch_ESC) Hc). done.
Qed.

Lemma fill_buffer_plain cfg raw :
  Forall (fun b => b <> 0 /\ b <> ch_BS) raw ->
  no_sequences cfg raw ->
  fill_buffer_fmt cfg raw = raw.
Proof.
  intros. unfold fill_buffer_fmt. rewrite fmt_loop_plain; [done|lia|done|done].
Qed.

Lemma fill_buffer_overstrike cfg X :
  32 <= X <= 126 -> fill_buffer_fmt cfg [X; ch_BS; X] = [X].
Proof.
  intros HX. unfold fill_buffer_fmt. cbn [length fmt_loop peek drop].
  assert (E0 : (X =? 0) = false) by lia.
  assert (E8 : (X =? ch_BS) = false) by (unfold ch_BS; lia).
  assert (Ea : ansi_at [X; ch_BS; X] = false).
  { unfold ansi_at, ch_ESC. assert ((X =? 27) = false) as -> by lia. done. }
  assert (Em : marker_at cfg [X; ch_BS; X] = false).
  { unfold marker_at, ch_ESC. assert ((X =? 27) = false) as -> by lia. done. }
  rewrite E0, E8, Ea, Em.
  change (ch_BS =? 0) with false. change (ch_BS =? ch_BS) with true.
  cbn [andb negb].
  destruct (Z.eqb_spec X 95) as [->|Hne]; [reflexivity|].
  cbn [negb andb]. rewrite bool_decide_eq_false_2 by done. reflexivity.
Qed.

End NormalizerFacts.

(** ** The line formatter *)

Module FormatFacts.

Import Format.

Section Overstrike.
Variable cfg : Config.
Variable loc : Locale.

Lemma skip_ansi_plain fuel buf cnt ch pa :
  (byte_at buf ch =? ch_ESC) = false ->
  skip_ansi cfg fuel buf cnt ch pa = (ch, pa).
Proof. destruct fuel; simpl; [done|]. intros ->. by rewrite andb_false_r. Qed.

Lemma skip_markers_plain fuel buf cnt ch :
  (byte_at buf ch =? ch_ESC) = false ->
  skip_markers cfg fuel buf cnt ch = ch.
Proof. destruct fuel; simpl; [done|]. intros ->. by rewrite andb_false_r. Qed.

Lemma format_loop_unfold fuel buf cnt cf wc (s : FState loc) :
  format_loop cfg loc (S fuel) buf cnt cf wc s =
    if bool_decide (f_ch s < cnt)%nat then
      match format_body cfg loc buf cnt cf wc s with
      | Stop s' => s'
      | Next s' k =>
          format_loop cfg loc fuel buf cnt cf wc
            (mkFState loc (f_ch s' + k) (f_vch s' + k) (f_col s') (f_space s')
                      (f_special s') (f_last_special s') (f_mbstate s')
                      (f_pa s') (f_out s'))
      end
    else s.
Proof. reflexivity. Qed.

Lemma backspaces_unfold fuel buf cnt ch k wc special st st1 r1 :
  backspaces loc (S fuel) buf cnt ch k wc special st st1 r1 =
      match r1 with
      | MbChar wc1 k1 =>
          if bool_decide (0 < k1)%nat && (wc1 =? ch_BS) then
            let '(r2, st2) := mbrtowc loc (window buf (ch + k + k1) cnt) st1 in
            match r2 with
            | MbChar wc2 k2 =>
                if bool_decide (k2 = O) || negb (IsWPrint loc wc2)
                then (ch, k, wc, special, st)
                else
                  let special' :=
                    if wc =? wc2 then
                      Z.lor special
                        (if (wc =? 95) && negb (Z.land special (A_UNDERLINE loc) =? 0)
                         then A_UNDERLINE loc else A_BOLD loc)
                    else if (wc =? 95) || (wc2 =? 95) then
                      Z.lor special (A_UNDERLINE loc)
                    else special in
                  let wc' :=
                    if wc =? wc2 then wc
                    else if (wc =? 95) || (wc2 =? 95) then
                      (if wc2 =? 95 then wc else wc2)
                    else wc2 in
                  let ch' := (ch + (k + k1))%nat in
                  let '(r3, st3) := mbrtowc loc (window buf (ch' + k2) cnt) st2 in
                  backspaces loc fuel buf cnt ch' k2 wc' special' st2 st3 r3
            | _ => (ch, k, wc, special, st)
            end
          else (ch, k, wc, special, st)
      | _ => (ch, k, wc, special, st)
      end.
Proof. reflexivity. Qed.

Lemma backspaces_incomplete fuel buf cnt ch k wc special st st1 :
  backspaces loc fuel buf cnt ch k wc special st st1 MbIncomplete =
    (ch, k, wc, special, st).
Proof. by destruct fuel. Qed.

Hypothesis Hdec : forall b r st, 0 < b < 128 -> mbrtowc loc (b :: r) st = (MbChar b 1, st).
Hypothesis Hend : forall st, (mbrtowc loc [] st).1 = MbIncomplete.

Lemma format_overstrike X a cont wrap cols color_flags :
  32 <= X <= 126 -> IsWPrint loc X = true ->
  mutt_mb_is_display_corrupting_utf8 loc X = false -> wcwidth loc X = 1 ->
  (if C_Markers cfg then cont else 0) + 1 <= wrap ->
  (if C_Markers cfg then cont else 0) + 1 <= cols ->
  let r := format_line cfg loc cont [X; ch_BS; X] color_flags (Some a) 3 wrap cols in
  f_ch r = 3%nat /\ f_vch r = 1%nat
  /\ f_col r = (if C_Markers cfg then cont else 0) + 1
  /\ f_special r = A_BOLD loc
  /\ f_out r = [DrawColor 0 (A_BOLD loc) a; DrawWch X].
Proof.
  intros HX Hp Hc Hw Hwrap Hcols.
  unfold format_line.
  set (col0 := if C_Markers cfg then cont else 0) in *.
  set (wc := if _ =? 0 then cols else wrap).
  assert (Hwc : col0 + 1 <= wc) by (unfold wc; destruct (_ =? 0); lia).
  clearbody wc col0.
  assert (Hbody : exists pa' sp',
    format_body cfg loc [X; ch_BS; X] 3 color_flags wc
      (mkFState loc 0 0 col0 (-1) 0 (-1) (mbstate_zero loc) (Some a) []) =
    Next (mkFState loc 2 0 (col0 + 1) sp' (A_BOLD loc) (A_BOLD loc)
                   (mbstate_zero loc) pa' [DrawColor 0 (A_BOLD loc) a; DrawWch X]) 1).
  { unfold format_body. cbn [f_ch f_pa].
    assert (E27 : (byte_at [X; ch_BS; X] 0 =? ch_ESC) = false)
      by (unfold ch_ESC, byte_at; simpl; lia).
    rewrite skip_ansi_plain, skip_markers_plain by done.
    rewrite bool_decide_eq_false_2 by lia.
    unfold window. cbn [drop take Nat.sub f_mbstate Nat.add].
    rewrite Hdec by lia.
    rewrite bool_decide_eq_false_2 by lia.
    assert (Efilt : CharsetIsUtf8 loc && ((X =? 8203) || (X =? 65279)
               || mutt_mb_is_display_corrupting_utf8 loc X) = false).
    { rewrite Hc. assert ((X =? 8203) = false) as -> by lia.
      assert ((X =? 65279) = false) as -> by lia. by rewrite andb_false_r. }
    rewrite Efilt, Hp.
    cbn [take drop Nat.sub Nat.add length].
    rewrite (Hdec ch_BS) by (unfold ch_BS; lia).
    rewrite backspaces_unfold. unfold window.
    cbn [take drop Nat.sub Nat.add length].
    rewrite bool_decide_eq_true_2 by lia. change (ch_BS =? ch_BS) with true.
    cbn [andb]. rewrite Hdec by lia.
    rewrite bool_decide_eq_false_2 by lia. rewrite Hp. cbn [negb orb].
    rewrite Z.eqb_refl. cbn [take drop Nat.sub].
    pose proof (Hend (mbstate_zero loc)) as He.
    destruct (mbrtowc loc [] (mbstate_zero loc)) as [r3 st3]. simpl in He. subst r3.
    rewrite backspaces_incomplete.
    rewrite Z.land_0_l. cbn [Z.eqb negb]. rewrite andb_false_r. rewrite Z.lor_0_l.
    cbn [f_col f_vch f_space f_last_special f_out f_special].
    rewrite Hp. cbn [orb]. rewrite Hw.
    assert ((col0 + 1 >? wc) = false) as -> by lia.
    assert ((X =? ch_SPACE) = false \/ (X =? ch_SPACE) = true) as [->| ->]
      by (destruct (X =? ch_SPACE); auto).
    all: change (-1 =? 0) with false; cbn [negb]; rewrite orb_true_r; cbn [orb];
      eexists _, _; reflexivity.
  }
  destruct Hbody as (pa' & sp' & Hbody).
  rewrite format_loop_unfold. cbn [f_ch]. rewrite bool_decide_eq_true_2 by lia.
  rewrite Hbody. cbn [f_ch f_vch f_col f_space f_special f_last_special f_mbstate f_pa f_out Nat.add].
  rewrite format_loop_unfold. cbn [f_ch]. rewrite bool_decide_eq_false_2 by lia.
  cbn. done.
Qed.
End Overstrike.

Section Replacement.
Variable cfg : Config.
Variable loc : Locale.

Lemma backspaces_not_bs fuel buf cnt ch k wc special st st1 r1 :
  (forall wc1 k1, r1 = MbChar wc1 k1 -> wc1 <> ch_BS) ->
  backspaces loc fuel buf cnt ch k wc special st st1 r1 = (ch, k, wc, special, st).
Proof.
  intros H. destruct fuel; [done|]. rewrite backspaces_unfold.
  destruct r1 as [wc1 k1| | |]; try done.
  rewrite (proj2 (Z.eqb_neq wc1 ch_BS)) by (by eapply H). by rewrite andb_false_r.
Qed.

(** What the last branch of the loop body does with a character from
    U+0100 on that is neither printable nor filtered: it stops when
    [col + 1] exceeds the wrap width, and otherwise draws one replacement
    glyph and adds the byte length [k] of the character to [col]. *)
Lemma format_body_replacement buf cnt cf wrap_cols (s : FState loc) wc k st' :
  (f_ch s < cnt)%nat ->
  (byte_at buf (f_ch s) =? ch_ESC) = false ->
  mbrtowc loc (window buf (f_ch s) cnt) (f_mbstate s) = (MbChar wc k, st') ->
  (0 < k)%nat -> 256 <= wc ->
  IsWPrint loc wc = false ->
  CharsetIsUtf8 loc && ((wc =? 8203) || (wc =? 65279)
     || mutt_mb_is_display_corrupting_utf8 loc wc || (wc =? 8239)) = false ->
  exists pa' out' ls',
    format_body cfg loc buf cnt cf wrap_cols s =
      if f_col s + 1 >? wrap_cols
      then Stop (mkFState loc (f_ch s) (f_vch s) (f_col s) (f_space s) 0 ls' st' pa' out')
      else Next (mkFState loc (f_ch s) (f_vch s) (f_col s + Z.of_nat k) (f_space s)
                          0 ls' st' pa' (emit pa' DrawReplacement out')) k.
Proof.
  intros Hch Hesc Hmb Hk Hwc Hnp Hfilt.
  unfold format_body.
  rewrite skip_ansi_plain, skip_markers_plain by done.
  rewrite bool_decide_eq_false_2 by lia. rewrite Hmb.
  rewrite bool_decide_eq_false_2 by lia.
  assert (E1 : CharsetIsUtf8 loc && ((wc =? 8203) || (wc =? 65279)
              || mutt_mb_is_display_corrupting_utf8 loc wc) = false).
  { destruct (CharsetIsUtf8 loc); [|done]. simpl in *.
    apply orb_false_iff in Hfilt as [-> _]. done. }
  assert (E2 : CharsetIsUtf8 loc && ((wc =? 160) || (wc =? 8239)) = false).
  { destruct (CharsetIsUtf8 loc); [|done]. simpl in *.
    apply orb_false_iff in Hfilt as [_ ->]. assert ((wc =? 160) = false) as -> by lia. done. }
  rewrite E1, Hnp. cbv beta iota zeta. rewrite Hnp, E2. cbn [orb].
  assert ((wc =? ch_LF) = false) as -> by (unfold ch_LF; lia).
  assert ((wc =? ch_TAB) = false) as -> by (unfold ch_TAB; lia).
  assert ((wc <? 32) = false) as -> by lia.
  assert ((wc =? 127) = false) as -> by lia.
  assert ((wc <? 256) = false) as -> by lia.
  cbn [orb]. destruct (f_col s + 1 >? wrap_cols); eexists _, _, _; reflexivity.
Qed.

End Replacement.

(** C10: on a raw line without NUL or backspace bytes in which no ANSI
    sequence and no marker sequence starts, the clean text that fill_buffer
    produces is the raw line, byte for byte; and on a printable byte X, a
    backspace and X again the clean text is the single byte X, and
    format_line draws the one cell X with the bold attribute, at offset 0 of
    the clean text.  The locale is any whose decoder reads an ASCII byte as
    one character and reports an empty input as incomplete. *)
Theorem normalizer_round_trip cfg loc :
  (forall b r st, 0 < b < 128 -> mbrtowc loc (b :: r) st = (MbChar b 1, st)) ->
  (forall st, (mbrtowc loc [] st).1 = MbIncomplete) ->
  (forall raw,
      Forall (fun b => b <> 0 /\ b <> ch_BS) raw ->
      Normalizer.no_sequences cfg raw ->
      Normalizer.fill_buffer_fmt cfg raw = raw)
  /\ (forall X a cont wrap cols color_flags,
      32 <= X <= 126 -> IsWPrint loc X = true ->
      mutt_mb_is_display_corrupting_utf8 loc X = false -> wcwidth loc X = 1 ->
      (if C_Markers cfg then cont else 0) + 1 <= wrap ->
      (if C_Markers cfg then cont else 0) + 1 <= cols ->
      Normalizer.fill_buffer_fmt cfg [X; ch_BS; X] = [X]
      /\ let r := format_line cfg loc cont [X; ch_BS; X] color_flags (Some a) 3
                    wrap cols in
         f_ch r = 3%nat /\ f_vch r = 1%nat
         /\ f_col r = (if C_Markers cfg then cont else 0) + 1
         /\ f_special r = A_BOLD loc
         /\ f_out r = [DrawColor 0 (A_BOLD loc) a; DrawWch X]).
Proof.
  intros Hdec Hend. split.
  - intros raw. apply NormalizerFacts.fill_buffer_plain.
  - intros X a cont wrap cols cf HX Hp Hc Hw H1 H2. split.
    + by apply NormalizerFacts.fill_buffer_overstrike.
    + by apply format_overstrike.
Qed.

End FormatFacts.

Module FormatExample.

Import Format.

Lemma utf8_ascii b r st :
  0 < b < 128 -> utf8_mbrtowc (b :: r) st = (MbChar b 1, st).
Proof.
  intros Hb. unfold utf8_mbrtowc.
  assert ((b =? 0) = false) as -> by lia.
  assert ((b <? 128) = true) as -> by lia. done.
Qed.

(** The witness of [normalizer_round_trip]: the line "hello" and the
    overstruck "X\bX" in the UTF-8 locale. *)
Lemma normalizer_round_trip_witness :
  Normalizer.fill_buffer_fmt plain_config (bytes "hello" ++ [ch_LF])
    = bytes "hello" ++ [ch_LF]
  /\ Normalizer.fill_buffer_fmt plain_config [88; ch_BS; 88] = [88]
  /\ let r := format_line plain_config utf8_locale 0 [88; ch_BS; 88] false
                (Some (mkAnsiAttr 0 0 0 (-1))) 3 80 80 in
     f_ch r = 3%nat /\ f_vch r = 1%nat /\ f_col r = 0 + 1
     /\ f_special r = A_BOLD utf8_locale
     /\ f_out r = [DrawColor 0 (A_BOLD utf8_locale) (mkAnsiAttr 0 0 0 (-1)); DrawWch 88].
Proof.
  destruct (FormatFacts.normalizer_round_trip plain_config utf8_locale)
    as [Hplain Hover].
  - intros b r st Hb. by apply utf8_ascii.
  - intros []. reflexivity.
  - split.
    + apply Hplain.
      * apply (bool_decide_unpack _). vm_compute. exact I.
      * apply NormalizerFacts.no_escape_no_sequences.
        apply (bool_decide_unpack _). vm_compute. exact I.
    + apply (Hover 88 (mkAnsiAttr 0 0 0 (-1)) 0 80 80 false);
        first [lia | vm_compute; done].
Defined.

(** C6 (the code at the failing input): the two bytes CD B8 are the UTF-8
    form of U+0378, which is not printable and is not filtered.  format_line
    draws one replacement glyph for it and consumes its two bytes, but the
    column counter ends at 2, not at 1: the branch guards with [col + 1] and
    then adds the byte length [k] to [col]. *)
Theorem replacement_glyph_advances_by_byte_length :
  let r := format_line plain_config utf8_locale 0 [205; 184] false
             (Some (mkAnsiAttr 0 0 0 (-1))) 2 80 80 in
  utf8_mbrtowc [205; 184] tt = (MbChar 888 2, tt)
  /\ utf8_IsWPrint 888 = false
  /\ f_out r = [DrawColor 0 0 (mkAnsiAttr 0 0 0 (-1)); DrawReplacement]
  /\ f_ch r = 2%nat
  /\ f_col r = 2.
Proof. vm_compute. repeat split. Qed.

End FormatExample.

(** ** The highlight passes *)

Module CapFacts.

Import Samples Classifier.

Lemma mask_newline_line_of_a n : mask_newline (line_of_a n) = replicate n 97.
Proof.
  unfold mask_newline, line_of_a. rewrite reverse_app. simpl.
  by rewrite reverse_involutive.
Qed.

Lemma match_a n k :
  (k < n)%nat ->
  re_lit [97] (drop (Z.to_nat (Z.of_nat k)) (replicate n 97)) (negb (Z.of_nat k =? 0))
    = Some (0, 1).
Proof.
  intros Hk. rewrite Nat2Z.id, drop_replicate.
  destruct (n - k)%nat as [|m] eqn:E; [lia|]. reflexivity.
Qed.

Lemma peek_a n k :
  peek (drop (Z.to_nat (Z.of_nat k)) (replicate n 97)) =
    if bool_decide (k < n)%nat then 97 else 0.
Proof.
  rewrite Nat2Z.id, drop_replicate. case_bool_decide.
  - destruct (n - k)%nat as [|m] eqn:E; [lia|]. reflexivity.
  - replace (n - k)%nat with O by lia. reflexivity.
Qed.

Lemma to_short_small z : -32768 <= z <= 32767 -> to_short z = z.
Proof. intros. unfold to_short. rewrite Z.mod_small; lia. Qed.

(** One more chunk, below the cap: both passes record it alike. *)
Lemma record_next k l i :
  chunked k l i -> Z.of_nat k < 32767 ->
  exists l',
    record_match (mkPass (grow_chunks l) i false false) 7 (0 + Z.of_nat k) (1 + Z.of_nat k)
      = Some (mkPass l' (Z.of_nat k) true false)
    /\ chunked (S k) l' (Z.of_nat k).
Proof.
  intros (Hc & Hlen & Hi & Hlast) Hk.
  unfold grow_chunks. cbn [chunks set_chunks].
  rewrite Hc, to_short_small by lia.
  unfold record_match. cbn [p_line p_found negb orb].
  destruct (Z.gtb_spec (Z.of_nat k + 1) 1) as [Hgt|Hle].
  - cbn [realloc_syntax set_syntax chunks syntax].
    replace (Z.of_nat k + 1 - 1) with (Z.of_nat k) by lia.
    unfold rd_syntax, wr_syntax. cbn [syntax set_syntax].
    replace (Z.to_nat (Z.of_nat k + 1)) with (S k) by lia.
    cbn [chunks set_chunks realloc_syntax set_syntax syntax].
    replace (Z.of_nat k + 1 - 1) with (Z.of_nat k) by lia.
    rewrite Nat2Z.id.
    assert (Hl : length (resize (S k) (mkSyntax 0 0 0) (syntax l)) = S k)
      by apply length_resize.
    destruct (lookup_lt_is_Some_2 (resize (S k) (mkSyntax 0 0 0) (syntax l)) k) as [x Hx];
      [rewrite Hl; lia|].
    assert ((0 <=? Z.of_nat k) = true) as -> by lia.
    rewrite Hx. cbn [mbind option_bind]. rewrite Hl.
    assert ((Z.of_nat k <? Z.of_nat (S k)) = true) as -> by (apply Z.ltb_lt; lia).
    cbn [andb mbind option_bind]. eexists. split; [reflexivity|].
    repeat split; cbn [chunks syntax set_syntax realloc_syntax set_chunks].
    + lia.
    + rewrite length_insert, Hl. lia.
    + lia.
    + intros _. eexists _, _. replace (S k - 1)%nat with k by lia.
      rewrite list_lookup_insert_eq by lia. f_equal. f_equal. lia.
  - assert (k = O) as -> by lia. cbn [Z.of_nat Z.add Z.sub].
    unfold rd_syntax, wr_syntax. cbn [Z.leb Z.to_nat syntax set_chunks Z.compare].
    destruct (syntax l) as [|x [|y r]] eqn:Es; simpl in Hlen; try lia.
    cbn. eexists. split; [reflexivity|].
    repeat split; cbn; try lia. intros _. eexists _, _. reflexivity.
Qed.

(** At the cap the body/header pass leaves the walk; the attachment pass,
    which has no such test, stores 32768 into the [short] counter and
    writes the chunk at index -32769. *)
Lemma body_rules_at_cap r rules text off l i nr so eo :
  chunks l = SHRT_MAX -> stop_matching r = false ->
  cl_regex r (drop (Z.to_nat off) text) (negb (off =? 0)) = Some (so, eo) ->
  eo <> so ->
  body_rules (r :: rules) text off (mkPass l i false nr)
    = Some (r :: rules, mkPass l i false false).
Proof.
  intros Hc Hs Hm Hne. cbn [body_rules]. rewrite Hs, Hm.
  rewrite (proj2 (Z.eqb_neq eo so) Hne). cbn [negb p_found p_line andb].
  rewrite Hc. reflexivity.
Qed.

Lemma attach_rules_at_cap r rules text off l i nr so eo :
  chunks l = SHRT_MAX ->
  cl_regex r (drop (Z.to_nat off) text) (negb (off =? 0)) = Some (so, eo) ->
  eo <> so ->
  attach_rules (r :: rules) text off (mkPass l i false nr) = None.
Proof.
  intros Hc Hm Hne. cbn [attach_rules]. rewrite Hm.
  rewrite (proj2 (Z.eqb_neq eo so) Hne). cbn [negb p_found p_line].
  unfold grow_chunks, record_match. cbn [chunks set_chunks p_line].
  rewrite Hc. reflexivity.
Qed.

Lemma attach_loop_a n : forall m k fuel l i,
  (k + m = n)%nat -> (m < fuel)%nat -> chunked k l i -> Z.of_nat k <= 32767 ->
  (Z.of_nat n <= 32767 ->
     exists l', attach_loop fuel rule_a (replicate n 97) (Z.of_nat k) l i = Some l'
                /\ chunks l' = Z.of_nat n)
  /\ (32767 < Z.of_nat n ->
     attach_loop fuel rule_a (replicate n 97) (Z.of_nat k) l i = None).
Proof.
  induction m as [|m IH]; intros k fuel l i Hkm Hf Hch Hk.
  - destruct fuel as [|fuel]; [lia|]. cbn [attach_loop].
    rewrite peek_a, bool_decide_eq_false_2 by lia. cbn.
    split; [|lia]. intros _. eexists. split; [done|]. destruct Hch as [-> _]. f_equal. lia.
  - destruct fuel as [|fuel]; [lia|]. cbn [attach_loop].
    rewrite peek_a, bool_decide_eq_true_2 by lia. cbn [Z.eqb].
    destruct (Z.eq_dec (Z.of_nat k) 32767) as [Hcap|Hlow].
    + split; [lia|]. intros _. unfold rule_a.
      rewrite (attach_rules_at_cap _ _ _ _ _ _ _ 0 1); [done| |by apply match_a; lia|done].
      destruct Hch as [-> _]. done.
    + unfold rule_a. cbn [attach_rules cl_regex pair]. rewrite match_a by lia.
      cbn [Z.eqb negb p_found p_line p_i p_null_rx].
      destruct (record_next k l i Hch) as (l' & -> & Hch'); [lia|].
      cbn [mbind option_bind next_offset p_null_rx p_line p_i p_found orb].
      destruct Hch' as (Hc' & Hlen' & Hi' & Hlast').
      destruct Hlast' as (c & f & Hlk); [lia|].
      unfold rd_syntax. assert ((0 <=? Z.of_nat k) = true) as -> by lia.
      rewrite Nat2Z.id. replace (S k - 1)%nat with k in Hlk by lia. rewrite Hlk.
      cbn [mbind option_bind last].
      apply (IH (S k) fuel l' (Z.of_nat k)); [lia|lia| |lia].
      repeat split; try done. intros _. eexists _, _.
      replace (S k - 1)%nat with k by lia. done.
Qed.

Lemma body_loop_a n : forall m k fuel l i,
  (k + m = n)%nat -> (m < fuel)%nat -> chunked k l i -> Z.of_nat k <= 32767 ->
  exists l', body_loop fuel rule_a (replicate n 97) (Z.of_nat k) l i = Some (rule_a, l')
             /\ chunks l' = Z.min (Z.of_nat n) 32767.
Proof.
  induction m as [|m IH]; intros k fuel l i Hkm Hf Hch Hk.
  - destruct fuel as [|fuel]; [lia|]. cbn [body_loop].
    rewrite peek_a, bool_decide_eq_false_2 by lia. cbn.
    eexists. split; [done|]. destruct Hch as [-> _]. lia.
  - destruct fuel as [|fuel]; [lia|]. cbn [body_loop].
    rewrite peek_a, bool_decide_eq_true_2 by lia. cbn [Z.eqb].
    destruct (Z.eq_dec (Z.of_nat k) 32767) as [Hcap|Hlow].
    + unfold rule_a.
      rewrite (body_rules_at_cap _ _ _ _ _ _ _ 0 1);
        [|by destruct Hch as [-> _]|done|by apply match_a; lia|done].
      cbn [mbind option_bind next_offset p_null_rx p_line p_i p_found orb].
      destruct Hch as (Hc & Hlen & -> & Hlast).
      destruct Hlast as (c & f & Hlk); [lia|].
      unfold rd_syntax. assert ((0 <=? Z.of_nat (k - 1)) = true) as -> by (apply Z.leb_le; lia).
      rewrite Nat2Z.id, Hlk. cbn. eexists. split; [done|]. lia.
    + unfold rule_a. cbn [body_rules cl_regex pair stop_matching].
      rewrite match_a by lia.
      cbn [Z.eqb negb p_found p_line p_i p_null_rx andb].
      destruct Hch as (Hc & Hrest). rewrite Hc.
      assert ((Z.of_nat k =? SHRT_MAX) = false) as -> by (unfold SHRT_MAX; lia).
      destruct (record_next k l i (conj Hc Hrest)) as (l' & -> & Hch'); [lia|].
      cbn [mbind option_bind next_offset p_null_rx p_line p_i p_found orb fst snd].
      destruct Hch' as (Hc' & Hlen' & Hi' & Hlast').
      destruct Hlast' as (c & f & Hlk); [lia|].
      unfold rd_syntax. assert ((0 <=? Z.of_nat k) = true) as -> by lia.
      rewrite Nat2Z.id. replace (S k - 1)%nat with k in Hlk by lia. rewrite Hlk.
      cbn [mbind option_bind last].
      apply (IH (S k) fuel l' (Z.of_nat k)); [lia|lia| |lia].
      repeat split; try done. intros _. eexists _, _.
      replace (S k - 1)%nat with k by lia. done.
Qed.

Lemma chunked_fresh : chunked 0 (set_chunks 0 Pager.fresh_line) 0.
Proof. repeat split. intros H. inversion H. Qed.

(** C5 (the code on the failing inputs): on a line of [n] letters "a" and
    the one rule that colours an "a", the body pass records min(n, SHRT_MAX)
    chunks and ends normally for every [n]; the attachment pass records [n]
    chunks as long as [n] is at most SHRT_MAX, and for a longer line it does
    not end normally: it increments the [short] counter past SHRT_MAX and
    writes a chunk outside the array. *)
Theorem attachment_pass_has_no_chunk_cap (n : nat) :
  (exists rules' l',
      body_pass rule_a (line_of_a n) Pager.fresh_line = Some (rules', l')
      /\ chunks l' = Z.min (Z.of_nat n) SHRT_MAX)
  /\ (Z.of_nat n <= SHRT_MAX ->
       exists l', attach_pass rule_a (line_of_a n) Pager.fresh_line = Some l'
                  /\ chunks l' = Z.of_nat n)
  /\ (SHRT_MAX < Z.of_nat n ->
       attach_pass rule_a (line_of_a n) Pager.fresh_line = None).
Proof.
  unfold body_pass, attach_pass, SHRT_MAX. rewrite mask_newline_line_of_a.
  rewrite length_replicate.
  pose proof (attach_loop_a n n 0 (S n) _ _ eq_refl (Nat.lt_succ_diag_r n) chunked_fresh)
    as [Hok Hbad]; [simpl; lia|].
  destruct (body_loop_a n n 0 (S n) _ _ eq_refl (Nat.lt_succ_diag_r n) chunked_fresh)
    as (l' & Hb & Hc); [simpl; lia|].
  split; [|split].
  - exists rule_a, l'. split; [exact Hb|exact Hc].
  - exact Hok.
  - exact Hbad.
Qed.

End CapFacts.

Module HighlightExample.

Import Samples Classifier.

(** C4 (the code at the failing input): the line "abcd" under the rules
    [cd] and [b*].  At offset 0 the first rule gives the match (2, 4), which
    is kept, and the second an empty match, which sets null_rx again after
    the first had cleared it: the offset advances by one byte, to 1, not to
    the end 4 of the kept match.  The pass ends with the three chunks
    (2, 4), (1, 2), (2, 4): not ordered by start, and overlapping. *)
Theorem empty_match_after_match_steps_one_byte :
  (exists rules1 p,
      body_rules rules_cd_bstar (bytes "abcd") 0
                 (mkPass (set_chunks 0 Pager.fresh_line) 0 false false)
        = Some (rules1, p)
      /\ p_found p = true /\ p_null_rx p = true
      /\ syntax (p_line p) = [mkSyntax 1 2 4]
      /\ next_offset p 0 = Some 1)
  /\ (exists rules' l,
      body_pass rules_cd_bstar (bytes "abcd" ++ [ch_LF]) Pager.fresh_line
        = Some (rules', l)
      /\ chunks l = 3
      /\ syntax l = [mkSyntax 1 2 4; mkSyntax 2 1 2; mkSyntax 1 2 4]).
Proof.
  split.
  - eexists _, _. split; [vm_compute; reflexivity|]. vm_compute. repeat split.
  - eexists _, _. split; [vm_compute; reflexivity|]. vm_compute. repeat split.
Qed.

End HighlightExample.


(** ** The reflow: what a scanning call of display_line leaves alone *)

Module LayoutFacts.

Import Classifier Pager.

Lemma keeps_refl P info : keeps P info info.
Proof. intros m l _ H. eauto. Qed.

Lemma keeps_trans P info1 info2 info3 :
  keeps P info1 info2 -> keeps P info2 info3 -> keeps P info1 info3.
Proof.
  intros H1 H2 m l HP Hl. destruct (H1 m l HP Hl) as (l2 & Hl2 & E2).
  destruct (H2 m l2 HP Hl2) as (l3 & Hl3 & E3). exists l3. split; [done|congruence].
Qed.

Lemma keeps_weaken (P Q : nat -> Prop) info info' :
  (forall m, Q m -> P m) -> keeps P info info' -> keeps Q info info'.
Proof. intros HPQ H m l HQ. apply H. auto. Qed.

Lemma keeps_insert P info n (l0 l' : Line) :
  info !! n = Some l0 -> continuation l' = continuation l0 ->
  keeps P info (<[n := l']> info).
Proof.
  intros Hn Hc m l _ Hl. destruct (decide (m = n)) as [->|Hne].
  - exists l'. rewrite list_lookup_insert_eq by (by eapply lookup_lt_Some).
    split; [done|]. congruence.
  - exists l. by rewrite list_lookup_insert_ne.
Qed.

Lemma keeps_insert_other (P : nat -> Prop) info n (l' : Line) :
  ~ P n -> keeps P info (<[n := l']> info).
Proof.
  intros HnP m l HP Hl. exists l. rewrite list_lookup_insert_ne; [done|].
  intros ->. done.
Qed.

Lemma keeps_wr P info n f info' :
  (forall l, continuation (f l) = continuation l) ->
  wr info n f = Some info' -> keeps P info info'.
Proof.
  intros Hf. unfold wr. destruct (info !! n) as [l0|] eqn:Hn; [|done].
  simpl. intros [= <-]. by eapply keeps_insert.
Qed.

Lemma keeps_app P info ext : keeps P info (info ++ ext).
Proof.
  intros m l _ Hl. exists l. split; [|done]. by apply lookup_app_l_Some.
Qed.

Lemma wr_syntax_continuation l i v l' :
  wr_syntax l i v = Some l' -> continuation l' = continuation l.
Proof. unfold wr_syntax. case_match; [|done]. by intros [= <-]. Qed.

Lemma set_color0_continuation c l l' :
  set_color0 c l = Some l' -> continuation l' = continuation l.
Proof.
  unfold set_color0. destruct (rd_syntax l 0); [|done]. simpl.
  apply wr_syntax_continuation.
Qed.

Lemma grow_chunks_continuation l : continuation (grow_chunks l) = continuation l.
Proof. unfold grow_chunks. by case_match. Qed.

Lemma record_match_continuation p c so eo p' :
  record_match p c so eo = Some p' ->
  continuation (p_line p') = continuation (p_line p).
Proof.
  unfold record_match. destruct (rd_syntax _ _); [|done]. simpl.
  case_match.
  - destruct (wr_syntax _ _ _) eqn:E; [|done]. simpl. intros [= <-]. simpl.
    by eapply wr_syntax_continuation.
  - simpl. by intros [= <-].
Qed.

Lemma body_rules_continuation rules : forall text off p rules' p',
  body_rules rules text off p = Some (rules', p') ->
  continuation (p_line p') = continuation (p_line p).
Proof.
  induction rules as [|r rules IH]; intros text off p rules' p'; simpl.
  - by intros [= _ <-].
  - destruct (if stop_matching r then None else _) as [[so eo]|].
    + case_match.
      * case_match.
        -- by intros [= _ <-].
        -- destruct (record_match _ _ _ _) as [p1|] eqn:E1; [|done]. simpl.
           destruct (body_rules rules text off p1) as [[rs p2]|] eqn:E2; [|done].
           simpl. intros [= _ <-]. rewrite (IH _ _ _ _ _ E2).
           rewrite (record_match_continuation _ _ _ _ _ E1). simpl.
           case_match; [apply grow_chunks_continuation|done].
      * destruct (body_rules rules text off _) as [[rs p2]|] eqn:E2; [|done].
        simpl. intros [= _ <-]. by rewrite (IH _ _ _ _ _ E2).
    + destruct (body_rules rules text off p) as [[rs p2]|] eqn:E2; [|done].
      simpl. intros [= _ <-]. by rewrite (IH _ _ _ _ _ E2).
Qed.

Lemma attach_rules_continuation rules : forall text off p p',
  attach_rules rules text off p = Some p' ->
  continuation (p_line p') = continuation (p_line p).
Proof.
  induction rules as [|r rules IH]; intros text off p p'; simpl.
  - by intros [= <-].
  - destruct (cl_regex r _ _) as [[so eo]|].
    + case_match.
      * destruct (record_match _ _ _ _) as [p1|] eqn:E1; [|done]. simpl.
        intros E2. rewrite (IH _ _ _ _ E2).
        rewrite (record_match_continuation _ _ _ _ _ E1). simpl.
        case_match; [apply grow_chunks_continuation|done].
      * intros E2. by rewrite (IH _ _ _ _ E2).
    + apply IH.
Qed.

Lemma body_loop_continuation fuel : forall rules text off l i rules' l',
  body_loop fuel rules text off l i = Some (rules', l') ->
  continuation l' = continuation l.
Proof.
  induction fuel as [|fuel IH]; intros rules text off l i rules' l'; simpl; [done|].
  case_match; [by intros [= _ <-]|].
  destruct (body_rules _ _ _ _) as [[rules1 p]|] eqn:E; [|done]. simpl.
  destruct (next_offset p off) as [off1|]; [|done]. simpl.
  apply body_rules_continuation in E. simpl in E.
  case_match.
  - intros E2. rewrite (IH _ _ _ _ _ _ _ E2). done.
  - by intros [= _ <-].
Qed.

Lemma attach_loop_continuation fuel : forall rules text off l i l',
  attach_loop fuel rules text off l i = Some l' ->
  continuation l' = continuation l.
Proof.
  induction fuel as [|fuel IH]; intros rules text off l i l'; simpl; [done|].
  case_match; [by intros [= <-]|].
  destruct (attach_rules _ _ _ _) as [p|] eqn:E; [|done]. simpl.
  destruct (next_offset p off) as [off1|]; [|done]. simpl.
  apply attach_rules_continuation in E. simpl in E.
  case_match.
  - intros E2. rewrite (IH _ _ _ _ _ _ E2). done.
  - by intros [= <-].
Qed.

Lemma recolor_cont_keeps P j1 : forall info t c info',
  recolor_cont info j1 t c = Some info' -> keeps P info info'.
Proof.
  induction j1 as [|j IH]; intros info t c info'; simpl.
  - intros [= <-]. apply keeps_refl.
  - destruct (info !! j) as [l|] eqn:Hl; [|done]. simpl.
    destruct (set_color0 c (set_type t l)) as [l'|] eqn:Hs; [|done]. simpl.
    apply set_color0_continuation in Hs. simpl in Hs.
    assert (Hk : keeps P info (<[j := l']> info)) by by eapply keeps_insert.
    case_match.
    + intros E. eapply keeps_trans; [exact Hk|]. by eapply IH.
    + by intros [= <-].
Qed.

Lemma header_rules_keeps P rules : forall buf n s s',
  header_rules rules buf n s = Some s' -> keeps P (line_info s) (line_info s').
Proof.
  induction rules as [|r rules IH]; intros buf n s s'; simpl.
  - intros [= <-]. apply keeps_refl.
  - destruct (cl_regex r buf false); [|by apply IH].
    destruct (line_info s !! n) as [l|] eqn:Hl; [|done]. simpl.
    destruct (set_color0 _ _) as [l'|] eqn:Hs; [|done]. simpl.
    apply set_color0_continuation in Hs. simpl in Hs.
    assert (Hk : keeps P (line_info s) (<[n := l']> (line_info s)))
      by by eapply keeps_insert.
    case_match.
    + destruct (recolor_cont _ _ _ _) as [i'|] eqn:Er; [|done]. simpl.
      intros [= <-]. simpl. eapply keeps_trans; [exact Hk|].
      by eapply recolor_cont_keeps.
    + by intros [= <-].
Qed.

Lemma sig_forward_keeps P fuel : forall buf info n i last info',
  sig_forward fuel buf info n i last = Some info' -> keeps P info info'.
Proof.
  induction fuel as [|fuel IH]; intros buf info n i last info'; simpl.
  - intros [= <-]. apply keeps_refl.
  - case_match; [|intros [= <-]; apply keeps_refl].
    destruct (info !! i) as [li|] eqn:Hli; [|done]. simpl.
    destruct (if negb (chunks li =? 0) then _ else Some info) as [info1|] eqn:E1;
      [|done]. simpl.
    destruct (wr info1 i (set_type MT_COLOR_SIGNATURE)) as [info2|] eqn:E2; [|done].
    simpl. intros E3.
    assert (Hk1 : keeps P info info1).
    { destruct (negb (chunks li =? 0)).
      - destruct (wr info i (set_chunks 0)) as [i1|] eqn:Ea; [|done]. simpl in E1.
        eapply keeps_trans; eapply keeps_wr; try eassumption; done.
      - injection E1 as <-. apply keeps_refl. }
    eapply keeps_trans; [exact Hk1|]. eapply keeps_trans; [|by eapply IH].
    eapply keeps_wr; [|exact E2]. done.
Qed.

Lemma resolve_line_type_keeps P cfg CQ CQU buf raw n last qc s s' :
  resolve_line_type cfg CQ CQU buf raw n last qc s = Some s' ->
  keeps P (line_info s) (line_info s').
Proof.
  unfold resolve_line_type.
  assert (Hset : forall t info', wr (line_info s) n (set_type t) = Some info' ->
                   keeps P (line_info s) info').
  { intros t info'. by apply keeps_wr. }
  case_match.
  { case_match.
    - destruct (wr _ _ _) eqn:E; [|done]. simpl. intros [= <-]. simpl. by eapply Hset.
    - match goal with
      | |- (?x ≫= _) = _ -> _ => destruct x as [s1|] eqn:E1; [|done]
      end. simpl.
      assert (Hk1 : keeps P (line_info s) (line_info s1)).
      { revert E1. case_match.
        - destruct (line_info s !! (n - 1)%nat) as [prev|]; [|done]. simpl.
          destruct (wr _ _ _) as [i1|] eqn:Ew; [|done]. simpl.
          case_match.
          + destruct (rd_syntax prev 0); [|done]. simpl.
            destruct (i1 !! n) as [l|] eqn:Hl; [|done]. simpl.
            destruct (set_color0 _ l) as [l'|] eqn:Hc; [|done]. simpl.
            intros [= <-]. simpl. eapply keeps_trans; [by eapply Hset|].
            eapply keeps_insert; [done|]. simpl.
            by eapply set_color0_continuation.
          + intros [= <-]. simpl. by eapply Hset.
        - destruct (wr _ _ _) as [i1|] eqn:Ew; [|done]. simpl.
          intros [= <-]. simpl. by eapply Hset. }
      clear E1. case_match.
      + intros E2. eapply keeps_trans; [exact Hk1|]. by eapply header_rules_keeps.
      + by intros [= <-]. }
  case_match.
  { destruct (wr _ _ _) eqn:E; [|done]. simpl. intros [= <-]. simpl. by eapply Hset. }
  case_match.
  { destruct (wr _ _ _) eqn:E; [|done]. simpl. intros [= <-]. simpl. by eapply Hset. }
  case_match.
  { destruct (wr _ _ _) as [i1|] eqn:E; [|done]. simpl.
    destruct (sig_forward _ _ _ _ _ _) as [i2|] eqn:E2; [|done]. simpl.
    intros [= <-]. simpl. eapply keeps_trans; [by eapply Hset|].
    by eapply sig_forward_keeps. }
  case_match.
  { destruct (wr _ _ _) eqn:E; [|done]. simpl. intros [= <-]. simpl. by eapply Hset. }
  destruct (mutt_is_quote_line cfg buf) as [is_quote pm].
  destruct is_quote.
  - destruct (line_info s !! n) as [l|]; [|done]. simpl.
    match goal with
    | |- (?x ≫= _) = _ -> _ => destruct x as [s1|] eqn:E1; [|done]
    end. simpl.
    destruct (wr (line_info s1) n _) as [i2|] eqn:E2; [|done]. simpl.
    intros [= <-]. simpl.
    assert (Hk1 : keeps P (line_info s) (line_info s1)).
    { revert E1. case_match.
      - destruct (Quote.classify_quote _ _ _ _ _) as [r|]; [|done]. simpl.
        destruct (wr (line_info s) _ _) as [i1|] eqn:Ew; [|done]. simpl.
        intros [= E]. subst s1. simpl. eapply keeps_wr; [|exact Ew]. done.
      - intros [= <-]. apply keeps_refl. }
    eapply keeps_trans; [exact Hk1|]. eapply keeps_wr; [|exact E2]. done.
  - destruct (wr _ _ _) eqn:E; [|done]. simpl. intros [= <-]. simpl. by eapply Hset.
Qed.

Lemma resolve_types_keeps P cfg CQ CQU buf raw n last qc s s' :
  resolve_types cfg CQ CQU buf raw n last qc s = Some s' ->
  keeps P (line_info s) (line_info s').
Proof.
  unfold resolve_types.
  destruct (resolve_line_type _ _ _ _ _ _ _ _ _) as [s1|] eqn:E1; [|done]. simpl.
  apply (resolve_line_type_keeps P) in E1.
  destruct (line_info s1 !! n) as [l1|] eqn:Hl1; [|done]. simpl.
  match goal with
  | |- (?x ≫= _) = _ -> _ => destruct x as [s2|] eqn:E2; [|done]
  end. simpl.
  assert (Hk2 : keeps P (line_info s1) (line_info s2)).
  { revert E2. case_match; [|intros [= <-]; apply keeps_refl].
    unfold body_pass. case_match.
    - destruct (body_loop _ _ _ _ _ _) as [[rs l']|] eqn:Eb; [|done]. simpl.
      intros [= <-]. simpl. eapply keeps_insert; [done|].
      by apply body_loop_continuation in Eb.
    - destruct (body_loop _ _ _ _ _ _) as [[rs l']|] eqn:Eb; [|done]. simpl.
      intros [= <-]. simpl. eapply keeps_insert; [done|].
      by apply body_loop_continuation in Eb. }
  clear E2. destruct (line_info s2 !! n) as [l2|] eqn:Hl2; [|done]. simpl.
  case_match.
  - unfold attach_pass.
    destruct (attach_loop _ _ _ _ _ _) as [l3|] eqn:Ea; [|done]. simpl.
    intros [= <-]. simpl. eapply keeps_trans; [exact E1|].
    eapply keeps_trans; [exact Hk2|]. eapply keeps_insert; [done|].
    by apply attach_loop_continuation in Ea.
  - intros [= <-]. eapply keeps_trans; [exact E1|exact Hk2].
Qed.

Section ScanFacts.

Variable cfg : Config.
Variable loc : Format.Locale.
Variable ColorQuote : Z -> Z.
Variable ColorQuoteUsed : Z.
Variable file : list Z.
Variable search_re : regex.
Variable LINES : nat.
Variable wrap_cols_of : bool -> Z.
Variable cols : Z.
Variable C_SmartWrap : bool.

Lemma spread_type_keeps P fuel : forall info m last t,
  keeps P info (spread_type fuel info m last t).
Proof.
  induction fuel as [|fuel IH]; intros info m last t; simpl; [apply keeps_refl|].
  destruct (info !! m) as [l|] eqn:Hl; [|apply keeps_refl].
  destruct (_ && _); [|apply keeps_refl].
  eapply keeps_trans; [|apply IH]. by eapply keeps_insert.
Qed.

Lemma append_line_keeps info n cnt info' :
  append_line info n cnt = Some info' -> keeps (fun m => (m <= n)%nat) info info'.
Proof.
  unfold append_line.
  destruct (info !! n) as [ln|]; [|done]. simpl.
  destruct (info !! S n) as [l1|]; [|done]. simpl.
  destruct (rd_syntax ln 0); [|done]. simpl.
  destruct (rd_syntax l1 0); [|done]. simpl.
  destruct (wr_syntax _ _ _); [|done]. simpl.
  intros [= <-]. apply keeps_insert_other. lia.
Qed.

Lemma display_line_frame n types searching nw nskip rd rc rd1 :
  display_line cfg loc ColorQuote ColorQuoteUsed file search_re LINES wrap_cols_of
               cols C_SmartWrap n types searching nw nskip rd = Some (rc, rd1) ->
  keeps (fun m => (m <= n)%nat) (line_info (rs rd)) (line_info (rs rd1))
  /\ same_settings rd rd1
  /\ (rc = 0 \/ rc = -1)
  /\ (n = last_line rd ->
      last_line rd1 = if rc =? 0 then S n else n).
Proof.
  unfold display_line.
  set (change_last := bool_decide (n = last_line rd)).
  set (last := if change_last then S (last_line rd) else last_line rd).
  set (grown := bool_decide (last = max_line rd)).
  set (r0 := if grown then _ else rs rd).
  set (rd0 := mkRd r0 _ _ _ _ _ _ _ _ _).
  assert (Hk0 : keeps (fun m => (m <= n)%nat) (line_info (rs rd)) (line_info r0)).
  { unfold r0. destruct grown; [apply keeps_app|apply keeps_refl]. }
  assert (Hfail : forall r, keeps (fun m => (m <= n)%nat) (line_info (rs rd)) (line_info r) ->
     forall rc' rd', Some (read_failed rd0 r last change_last) = Some (rc', rd') ->
     keeps (fun m => (m <= n)%nat) (line_info (rs rd)) (line_info (rs rd'))
     /\ same_settings rd rd' /\ (rc' = 0 \/ rc' = -1)
     /\ (n = last_line rd -> last_line rd' = if rc' =? 0 then S n else n)).
  { intros r Hr rc' rd'. unfold read_failed. intros [= <- <-]. simpl.
    split; [done|]. split; [done|]. split; [by right|].
    intros Hn. unfold last, change_last. rewrite bool_decide_eq_true_2 by done. lia. }
  assert (Hok : forall r, keeps (fun m => (m <= n)%nat) (line_info (rs rd)) (line_info r) ->
     keeps (fun m => (m <= n)%nat) (line_info (rs rd)) (line_info (rs (set_rs r rd0)))
     /\ same_settings rd (set_rs r rd0) /\ (0 = 0 \/ 0 = -1)
     /\ (n = last_line rd -> last_line (set_rs r rd0) = if 0 =? 0 then S n else n)).
  { intros r Hr. simpl. split; [done|]. split; [done|]. split; [by left|].
    intros Hn. unfold last, change_last. rewrite bool_decide_eq_true_2 by done. lia. }
  destruct (line_info r0 !! n) as [ln|] eqn:Hln; [|done]. simpl.
  match goal with
  | |- (?x ≫= _) = _ -> _ => destruct x as [[[]|r1]|] eqn:E1; [| |done]
  end; simpl.
  { intros E. eapply Hfail; [exact Hk0|exact E]. }
  assert (Hk1 : keeps (fun m => (m <= n)%nat) (line_info (rs rd)) (line_info r1)).
  { revert E1. destruct (types && _).
    - destruct (read_line file (offset ln)) as [buf|]; [|done].
      destruct (resolve_types _ _ _ _ _ _ _ _ _) as [r|] eqn:Er; [|done]. simpl.
      destruct (line_info r !! n); [|done]. simpl. intros [= <-]. simpl.
      eapply keeps_trans; [exact Hk0|].
      eapply keeps_trans; [by eapply resolve_types_keeps|].
      apply spread_type_keeps.
    - by intros [= <-]. }
  clear E1.
  destruct (line_info r1 !! n) as [ln1|] eqn:Hln1; [|done]. simpl.
  match goal with
  | |- (?x ≫= _) = _ -> _ => destruct x as [[[]|r2]|] eqn:E2; [| |done]
  end; simpl.
  { intros E. eapply Hfail; [exact Hk1|exact E]. }
  assert (Hk2 : keeps (fun m => (m <= n)%nat) (line_info (rs rd)) (line_info r2)).
  { revert E2. destruct (searching && _ && _).
    - destruct (read_line file (offset ln)) as [buf|]; [|done].
      cbv zeta.
      match goal with
      | |- (?x ≫= _) = _ -> _ => destruct x as [res|]; [|done]
      end. simpl.
      intros [= <-]. simpl. eapply keeps_trans; [exact Hk1|].
      by eapply keeps_insert.
    - by intros [= <-]. }
  clear E2.
  destruct (line_info r2 !! n) as [ln2|] eqn:Hln2; [|done]. simpl.
  destruct (line_info r2 !! S n) as [nx|] eqn:Hnx; [|done]. simpl.
  destruct (offset nx >? 0).
  { intros [= <- <-]. by apply Hok. }
  destruct (read_line file (offset ln)) as [buf|].
  2:{ intros E. eapply Hfail; [exact Hk2|exact E]. }
  match goal with
  | |- (?x ≫= _) = _ -> _ => destruct x as [info3|] eqn:E3; [|done]
  end; simpl.
  destruct (info3 !! S n) as [nx3|] eqn:Hnx3; [|done]. simpl.
  intros [= <- <-].
  match goal with
  | |- context [set_rs ?r rd0] => apply (Hok r)
  end.
  simpl. eapply keeps_trans; [exact Hk2|].
  eapply keeps_trans; [|apply keeps_insert_other; lia].
  revert E3. destruct (_ && _).
  - apply append_line_keeps.
  - intros [= <-]. apply keeps_refl.
Qed.

End ScanFacts.

End LayoutFacts.

(** ** The reflow: the replay of the logical scroll position *)

Module ReflowFacts.

Import Classifier Pager LayoutFacts.

Lemma count_lines_cons info fuel i acc :
  count_lines info i (S fuel) acc =
    count_lines info (S i) fuel (count_step info i acc).
Proof. simpl. unfold count_step. by destruct (info !! i). Qed.

Lemma count_lines_snoc info : forall fuel i acc,
  count_lines info i (S fuel) acc =
    count_step info (i + fuel) (count_lines info i fuel acc).
Proof.
  induction fuel as [|fuel IH]; intros i acc.
  - rewrite count_lines_cons. simpl. by rewrite Nat.add_0_r.
  - rewrite count_lines_cons, IH, (count_lines_cons _ fuel).
    by replace (S i + fuel)%nat with (i + S fuel)%nat by lia.
Qed.

Lemma count_lines_keeps info info' : forall fuel acc,
  keeps (fun m => (m < fuel)%nat) info info' ->
  (forall m, (m < fuel)%nat -> is_Some (info !! m)) ->
  count_lines info' 0 fuel acc = count_lines info 0 fuel acc.
Proof.
  induction fuel as [|fuel IH]; intros acc Hk Hex; [done|].
  rewrite !count_lines_snoc. simpl.
  rewrite IH; [|eapply keeps_weaken; [|exact Hk]; simpl; lia|intros; apply Hex; lia].
  unfold count_step. destruct (Hex fuel) as [l Hl]; [lia|].
  destruct (Hk fuel l) as (l' & Hl' & Hc); [lia|done|].
  by rewrite Hl, Hl', Hc.
Qed.

Lemma count_lines_ge info : forall fuel i acc, acc <= count_lines info i fuel acc.
Proof.
  induction fuel as [|fuel IH]; intros i acc; simpl; [lia|].
  destruct (info !! i) as [l|]; [|apply IH].
  destruct (continuation l =? 0); [|apply IH].
  specialize (IH (S i) (acc + 1)). lia.
Qed.

Lemma at_logical_line_keeps info info' t L :
  keeps (fun m => (m <= t)%nat) info info' ->
  (forall m, (m <= t)%nat -> is_Some (info !! m)) ->
  at_logical_line info t L -> at_logical_line info' t L.
Proof.
  intros Hk Hex [(l & Hl & Hc) HL]. split.
  - destruct (Hk t l) as (l' & Hl' & Hc'); [lia|done|]. exists l'. split; [done|congruence].
  - unfold logical_index in *. rewrite <- HL. apply count_lines_keeps.
    + eapply keeps_weaken; [|exact Hk]. simpl. lia.
    + intros. apply Hex. lia.
Qed.

Section Replay.

Variable cfg : Config.
Variable loc : Format.Locale.
Variable ColorQuote : Z -> Z.
Variable ColorQuoteUsed : Z.
Variable file : list Z.
Variable search_re : regex.
Variable LINES : nat.
Variable wrap_cols_of : bool -> Z.
Variable cols : Z.
Variable C_SmartWrap : bool.

Local Abbreviation replay :=
  (replay cfg loc ColorQuote ColorQuoteUsed file search_re LINES wrap_cols_of
          cols C_SmartWrap).
Local Abbreviation display_line :=
  (display_line cfg loc ColorQuote ColorQuoteUsed file search_re LINES wrap_cols_of
                cols C_SmartWrap).

Lemma replay_spec : forall fuel i j rd rd',
  replay fuel i j rd = Some rd' ->
  replay_inv i j rd ->
  lines rd' = lines rd
  /\ (lines rd <= count_lines (line_info (rs rd')) 0 (last_line rd') (-1) ->
      at_logical_line (line_info (rs rd')) (topline rd') (lines rd)).
Proof.
  induction fuel as [|fuel IH]; intros i j rd rd'; [done|].
  cbn [Pager.replay].
  destruct (display_line i _ _ _ _ rd) as [[rc rd1]|] eqn:Ed; [|done].
  cbn [mbind option_bind].
  destruct (display_line_frame _ _ _ _ _ _ _ _ _ _ _ _ _ _ _ _ _ _ Ed)
    as (Hk & (Hlines & Htop & Hsf & _) & Hrc & Hlast).
  intros Hres (Hl & Hex & Hj & Hphase). specialize (Hlast (eq_sym Hl)).
  assert (Hcount : count_lines (line_info (rs rd1)) 0 i (-1) = j).
  { rewrite Hj. apply count_lines_keeps; [|done].
    eapply keeps_weaken; [|exact Hk]. simpl. lia. }
  assert (Hfound : forall T, (T < i)%nat ->
            at_logical_line (line_info (rs rd)) T (lines rd) ->
            at_logical_line (line_info (rs rd1)) T (lines rd)).
  { intros T HT. apply at_logical_line_keeps.
    - eapply keeps_weaken; [|exact Hk]. simpl. lia.
    - intros. apply Hex. lia. }
  destruct (Z.eqb_spec rc 0) as [->|Hne].
  - cbn [Z.eqb] in Hres.
    destruct (line_info (rs rd1) !! i) as [l|] eqn:Hli; [|done].
    cbn [mbind option_bind] in Hres. simpl in Hlast.
    assert (Hex1 : forall m, (m < S i)%nat -> is_Some (line_info (rs rd1) !! m)).
    { intros m Hm. destruct (decide (m = i)) as [->|]; [eauto|].
      destruct (Hex m) as [lm Hlm]; [lia|].
      destruct (Hk m lm) as (l' & Hl' & _); [lia|done|]. eauto. }
    assert (Hcs : count_lines (line_info (rs rd1)) 0 (S i) (-1) =
                  if continuation l =? 0 then j + 1 else j).
    { rewrite count_lines_snoc. simpl. unfold count_step. by rewrite Hli, Hcount. }
    destruct (continuation l =? 0) eqn:Hcont.
    + destruct (j + 1 =? lines rd1) eqn:Heq.
      * apply Z.eqb_eq in Heq.
        assert (Hat : at_logical_line (line_info (rs rd1)) i (lines rd)).
        { split; [exists l; split; [done|lia]|].
          unfold logical_index. rewrite Hcs. lia. }
        cbn [search_flag] in Hres.
        destruct (negb (search_flag rd1)) eqn:Hs.
        -- injection Hres as <-. simpl. split; [done|]. intros _. exact Hat.
        -- apply IH in Hres.
           ++ simpl in Hres. rewrite Hlines in Hres. exact Hres.
           ++ repeat split; simpl; try done.
              right. rewrite Hlines. repeat split; try lia; apply Hat.
      * apply Z.eqb_neq in Heq. apply IH in Hres.
        -- rewrite Hlines in Hres. exact Hres.
        -- repeat split; try done. rewrite Hlines, Htop.
           destruct Hphase as [Hlt|(Hle & Ht & Hat)]; [left; lia|].
           right. repeat split; try lia; apply Hfound; done.
    + apply IH in Hres.
      * rewrite Hlines in Hres. exact Hres.
      * repeat split; try done. rewrite Hlines, Htop.
        destruct Hphase as [Hlt|(Hle & Ht & Hat)]; [left; lia|].
        right. repeat split; try lia; apply Hfound; done.
  - assert (Hrc0 : (rc =? 0) = false) by lia. rewrite ?Hrc0 in Hlast; rewrite ?Hrc0 in Hres.
    injection Hres as <-. split; [done|].
    rewrite Hlast, Hcount, Htop. intros HL.
    destruct Hphase as [Hlt|(Hle & Ht & Hat)]; [lia|]. by apply Hfound.
Qed.

Lemma replay_fuel_mono : forall fuel i j rd rd',
  replay fuel i j rd = Some rd' ->
  forall fuel', (fuel <= fuel')%nat -> replay fuel' i j rd = Some rd'.
Proof.
  induction fuel as [|fuel IH]; intros i j rd rd' Hr fuel' Hle; [done|].
  destruct fuel' as [|fuel']; [lia|].
  revert Hr. cbn [Pager.replay].
  destruct (display_line i _ _ _ _ rd) as [[rc rd1]|]; [|done].
  cbn [mbind option_bind].
  destruct (rc =? 0); [|done].
  destruct (line_info (rs rd1) !! i) as [l|]; [|done]. cbn [mbind option_bind].
  destruct (continuation l =? 0).
  - destruct (j + 1 =? lines rd1).
    + destruct (negb _); [done|]. intros Hr. apply (IH _ _ _ _ Hr). lia.
    + intros Hr. apply (IH _ _ _ _ Hr). lia.
  - intros Hr. apply (IH _ _ _ _ Hr). lia.
Qed.

Lemma count_lines_shift info : forall fuel i acc d,
  count_lines info i fuel (acc + d) = count_lines info i fuel acc + d.
Proof.
  induction fuel as [|fuel IH]; intros i acc d; simpl; [done|].
  destruct (info !! i) as [l|]; [|apply IH].
  destruct (continuation l =? 0); [|apply IH].
  replace (acc + d + 1) with (acc + 1 + d) by lia. apply IH.
Qed.

Local Abbreviation reflow :=
  (reflow cfg loc ColorQuote ColorQuoteUsed file search_re LINES wrap_cols_of
          cols C_SmartWrap).

(** C9: a reflow (the REDRAW_FLOW block run after a resize) of a view whose
    top record lies in the logical line of index L -- the count of the
    records that are not continuations from record 0 up to the old top, less
    one -- ends, whenever the rescanned stream has a logical line of index L,
    with the top at a record that is not a continuation and whose logical
    index, counted the same way over the rescanned records, is L.  The
    result is the same for every larger bound on the number of records
    scanned. *)
Theorem reflow_restores_logical_line fuel rd rd' :
  retwinch rd = false ->
  (exists l0, line_info (rs rd) !! 0%nat = Some l0 /\ continuation l0 = 0) ->
  reflow fuel rd = Some rd' ->
  logical_index (line_info (rs rd)) (topline rd)
    < logical_lines (line_info (rs rd')) (last_line rd') ->
  at_logical_line (line_info (rs rd')) (topline rd')
                  (logical_index (line_info (rs rd)) (topline rd))
  /\ forall fuel', (fuel <= fuel')%nat -> reflow fuel' rd = Some rd'.
Proof.
  intros Hw (l0 & Hl0 & Hc0) Hr HL. split.
  2:{ intros fuel' Hle. by eapply replay_fuel_mono. }
  unfold Pager.reflow in Hr.
  apply replay_spec in Hr.
  - destruct Hr as [Hlines Hat].
    unfold reflow_reset in Hat, Hlines. rewrite Hw in Hat, Hlines. simpl in Hat, Hlines.
    apply Hat. unfold logical_lines in HL.
    pose proof (count_lines_shift (line_info (rs rd')) (last_line rd') 0 (-1) 1) as Hs.
    change (-1 + 1) with 0 in Hs. lia.
  - unfold reflow_reset. rewrite Hw. simpl.
    repeat split; simpl; try done; [intros; lia|].
    left. unfold logical_index. rewrite count_lines_cons.
    unfold count_step. rewrite Hl0, Hc0. change (0 =? 0) with true. cbv iota.
    change (-1 + 1) with 0.
    pose proof (count_lines_ge (line_info (rs rd)) (topline rd) 1 0). lia.
Qed.

End Replay.

End ReflowFacts.

Module ReflowExample.

Import Classifier Pager Samples.

(** The witness of [reflow_restores_logical_line]: the sample view, scanned
    at a wrap width of 10 with the top at record 5 (logical line 3), after a
    reflow at a wrap width of 7: the top is record 7, again the start of
    logical line 3. *)
Lemma reflow_restores_logical_line_witness :
  exists rd',
    sample_reflow 7 50 sample_view = Some rd'
    /\ logical_index (line_info (rs sample_view)) (topline sample_view) = 3
    /\ topline sample_view = 5%nat /\ topline rd' = 7%nat
    /\ at_logical_line (line_info (rs rd')) (topline rd')
         (logical_index (line_info (rs sample_view)) (topline sample_view))
    /\ forall fuel', (50 <= fuel')%nat -> sample_reflow 7 fuel' sample_view = Some rd'.
Proof.
  eexists. split; [vm_compute; reflexivity|].
  split; [vm_compute; reflexivity|].
  split; [vm_compute; reflexivity|].
  split; [vm_compute; reflexivity|].
  apply (ReflowFacts.reflow_restores_logical_line
           Format.plain_config Format.utf8_locale (fun i => i) 3 sample_file
           (re_lit (bytes "zzz")) 4 (fun _ => 7) 7 false 50 sample_view).
  - reflexivity.
  - eexists. split; vm_compute; reflexivity.
  - vm_compute. reflexivity.
  - vm_compute. reflexivity.
Defined.

End ReflowExample.


(** ** Scrolling *)

Module ScrollFacts.

Import Scroll.

Lemma shown_count_snoc hiding info : forall len lo,
  shown_count hiding info lo (S len)
  = shown_count hiding info lo len
    + (if shown hiding info (lo + Z.of_nat len) then 1 else 0).
Proof.
  induction len as [|len IH]; intros lo.
  - cbn [shown_count]. replace (lo + Z.of_nat 0) with lo by lia.
    destruct (shown _ _ _); lia.
  - change (shown_count hiding info lo (S (S len)))
      with ((if shown hiding info lo then 1 else 0)
            + shown_count hiding info (lo + 1) (S len)).
    rewrite IH. cbn [shown_count].
    replace (lo + 1 + Z.of_nat len) with (lo + Z.of_nat (S len)) by lia.
    destruct (shown hiding info lo), (shown hiding info (lo + Z.of_nat (S len))); lia.
Qed.

Lemma shown_count_nonneg hiding info : forall len lo, 0 <= shown_count hiding info lo len.
Proof.
  induction len as [|len IH]; intros lo; simpl; [lia|].
  specialize (IH (lo + 1)). destruct (shown _ _ _); lia.
Qed.

(** The loop, from the state [(cur, nlines)] it is in after having moved
    over the records [cur .. cur0 - 1]. *)
Lemma up_loop_spec hiding info : forall fuel nlines cur,
  0 <= cur -> 0 <= nlines -> (Z.to_nat cur <= fuel)%nat ->
  let r := up_loop fuel nlines info cur hiding in
  0 <= r <= cur
  /\ shown_count hiding info r (Z.to_nat (cur - r)) <= nlines
  /\ (0 < r -> shown_count hiding info r (Z.to_nat (cur - r)) = nlines)
  /\ (0 < nlines -> 0 < r -> shown hiding info r = true).
Proof.
  induction fuel as [|fuel IH]; intros nlines cur Hc Hn Hf; simpl.
  - assert (cur = 0) by lia. subst. simpl. repeat split; try lia.
  - destruct (cur >? 0) eqn:Hc0; simpl.
    2:{ assert (cur = 0) by lia. subst. simpl. repeat split; lia. }
    destruct (nlines >? 0) eqn:Hn0; simpl.
    2:{ assert (nlines = 0) by lia. subst. rewrite Z.sub_diag. simpl.
        repeat split; lia. }
    fold (shown hiding info (cur - 1)).
    destruct (shown hiding info (cur - 1)) eqn:Hs.
    + specialize (IH (nlines - 1) (cur - 1) ltac:(lia) ltac:(lia) ltac:(lia)).
      cbv zeta in IH. destruct IH as (Hr & Hle & Heq & Hsh).
      set (r := up_loop fuel (nlines - 1) info (cur - 1) hiding) in *.
      replace (Z.to_nat (cur - r)) with (S (Z.to_nat (cur - 1 - r))) by lia.
      rewrite shown_count_snoc.
      replace (r + Z.of_nat (Z.to_nat (cur - 1 - r))) with (cur - 1) by lia.
      rewrite Hs. split; [lia|]. split; [lia|]. split.
      * intros Hr0. specialize (Heq Hr0). lia.
      * intros _ Hr0. destruct (Z.eq_dec (nlines - 1) 0) as [E|E].
        -- (* the count is reached at once: the loop stops at cur - 1 *)
           assert (r = cur - 1) as ->; [|done].
           subst r. rewrite E. destruct fuel; simpl; [done|].
           by rewrite andb_false_r.
        -- apply Hsh; lia.
    + specialize (IH nlines (cur - 1) ltac:(lia) ltac:(lia) ltac:(lia)).
      cbv zeta in IH. destruct IH as (Hr & Hle & Heq & Hsh).
      set (r := up_loop fuel nlines info (cur - 1) hiding) in *.
      replace (Z.to_nat (cur - r)) with (S (Z.to_nat (cur - 1 - r))) by lia.
      rewrite shown_count_snoc.
      replace (r + Z.of_nat (Z.to_nat (cur - 1 - r))) with (cur - 1) by lia.
      rewrite Hs. split; [lia|]. split; [lia|]. split.
      * intros Hr0. specialize (Heq Hr0). lia.
      * intros Hn1 Hr0. by apply Hsh.
Qed.

Lemma up_loop_fuel hiding info : forall fuel1 fuel2 nlines cur,
  (Z.to_nat cur <= fuel1)%nat -> (Z.to_nat cur <= fuel2)%nat ->
  up_loop fuel1 nlines info cur hiding = up_loop fuel2 nlines info cur hiding.
Proof.
  induction fuel1 as [|fuel1 IH]; intros fuel2 nlines cur H1 H2.
  - destruct fuel2; simpl; [done|].
    destruct (cur >? 0) eqn:E; [lia|done].
  - destruct fuel2; simpl.
    + destruct (cur >? 0) eqn:E; [lia|done].
    + destruct (_ && _); [|done]. apply IH; lia.
Qed.

Lemma up_loop_S hiding info fuel nlines cur :
  up_loop (S fuel) nlines info cur hiding
  = if (cur >? 0) && (nlines >? 0) then
      up_loop fuel (if shown hiding info (cur - 1) then nlines - 1 else nlines)
              info (cur - 1) hiding
    else cur.
Proof. done. Qed.

Lemma up_loop_sum hiding info : forall fuel a b cur,
  0 <= a -> 0 <= b -> (Z.to_nat cur <= fuel)%nat ->
  up_loop fuel (a + b) info cur hiding
  = up_loop fuel b info (up_loop fuel a info cur hiding) hiding.
Proof.
  induction fuel as [|fuel IH]; intros a b cur Ha Hb Hf; [done|].
  rewrite (up_loop_S _ _ fuel (a + b)), (up_loop_S _ _ fuel a).
  destruct (cur >? 0) eqn:Hc; cbn [andb].
  2:{ rewrite up_loop_S. by rewrite Hc. }
  destruct (a >? 0) eqn:Ha0.
  2:{ assert (a = 0) as -> by lia. rewrite up_loop_S, Hc. by rewrite Z.add_0_l. }
  replace (a + b >? 0) with true by lia.
  pose proof (up_loop_spec hiding info fuel) as Hspec.
  destruct (shown hiding info (cur - 1)) eqn:Hs.
  - replace (a + b - 1) with (a - 1 + b) by lia.
    rewrite IH by lia.
    specialize (Hspec (a - 1) (cur - 1) ltac:(lia) ltac:(lia) ltac:(lia)).
    cbv zeta in Hspec. apply up_loop_fuel; lia.
  - rewrite IH by lia.
    specialize (Hspec a (cur - 1) ltac:(lia) ltac:(lia) ltac:(lia)).
    cbv zeta in Hspec. apply up_loop_fuel; lia.
Qed.

(** X (up_n_lines): moving up by [nlines] from record [cur] ends at a record
    [r] between 0 and [cur] such that at most [nlines] of the records
    [r .. cur - 1] are shown (all of them when quoted text is not hidden,
    the ones not typed Quoted when it is); unless the top of the message
    (record 0) was reached, exactly [nlines] of them are shown, and the new
    position is itself a shown record. *)
Theorem up_n_lines_counts_shown_lines hiding info nlines cur :
  0 <= cur -> 0 <= nlines ->
  0 <= up_n_lines nlines info cur hiding <= cur
  /\ shown_count hiding info (up_n_lines nlines info cur hiding)
       (Z.to_nat (cur - up_n_lines nlines info cur hiding)) <= nlines
  /\ (0 < up_n_lines nlines info cur hiding ->
      shown_count hiding info (up_n_lines nlines info cur hiding)
        (Z.to_nat (cur - up_n_lines nlines info cur hiding)) = nlines)
  /\ (0 < nlines -> 0 < up_n_lines nlines info cur hiding ->
      shown hiding info (up_n_lines nlines info cur hiding) = true).
Proof.
  intros Hc Hn. unfold up_n_lines.
  exact (up_loop_spec hiding info (Z.to_nat cur) nlines cur Hc Hn (le_n _)).
Qed.

(** X (up_n_lines): two moves up compose: moving up by [a] lines and then by
    [b] lines ends where one move by [a + b] lines ends, with and without
    hidden quoted text. *)
Theorem up_n_lines_compose hiding info a b cur :
  0 <= a -> 0 <= b -> 0 <= cur ->
  up_n_lines b info (up_n_lines a info cur hiding) hiding
  = up_n_lines (a + b) info cur hiding.
Proof.
  intros Ha Hb Hc. unfold up_n_lines.
  rewrite up_loop_sum by lia.
  pose proof (up_loop_spec hiding info (Z.to_nat cur) a cur Hc Ha (le_n _)) as Hs.
  cbv zeta in Hs. apply up_loop_fuel; lia.
Qed.

(** Records [lo .. hi - 1] are all typed Quoted. *)
Lemma skip_quoted_down_spec info last : forall fuel top,
  (Z.to_nat (last - top) <= fuel)%nat ->
  let t := skip_quoted_down fuel info top last in
  top <= t
  /\ (forall i, top <= i < t -> type_at info (Z.to_nat i) = MT_COLOR_QUOTED)
  /\ (type_at info (Z.to_nat t) <> MT_COLOR_QUOTED \/ last <= t).
Proof.
  induction fuel as [|fuel IH]; intros top Hf; cbn [skip_quoted_down].
  - cbv zeta. split; [lia|]. split; [intros; lia|]. right. lia.
  - destruct (bool_decide _) eqn:Hq; cbn [andb].
    2:{ cbv zeta. split; [lia|]. split; [intros; lia|]. left.
        by apply bool_decide_eq_false in Hq. }
    apply bool_decide_eq_true in Hq.
    destruct (top <? last) eqn:Hl.
    2:{ cbv zeta. split; [lia|]. split; [intros; lia|]. right. lia. }
    specialize (IH (top + 1) ltac:(lia)). cbv zeta in IH.
    destruct IH as (H1 & H2 & H3). cbv zeta.
    split; [lia|]. split; [|done].
    intros i Hi. destruct (Z.eq_dec i top) as [->|]; [done|]. apply H2. lia.
Qed.

Lemma skip_quoted_down_reaches info last t : forall fuel top,
  0 <= top <= t -> t <= last -> (Z.to_nat (t - top) <= fuel)%nat ->
  (forall i, top <= i < t -> type_at info (Z.to_nat i) = MT_COLOR_QUOTED) ->
  type_at info (Z.to_nat t) <> MT_COLOR_QUOTED ->
  skip_quoted_down fuel info top last = t.
Proof.
  induction fuel as [|fuel IH]; intros top Ht Hl Hf Hq Hn; cbn [skip_quoted_down].
  - lia.
  - destruct (Z.eq_dec top t) as [->|Hne].
    + by rewrite bool_decide_eq_false_2.
    + rewrite bool_decide_eq_true_2 by (apply Hq; lia).
      replace (top <? last) with true by lia. cbn [andb].
      apply IH; [lia|lia|lia| |done]. intros i Hi. apply Hq. lia.
Qed.

(** One move up from [cur], over the hidden records [lo .. cur - 1], to the
    shown record [lo - 1]. *)
Lemma up_loop_one hiding info lo : forall fuel cur,
  0 < lo <= cur -> (Z.to_nat cur <= fuel)%nat ->
  (forall i, lo <= i < cur -> shown hiding info i = false) ->
  shown hiding info (lo - 1) = true ->
  up_loop fuel 1 info cur hiding = lo - 1.
Proof.
  induction fuel as [|fuel IH]; intros cur Hc Hf Hh Hs; [lia|].
  cbn [up_loop]. replace (cur >? 0) with true by lia. cbn [andb Z.gtb Z.compare].
  fold (shown hiding info (cur - 1)).
  destruct (Z.eq_dec cur lo) as [->|Hne].
  - rewrite Hs. change (1 - 1) with 0.
    destruct fuel; cbn [up_loop]; [done|]. by rewrite andb_false_r.
  - rewrite Hh by lia. apply IH; [lia|lia| |done]. intros i Hi. apply Hh. lia.
Qed.

(** What one move up leaves between the new and the old position. *)
Lemma up_loop_one_spec hiding info : forall fuel cur,
  0 < cur -> (Z.to_nat cur <= fuel)%nat ->
  let r := up_loop fuel 1 info cur hiding in
  0 <= r < cur /\ (forall i, r < i < cur -> shown hiding info i = false).
Proof.
  induction fuel as [|fuel IH]; intros cur Hc Hf; [lia|].
  cbn [up_loop]. replace (cur >? 0) with true by lia. cbn [andb Z.gtb Z.compare].
  fold (shown hiding info (cur - 1)).
  destruct (shown hiding info (cur - 1)) eqn:Hs.
  - change (1 - 1) with 0.
    assert (up_loop fuel 0 info (cur - 1) hiding = cur - 1) as ->.
    { destruct fuel; cbn [up_loop]; [done|]. by rewrite andb_false_r. }
    cbv zeta. split; [lia|]. intros; lia.
  - destruct (Z.eq_dec cur 1) as [->|Hne].
    + change (1 - 1) with 0.
      assert (up_loop fuel 1 info 0 hiding = 0) as ->.
      { destruct fuel; cbn [up_loop]; done. }
      cbv zeta. split; [lia|]. intros; lia.
    + specialize (IH (cur - 1) ltac:(lia) ltac:(lia)). cbv zeta in IH.
      destruct IH as [H1 H2]. cbv zeta. split; [lia|].
      intros i Hi. destruct (Z.eq_dec i (cur - 1)) as [->|]; [done|].
      apply H2. lia.
Qed.

Lemma shown_hiding info i :
  shown true info i = negb (bool_decide (type_at info (Z.to_nat i) = MT_COLOR_QUOTED)).
Proof. done. Qed.

(** X (OP_NEXT_LINE, OP_PREV_LINE): the two line-wise moves, from a shown
    record [t], with [l] the record [line_info[curline]] that OP_NEXT_LINE
    tests.  While the bottom of the message is not shown
    ([l.offset < st_size - 1]), OP_NEXT_LINE moves the top down to a record
    [t'] below [t] from which OP_PREV_LINE comes back to [t]; and, when [t]
    is not the top of the message and lies within the scanned records,
    OP_NEXT_LINE run after OP_PREV_LINE comes back to [t] as well -- with
    quoted text hidden or not.  When the bottom of the message is shown,
    OP_NEXT_LINE leaves the top where it is. *)
Theorem next_and_prev_line_are_inverse info curline st_size l t last hiding :
  0 <= t -> shown hiding info t = true ->
  0 <= curline -> info !! Z.to_nat curline = Some l ->
  (offset l < st_size - 1 ->
     (exists t', op_next_line info curline st_size t last hiding = Some t'
                 /\ t < t' /\ op_prev_line info t' hiding = t)
     /\ (0 < t <= last ->
         op_next_line info curline st_size (op_prev_line info t hiding) last hiding
         = Some t))
  /\ (st_size - 1 <= offset l ->
      op_next_line info curline st_size t last hiding = Some t).
Proof.
  intros Ht Hs Hc Hl.
  assert (forall top, op_next_line info curline st_size top last hiding
            = if offset l <? st_size - 1
              then Some (if hiding
                         then skip_quoted_down (Z.to_nat (last - (top + 1))) info
                                               (top + 1) last
                         else top + 1)
              else Some top) as Hnext.
  { intros top. unfold op_next_line. replace (0 <=? curline) with true by lia.
    by rewrite Hl. }
  split; [|intros Hb; rewrite Hnext; by replace (offset l <? st_size - 1) with false by lia].
  intros Hg. rewrite !Hnext. replace (offset l <? st_size - 1) with true by lia.
  split.
  - eexists. split; [done|]. unfold op_prev_line. destruct hiding.
    + pose proof (skip_quoted_down_spec info last (Z.to_nat (last - (t + 1))) (t + 1)
                    (le_n _)) as Hd.
      cbv zeta in Hd. destruct Hd as (H1 & H2 & _).
      set (t' := skip_quoted_down _ _ _ _) in *.
      split; [lia|].
      replace (t' =? 0) with false by lia.
      unfold up_n_lines. transitivity (t + 1 - 1); [|lia].
      apply up_loop_one; [lia|lia| |by replace (t + 1 - 1) with t by lia].
      intros i Hi. rewrite shown_hiding. by rewrite bool_decide_eq_true_2 by (by apply H2).
    + split; [lia|]. replace (t + 1 =? 0) with false by lia.
      unfold up_n_lines. transitivity (t + 1 - 1); [|lia].
      apply up_loop_one; [lia|lia|intros; lia|by replace (t + 1 - 1) with t by lia].
  - intros Hlast. f_equal. unfold op_prev_line. replace (t =? 0) with false by lia.
    unfold up_n_lines.
    pose proof (up_loop_one_spec hiding info (Z.to_nat t) t ltac:(lia) (le_n _)) as Hu.
    cbv zeta in Hu. destruct Hu as [H1 H2].
    set (r := up_loop _ _ _ _ _) in *.
    destruct hiding.
    + rewrite shown_hiding in Hs. apply negb_true_iff, bool_decide_eq_false in Hs.
      apply skip_quoted_down_reaches; [lia|lia|lia| |done].
      intros i Hi. specialize (H2 i ltac:(lia)). rewrite shown_hiding in H2.
      by apply negb_false_iff, bool_decide_eq_true in H2.
    + specialize (H2 (t - 1)). unfold shown in H2. cbn [negb orb] in H2.
      destruct (Z.eq_dec r (t - 1)); [lia|]. specialize (H2 ltac:(lia)). done.
Qed.

End ScrollFacts.

Module ScrollExample.

Import Scroll Inputs.

(** Two lines up from record 6 with the quoted block hidden: over the
    records 5 and 1, to record 1. *)
Lemma up_n_lines_counts_shown_lines_witness :
  up_n_lines 2 quoted_block 6 true = 1
  /\ 0 <= up_n_lines 2 quoted_block 6 true <= 6
  /\ shown_count true quoted_block (up_n_lines 2 quoted_block 6 true)
       (Z.to_nat (6 - up_n_lines 2 quoted_block 6 true)) <= 2
  /\ (0 < up_n_lines 2 quoted_block 6 true ->
      shown_count true quoted_block (up_n_lines 2 quoted_block 6 true)
        (Z.to_nat (6 - up_n_lines 2 quoted_block 6 true)) = 2)
  /\ (0 < 2 -> 0 < up_n_lines 2 quoted_block 6 true ->
      shown true quoted_block (up_n_lines 2 quoted_block 6 true) = true).
Proof.
  split; [vm_compute; reflexivity|].
  apply (ScrollFacts.up_n_lines_counts_shown_lines true quoted_block 2 6); lia.
Defined.

(** One line up and then two, and three lines up at once. *)
Lemma up_n_lines_compose_witness :
  up_n_lines 3 quoted_block 6 true = 0
  /\ up_n_lines 2 quoted_block (up_n_lines 1 quoted_block 6 true) true
     = up_n_lines (1 + 2) quoted_block 6 true.
Proof.
  split; [vm_compute; reflexivity|].
  apply (ScrollFacts.up_n_lines_compose true quoted_block 1 2 6); lia.
Defined.

(** The quoted block scanned from a file of 70 bytes, ten bytes a record.
    With record 2 the last one displayed, the next line of record 1 is
    record 5 (past the hidden block) and the previous line of record 5 is
    record 1 again. *)
Lemma next_and_prev_line_are_inverse_witness :
  op_next_line scanned_block 2 70 1 7 true = Some 5
  /\ op_prev_line scanned_block 5 true = 1
  /\ (offset (Samples.scanned_line 20) < 70 - 1 ->
       (exists t', op_next_line scanned_block 2 70 1 7 true = Some t'
                   /\ 1 < t' /\ op_prev_line scanned_block t' true = 1)
       /\ (0 < 1 <= 7 ->
           op_next_line scanned_block 2 70 (op_prev_line scanned_block 1 true) 7 true
           = Some 1))
  /\ (70 - 1 <= offset (Samples.scanned_line 20) ->
      op_next_line scanned_block 2 70 1 7 true = Some 1).
Proof.
  split; [vm_compute; reflexivity|]. split; [vm_compute; reflexivity|].
  apply (ScrollFacts.next_and_prev_line_are_inverse scanned_block 2 70
           (set_type MT_COLOR_QUOTED (Samples.scanned_line 20)) 1 7 true);
    [lia|vm_compute; reflexivity|lia|vm_compute; reflexivity].
Defined.

End ScrollExample.

(** ** The escape normalizer *)

Module CleanTextFacts.

Import Normalizer Overstrike.

Lemma skip_past_suffix c : forall p, exists pre, p = pre ++ skip_past c p.
Proof.
  induction p as [|x p [pre IH]]; simpl.
  - by exists [].
  - destruct (x =? c).
    + by exists [x].
    + exists (x :: pre). simpl. by rewrite <- IH.
Qed.

(** The copy loop, with [done] the bytes of the raw line it has read. *)
Lemma fmt_loop_sublist cfg : forall fuel at_start p qrev done,
  sublist (rev qrev) done ->
  sublist (fmt_loop cfg fuel at_start p qrev) (done ++ p).
Proof.
  induction fuel as [|fuel IH]; intros at_start p qrev done Hq.
  - simpl. by apply sublist_inserts_r.
  - destruct p as [|c p1]; [simpl; by apply sublist_inserts_r|].
    cbn [fmt_loop].
    destruct (c =? 0); [by apply sublist_inserts_r|].
    destruct ((c =? ch_BS) && negb at_start).
    { destruct (peek p1 =? 95).
      - replace (done ++ c :: p1) with ((done ++ c :: take 1 p1) ++ drop 1 p1).
        2:{ rewrite <- app_assoc. simpl. by rewrite take_drop. }
        apply IH. by apply sublist_inserts_r.
      - destruct (negb (peek p1 =? 0) && negb (bool_decide (qrev = []))) eqn:E.
        + destruct p1 as [|y p2]; [done|].
          replace (done ++ c :: y :: p2) with ((done ++ [c; y]) ++ p2)
            by (by rewrite <- app_assoc).
          apply IH. cbn [peek rev]. apply sublist_app.
          * destruct qrev as [|x q']; [done|]. simpl in *.
            etrans; [|exact Hq]. by apply sublist_inserts_r.
          * by apply sublist_cons.
        + replace (done ++ c :: p1) with ((done ++ [c]) ++ p1)
            by (by rewrite <- app_assoc).
          apply IH. simpl. by apply sublist_app. }
    destruct (ansi_at (c :: p1)).
    { destruct (skip_past_suffix 109 (c :: p1)) as [pre Hpre].
      rewrite Hpre at 2. rewrite app_assoc. apply IH. by apply sublist_inserts_r. }
    destruct (marker_at cfg (c :: p1)).
    { destruct (skip_past_suffix ch_BEL (c :: p1)) as [pre Hpre].
      rewrite Hpre at 2. rewrite app_assoc. apply IH. by apply sublist_inserts_r. }
    replace (done ++ c :: p1) with ((done ++ [c]) ++ p1) by (by rewrite <- app_assoc).
    apply IH. simpl. by apply sublist_app.
Qed.

(** X (fill_buffer): the clean text is made of bytes of the raw line, in
    their order: the copy loop only drops bytes.  So the clean text is never
    longer than the raw line, and the buffer [fmt], which fill_buffer
    allocates with the size of the raw buffer, cannot overflow. *)
Theorem clean_text_is_a_subsequence cfg raw :
  sublist (fill_buffer_fmt cfg raw) raw
  /\ (length (fill_buffer_fmt cfg raw) <= length raw)%nat.
Proof.
  assert (sublist (fill_buffer_fmt cfg raw) raw) as H.
  { apply (fmt_loop_sublist cfg (S (length raw)) true raw [] []). done. }
  split; [done|]. by apply sublist_length.
Qed.

Lemma ansi_at_plain c r : c <> ch_ESC -> ansi_at (c :: r) = false.
Proof.
  intros Hc. unfold ansi_at. destruct r as [|c1 r]; [done|].
  replace (c =? ch_ESC) with false by lia. done.
Qed.

Lemma marker_at_plain cfg c r : c <> ch_ESC -> marker_at cfg (c :: r) = false.
Proof.
  intros Hc. unfold marker_at. destruct r as [|c1 r]; [done|].
  replace (c =? ch_ESC) with false by lia. done.
Qed.

(** A byte that the loop copies. *)
Lemma fmt_loop_copy cfg fuel at_start c p qrev :
  plain_char c ->
  fmt_loop cfg (S fuel) at_start (c :: p) qrev = fmt_loop cfg fuel false p (c :: qrev).
Proof.
  intros (H0 & Hb & He). cbn [fmt_loop].
  replace (c =? 0) with false by lia.
  replace (c =? ch_BS) with false by lia. cbn [andb].
  by rewrite ansi_at_plain, marker_at_plain.
Qed.

(** A backspace after the first byte, followed by [y]. *)
Lemma fmt_loop_backspace cfg fuel x y p qrev :
  y <> 0 ->
  fmt_loop cfg (S fuel) false (ch_BS :: y :: p) (x :: qrev)
  = fmt_loop cfg fuel false p ((if y =? 95 then x else y) :: qrev).
Proof.
  intros Hy. cbn [fmt_loop peek drop].
  change (ch_BS =? 0) with false. change (ch_BS =? ch_BS) with true. cbn [andb negb].
  destruct (y =? 95); [done|].
  replace (y =? 0) with false by lia. done.
Qed.

Lemma fmt_loop_cells cfg : forall cs fuel at_start qrev,
  Forall plain_char (text cs) ->
  (length (encode cs) < fuel)%nat ->
  fmt_loop cfg fuel at_start (encode cs) qrev = rev qrev ++ text cs.
Proof.
  assert (plain_char 95) as H95 by (unfold plain_char, ch_BS, ch_ESC; lia).
  induction cs as [|a cs IH]; intros fuel at_start qrev Hp Hf.
  - destruct fuel; simpl; by rewrite app_nil_r.
  - apply Forall_cons_1 in Hp as [Ha Hp].
    unfold encode in *. cbn [map concat] in *. rewrite length_app in Hf.
    unfold text in *. cbn [map].
    replace (rev qrev ++ cell_char a :: map cell_char cs)
      with (rev (cell_char a :: qrev) ++ map cell_char cs)
      by (simpl; by rewrite <- app_assoc).
    pose proof Ha as (Ha0 & _ & _).
    destruct a as [c|c|c|c]; cbn [cell_bytes cell_char app length] in *.
    + destruct fuel as [|fuel]; [lia|].
      rewrite fmt_loop_copy by done. apply IH; [done|lia].
    + destruct fuel as [|[|fuel]]; [lia|lia|].
      rewrite fmt_loop_copy by done. rewrite fmt_loop_backspace by done.
      replace (if c =? 95 then c else c) with c by (by destruct (c =? 95)).
      apply IH; [done|lia].
    + destruct fuel as [|[|fuel]]; [lia|lia|].
      rewrite fmt_loop_copy by done. rewrite fmt_loop_backspace by done.
      replace (if c =? 95 then 95 else c) with c
        by (destruct (Z.eqb_spec c 95); congruence).
      apply IH; [done|lia].
    + destruct fuel as [|[|fuel]]; [lia|lia|].
      rewrite fmt_loop_copy by done. rewrite fmt_loop_backspace by done.
      change (95 =? 95) with true. cbv iota.
      apply IH; [done|lia].
Qed.

(** X (fill_buffer): overstriking is undone.  For every text whose
    characters are none of NUL, backspace and ESC, and each of which is
    written plain, as bold ([c \b c]) or as underlined ([_ \b c] or
    [c \b _]), the clean text is the text itself. *)
Theorem overstruck_text_is_cleaned cfg cs :
  Forall plain_char (text cs) ->
  fill_buffer_fmt cfg (encode cs) = text cs.
Proof.
  intros Hp. unfold fill_buffer_fmt.
  rewrite fmt_loop_cells; [done|done|lia].
Qed.

End CleanTextFacts.

Module CleanTextExample.

Import Normalizer Overstrike.

(** "Hi_" with a bold H, an underlined i and a plain underscore. *)
Lemma overstruck_text_is_cleaned_witness :
  encode [Bold 72; Under 105; Plain 95] = [72; 8; 72; 95; 8; 105; 95]
  /\ fill_buffer_fmt Format.plain_config (encode [Bold 72; Under 105; Plain 95])
     = text [Bold 72; Under 105; Plain 95].
Proof.
  split; [reflexivity|].
  apply (CleanTextFacts.overstruck_text_is_cleaned Format.plain_config
           [Bold 72; Under 105; Plain 95]).
  unfold text, plain_char, ch_BS, ch_ESC. cbn [map cell_char].
  repeat (apply Forall_cons_2; [lia|]). apply Forall_nil_2.
Defined.

End CleanTextExample.

(** ** ANSI sequences: is_ansi, grok_ansi and the skip loops *)

Module AnsiFacts.

Import Normalizer Format AnsiSeq.

Lemma is_ansi_split : forall r,
  is_ansi r = true ->
  exists pre post, r = pre ++ 109 :: post /\ Forall (fun c => param_byte c = true) pre.
Proof.
  induction r as [|c r IH]; [done|]. cbn [is_ansi].
  destruct (negb (c =? 0) && (isdigit c || (c =? 59))) eqn:E.
  - intros H. destruct (IH H) as (pre & post & -> & Hpre).
    exists (c :: pre), post. split; [done|]. apply Forall_cons_2; [|done].
    by apply andb_true_iff in E as [_ E].
  - intros H. apply Z.eqb_eq in H as ->. by exists [], r.
Qed.

Lemma drop_cons_inv {A} (l : list A) n x r : drop n l = x :: r -> drop (S n) l = r.
Proof.
  intros H. replace (S n) with (n + 1)%nat by lia.
  by rewrite <- drop_drop, H.
Qed.

Lemma skip_params_run buf post : forall pre fuel pos,
  drop pos buf = pre ++ 109 :: post ->
  Forall (fun c => param_byte c = true) pre ->
  (length pre <= fuel)%nat ->
  skip_params fuel buf pos = (pos + length pre)%nat.
Proof.
  induction pre as [|c pre IH]; intros fuel pos Hd Hp Hf.
  - simpl in *. destruct fuel; simpl; [lia|].
    unfold byte_at. rewrite Hd. simpl. lia.
  - apply Forall_cons_1 in Hp as [Hc Hp]. simpl in Hf.
    destruct fuel as [|fuel]; [lia|]. cbn [skip_params].
    unfold byte_at at 1 2. rewrite Hd. cbn [app peek].
    unfold param_byte in Hc. rewrite Hc.
    rewrite (IH fuel (S pos)); [simpl; lia| |done|lia].
    by apply drop_cons_inv in Hd.
Qed.

Lemma skip_past_params post : forall pre,
  Forall (fun c => param_byte c = true) pre ->
  skip_past 109 (pre ++ 109 :: post) = post.
Proof.
  induction pre as [|c pre IH]; intros Hp; [done|].
  apply Forall_cons_1 in Hp as [Hc Hp]. cbn [app skip_past].
  destruct (Z.eqb_spec c 109) as [->|_]; [done|]. by apply IH.
Qed.

(** X (is_ansi, grok_ansi, fill_buffer, format_line): where an ANSI sequence
    ends.  When the test the two functions make before they skip a sequence
    succeeds at the byte [ch] (ESC, an opening bracket, and is_ansi on what
    follows), grok_ansi returns the index of the letter m that ends the
    sequence: it lies inside the line, only digits and semicolons lie
    between the bracket and it, and the text after it is where the skip
    loop of fill_buffer ([while ( *p++ != 'm')]) resumes.  So both loops stop
    inside the buffer, and at the same byte. *)
Theorem ansi_sequence_ends_at_its_letter allow buf ch pa :
  ansi_at (drop ch buf) = true ->
  (ch + 2 <= (grok_ansi allow buf (ch + 2) pa).1 < length buf)%nat
  /\ byte_at buf (grok_ansi allow buf (ch + 2) pa).1 = 109
  /\ (forall i, (ch + 2 <= i < (grok_ansi allow buf (ch + 2) pa).1)%nat ->
       param_byte (byte_at buf i) = true)
  /\ drop (S (grok_ansi allow buf (ch + 2) pa).1) buf = skip_past 109 (drop ch buf).
Proof.
  intros Ha. unfold ansi_at in Ha.
  destruct (drop ch buf) as [|c0 [|c1 r]] eqn:Hd; [done|done|].
  apply andb_true_iff in Ha as [Ha Hr]. apply andb_true_iff in Ha as [H0 H1].
  apply Z.eqb_eq in H0 as ->. apply Z.eqb_eq in H1 as ->.
  destruct (is_ansi_split r Hr) as (pre & post & -> & Hpre).
  assert (drop (ch + 2) buf = pre ++ 109 :: post) as Hd2.
  { replace (ch + 2)%nat with (S (S ch)) by lia.
    eapply drop_cons_inv. eapply drop_cons_inv in Hd. by rewrite Hd. }
  assert (length (drop (ch + 2) buf) = (length pre + S (length post))%nat) as Hlen.
  { rewrite Hd2, length_app. done. }
  rewrite length_drop in Hlen.
  assert ((grok_ansi allow buf (ch + 2) pa).1 = (ch + 2 + length pre)%nat) as ->.
  { unfold grok_ansi.
    rewrite (skip_params_run buf post pre (length buf) (ch + 2) Hd2 Hpre) by lia.
    destruct pa as [a|]; [|done]. by destruct (_ && _). }
  split; [lia|]. split; [|split].
  - unfold byte_at. rewrite <- drop_drop, Hd2, drop_app_length. done.
  - intros i Hi. unfold byte_at.
    replace i with (ch + 2 + (i - (ch + 2)))%nat by lia.
    rewrite <- drop_drop, Hd2.
    rewrite Forall_lookup in Hpre.
    destruct (pre !! (i - (ch + 2))%nat) as [c|] eqn:Hc.
    2:{ apply lookup_ge_None in Hc. lia. }
    rewrite (drop_S _ c) by (by apply lookup_app_l_Some). cbn [peek].
    by eapply Hpre.
  - assert (skip_past 109 (ch_ESC :: 91 :: pre ++ 109 :: post) = post) as ->.
    { change (skip_past 109 (ch_ESC :: 91 :: pre ++ 109 :: post))
        with (skip_past 109 (pre ++ 109 :: post)).
      by apply skip_past_params. }
    replace (S (ch + 2 + length pre)) with (ch + 2 + S (length pre))%nat by lia.
    rewrite <- drop_drop, Hd2.
    replace (pre ++ 109 :: post) with ((pre ++ [109]) ++ post)
      by (by rewrite <- app_assoc).
    replace (S (length pre)) with (length (pre ++ [109]))
      by (rewrite length_app; simpl; lia).
    by rewrite drop_app_length.
Qed.

End AnsiFacts.

Module AnsiExample.

Import Normalizer Format AnsiSeq Inputs.

(** In the line [ESC [ 1 ; 3 1 m X] the sequence ends at index 6. *)
Lemma ansi_sequence_ends_at_its_letter_witness :
  (grok_ansi true ansi_line (0 + 2) None).1 = 6%nat
  /\ (0 + 2 <= (grok_ansi true ansi_line (0 + 2) None).1 < length ansi_line)%nat
  /\ byte_at ansi_line (grok_ansi true ansi_line (0 + 2) None).1 = 109
  /\ (forall i, (0 + 2 <= i < (grok_ansi true ansi_line (0 + 2) None).1)%nat ->
       param_byte (byte_at ansi_line i) = true)
  /\ drop (S (grok_ansi true ansi_line (0 + 2) None).1) ansi_line
     = skip_past 109 (drop 0 ansi_line).
Proof.
  split; [reflexivity|].
  apply (AnsiFacts.ansi_sequence_ends_at_its_letter true ansi_line 0 None).
  reflexivity.
Defined.

End AnsiExample.

(** ** The quote classifier: what a call does to the arena *)

Module ForestFacts.

Import Quote QuoteKeys.

Lemma store_keys h p g h' :
  (forall c, class_key (g c) = class_key c) ->
  store h p g = Some h' -> keys h' = keys h.
Proof.
  intros Hg. unfold store. destruct (h !! p) as [c|] eqn:E; [|done].
  simpl. intros [= <-]. unfold keys. rewrite list_fmap_insert, Hg.
  apply list_insert_id. by rewrite list_lookup_fmap, E.
Qed.

Lemma store_opt_keys h p g h' :
  (forall c, class_key (g c) = class_key c) ->
  store_opt h p g = Some h' -> keys h' = keys h.
Proof.
  intros Hg. destruct p; simpl; [by apply store_keys|]. by intros [= <-].
Qed.

(** Every field assignment of the classifier is to a link, the index or the
    colour: rewrite the keys of the arena after it to those before. *)
Ltac keys_of_stores :=
  repeat match goal with
    | H : store _ _ _ = Some _ |- _ => apply store_keys in H; [|done]
    | H : store_opt _ _ _ = Some _ |- _ => apply store_opt_keys in H; [|done]
    end.

Lemma new_class_color_keys CQ CQU h class lvl h' lvl' :
  new_class_color CQ CQU h class lvl = Some (h', lvl') ->
  keys h' = keys h /\ lvl' = lvl + 1.
Proof.
  unfold new_class_color. intros H. simplify_option_eq. keys_of_stores.
  split; [congruence|done].
Qed.

Lemma shift_loop_keys CQ CQU idx : forall fuel h q h',
  shift_loop CQ CQU fuel h q idx = Some h' -> keys h' = keys h.
Proof.
  induction fuel as [|fuel IH]; intros h q h'; destruct q as [q|]; simpl;
    try done; try (by intros [= <-]).
  intros H.
  apply bind_Some in H as (c & _ & H).
  apply bind_Some in H as (h1 & H1 & H).
  apply bind_Some in H as (c1 & _ & H).
  apply bind_Some in H as (nxt & _ & H).
  apply IH in H. rewrite H.
  destruct (idx <=? index c); simplify_option_eq; keys_of_stores; congruence.
Qed.

Lemma shift_class_colors_keys CQ CQU h root class idx lvl h' lvl' :
  shift_class_colors CQ CQU h root class idx lvl = Some (h', lvl') ->
  keys h' = keys h /\ lvl' = lvl + 1.
Proof.
  unfold shift_class_colors. intros H.
  apply bind_Some in H as (h1 & H1 & H).
  apply bind_Some in H as (h2 & H2 & H).
  apply bind_Some in H as (h3 & H3 & H).
  apply bind_Some in H as (h4 & H4 & H).
  injection H as <- <-. apply shift_loop_keys in H2. keys_of_stores.
  split; [congruence|done].
Qed.

Lemma new_class_keys h qptr len h1 tmp :
  new_class h qptr len = (h1, tmp) ->
  tmp = Datatypes.length h /\ keys h1 = keys h ++ [(strncpy qptr len, len)].
Proof.
  unfold new_class, calloc_QClass. intros [= <- <-]. split; [done|].
  unfold keys.
  replace (Datatypes.length h) with (Datatypes.length h + 0)%nat by lia.
  rewrite insert_app_r. simpl. by rewrite fmap_app.
Qed.

Lemma insert_above_keys inner h root q qptr len h' root' tmp :
  insert_above inner h root q qptr len = Some (h', root', tmp) ->
  tmp = Datatypes.length h /\ keys h' = keys h ++ [(strncpy qptr len, len)].
Proof.
  unfold insert_above.
  destruct (new_class h qptr len) as [h0 tmp0] eqn:Hn.
  apply new_class_keys in Hn as [-> Hn]. intros H.
  apply bind_Some in H as (c0 & _ & H).
  apply bind_Some in H as (h1 & H1 & H).
  apply bind_Some in H as (c1 & _ & H).
  apply bind_Some in H as (h2 & H2 & H).
  apply bind_Some in H as (h3 & H3 & H).
  apply bind_Some in H as (c3 & _ & H).
  apply bind_Some in H as (h4 & H4 & H).
  apply bind_Some in H as (h5 & H5 & H).
  apply bind_Some in H as (h6 & H6 & H).
  apply bind_Some in H as (h7 & H7 & H).
  apply bind_Some in H as (h8 & H8 & H).
  injection H as <- _ <-. split; [done|]. rewrite <- Hn.
  assert (keys h1 = keys h0) as E1.
  { destruct (next c0); simplify_option_eq; keys_of_stores; congruence. }
  assert (keys h2 = keys h1) as E2.
  { destruct (prev c1); simplify_option_eq; keys_of_stores; congruence. }
  assert (keys h4 = keys h3) as E4.
  { destruct inner; simplify_option_eq; keys_of_stores; congruence. }
  assert (keys h6 = keys h5) as E6.
  { destruct inner; [|congruence].
    apply bind_Some in H6 as (t & _ & H6).
    apply bind_Some in H6 as (u & _ & H6).
    apply bind_Some in H6 as (cu & _ & H6).
    destruct (bool_decide _); simplify_option_eq; keys_of_stores; congruence. }
  keys_of_stores. congruence.
Qed.

Lemma relink_under_keys h tmp q h' save :
  relink_under h tmp q = Some (h', save) -> keys h' = keys h.
Proof.
  unfold relink_under. intros H.
  apply bind_Some in H as (c0 & _ & H).
  apply bind_Some in H as (h1 & H1 & H).
  apply bind_Some in H as (c1 & _ & H).
  apply bind_Some in H as (h2 & H2 & H).
  apply bind_Some in H as (t & _ & H).
  apply bind_Some in H as (d & _ & H).
  apply bind_Some in H as (ptr & _ & H).
  apply bind_Some in H as (h3 & H3 & H).
  apply bind_Some in H as (h4 & H4 & H).
  apply bind_Some in H as (h5 & H5 & H).
  apply bind_Some in H as (h6 & H6 & H).
  injection H as <- _.
  assert (keys h1 = keys h) as E1.
  { destruct (next c0); simplify_option_eq; keys_of_stores; congruence. }
  assert (keys h2 = keys h1) as E2.
  { destruct (prev c1); simplify_option_eq; keys_of_stores; congruence. }
  keys_of_stores. congruence.
Qed.

Lemma add_child_keys CQ CQU h ptr qptr len lvl h' lvl' tmp :
  add_child CQ CQU h ptr qptr len lvl = Some (h', lvl', tmp) ->
  tmp = Datatypes.length h /\ keys h' = keys h ++ [(strncpy qptr len, len)] /\ lvl' = lvl + 1.
Proof.
  unfold add_child.
  destruct (new_class h qptr len) as [h0 tmp0] eqn:Hn.
  apply new_class_keys in Hn as [-> Hn]. intros H.
  apply bind_Some in H as (p & _ & H).
  apply bind_Some in H as (h1 & H1 & H).
  apply bind_Some in H as (h2 & H2 & H).
  apply bind_Some in H as (h3 & H3 & H).
  apply bind_Some in H as ([h4 l4] & H4 & H).
  injection H as <- <- <-. apply new_class_color_keys in H4 as [H4 ->].
  assert (keys h1 = keys h0) as E1.
  { destruct (down p); simplify_option_eq; keys_of_stores; congruence. }
  keys_of_stores. split; [done|]. split; [congruence|done].
Qed.

Lemma add_top_keys CQ CQU h root qptr len lvl h' root' lvl' class :
  add_top CQ CQU h root qptr len lvl = Some (h', root', lvl', class) ->
  class = Datatypes.length h /\ keys h' = keys h ++ [(strncpy qptr len, len)] /\ lvl' = lvl + 1.
Proof.
  unfold add_top.
  destruct (new_class h qptr len) as [h0 tmp0] eqn:Hn.
  apply new_class_keys in Hn as [-> Hn]. intros H.
  apply bind_Some in H as ([h1 l1] & H1 & H).
  apply bind_Some in H as (h2 & H2 & H).
  injection H as <- _ <- <-. apply new_class_color_keys in H1 as [H1 ->].
  assert (keys h2 = keys h1) as E1.
  { simpl in H2. destruct root; simplify_option_eq; keys_of_stores; congruence. }
  split; [done|]. split; [congruence|done].
Qed.

Lemma keys_length h : Datatypes.length (keys h) = Datatypes.length h.
Proof. unfold keys. apply length_map. Qed.

Lemma step_longer_keys inner h0 w q c qptr len r :
  walk_keys h0 qptr len w ->
  step_longer inner w q c qptr len = Some r ->
  match r with
  | inl q' => q' = q /\ len = length c
  | inr (w', _) => walk_keys h0 qptr len w'
  end.
Proof.
  intros Hw. unfold step_longer.
  destruct (bool_decide (len = length c)) eqn:E.
  { intros [= <-]. by apply bool_decide_eq_true in E. }
  destruct Hw as [[Hk Ht]|[Hk Ht]]; rewrite Ht.
  - intros H. apply bind_Some in H as ([[h1 root1] tmp] & Hi & H).
    apply bind_Some in H as (c' & _ & H).
    apply bind_Some in H as (t & _ & H).
    injection H as <-. apply insert_above_keys in Hi as [-> Hi].
    right. simpl. split; [congruence|].
    f_equal. apply (f_equal Datatypes.length) in Hk. by rewrite !keys_length in Hk.
  - intros H. apply bind_Some in H as ([h1 save] & Hr & H).
    apply bind_Some in H as (c' & _ & H).
    injection H as <-. apply relink_under_keys in Hr.
    right. simpl. split; [congruence|done].
Qed.

Lemma found_keys h0 qptr len w q c :
  walk_keys h0 qptr len w -> w_heap w !! q = Some c -> len = length c ->
  end_keys h0 qptr len (Found w q).
Proof.
  intros Hw Hc ->. split; [done|]. exists (prefix c).
  unfold keys. by rewrite list_lookup_fmap, Hc.
Qed.

Lemma inner_walk_keys h0 qptr len : forall fuel w q_list ptr off e,
  walk_keys h0 qptr len w ->
  inner_walk fuel qptr len w q_list ptr off = Some e ->
  end_keys h0 qptr len e.
Proof.
  induction fuel as [|fuel IH]; intros w q_list ptr off e Hw;
    destruct q_list as [q|]; simpl; try done; try (by intros [= <-]).
  intros H. apply bind_Some in H as (c & Hc & H).
  destruct (bool_decide (len <= length c)%nat).
  - destruct (tail_eq _ _ _ _); [|by eapply IH].
    apply bind_Some in H as (r & Hr & H).
    pose proof (step_longer_keys _ _ _ _ _ _ _ _ Hw Hr) as Hs.
    destruct r as [q'|[w' nxt]].
    + destruct Hs as [-> Hl]. injection H as <-. by eapply found_keys.
    + by eapply IH.
  - destruct (_ && _); by eapply IH.
Qed.

Lemma top_walk_keys h0 qptr len : forall fuel w q_list e,
  walk_keys h0 qptr len w ->
  top_walk fuel qptr len w q_list = Some e ->
  end_keys h0 qptr len e.
Proof.
  induction fuel as [|fuel IH]; intros w q_list e Hw;
    destruct q_list as [q|]; cbn [top_walk]; try done; try (by intros [= <-]).
  intros H. apply bind_Some in H as (c & Hc & H).
  destruct (bool_decide (len <= length c)%nat).
  - destruct (strncmp_eq _ _ _); [|by eapply IH].
    apply bind_Some in H as (r & Hr & H).
    pose proof (step_longer_keys _ _ _ _ _ _ _ _ Hw Hr) as Hs.
    destruct r as [q'|[w' nxt]].
    + destruct Hs as [-> Hl]. injection H as <-. by eapply found_keys.
    + by eapply IH.
  - destruct (_ && _); [by eapply inner_walk_keys|by eapply IH].
Qed.

Lemma keys_lookup_new (h h1 : list QClass) k :
  keys h1 = keys h ++ [k] -> keys h1 !! Datatypes.length h = Some k.
Proof.
  intros ->. rewrite <- (keys_length h). apply list_lookup_middle. done.
Qed.

Lemma classify_walk_keys CQ CQU f qptr len f' q :
  classify_walk CQ CQU f qptr len = Some (f', q) ->
  (keys (heap f') = keys (heap f) /\ q_level f' = q_level f
   \/ keys (heap f') = keys (heap f) ++ [(strncpy qptr len, len)]
      /\ q_level f <= q_level f' <= q_level f + 1)
  /\ exists pfx, keys (heap f') !! q = Some (pfx, len).
Proof.
  unfold classify_walk. intros H.
  apply bind_Some in H as (e & He & H).
  apply top_walk_keys with (h0 := heap f) in He; [|by left].
  destruct e as [w q'|w ptr]; simpl in He.
  - destruct He as [Hw Hq]. injection H as <- <-. simpl. split; [|done].
    destruct Hw as [[Hk _]|[Hk _]]; [left|right]; (split; [done|lia]).
  - destruct He as [[Hk Ht]|[Hk Ht]]; rewrite Ht in H.
    + destruct ptr as [p|].
      * apply bind_Some in H as ([[h1 lvl] tmp] & Ha & H).
        injection H as <- <-. simpl.
        apply add_child_keys in Ha as (-> & Ha & ->). rewrite Hk in Ha.
        split; [right; split; [done|lia]|].
        eexists. apply (f_equal Datatypes.length) in Hk. rewrite !keys_length in Hk.
        rewrite Hk. by eapply keys_lookup_new.
      * apply bind_Some in H as ([[[h1 root1] lvl] class] & Ha & H).
        destruct (bool_decide _); [done|]. injection H as <- <-. simpl.
        apply add_top_keys in Ha as (-> & Ha & ->). rewrite Hk in Ha.
        split; [right; split; [done|lia]|].
        eexists. apply (f_equal Datatypes.length) in Hk. rewrite !keys_length in Hk.
        rewrite Hk. by eapply keys_lookup_new.
    + destruct (bool_decide _).
      * apply bind_Some in H as ([h1 lvl] & Hs & H).
        injection H as <- <-. simpl.
        apply shift_class_colors_keys in Hs as [Hs ->]. rewrite Hk in Hs.
        split; [right; split; [done|lia]|].
        eexists. by eapply keys_lookup_new.
      * injection H as <- <-. simpl.
        split; [right; split; [done|lia]|].
        eexists. by eapply keys_lookup_new.
Qed.

(** X (classify_quote, shift_class_colors, new_class_color): what a call
    with more than one quote colour does to the arena of classes.  It never
    changes the prefix or the length of a class that exists (it only writes
    links, indices and colours); it adds no class and leaves the level
    counter alone, or it adds exactly one class, which carries the first
    [len] bytes of the text it was given, and the level counter grows by one
    at most.  The class it returns has the length [len]. *)
Theorem classify_quote_adds_at_most_one_class CQ CQU f qptr len f' q :
  1 < CQU ->
  classify_quote CQ CQU f qptr len = Some (f', q) ->
  (keys (heap f') = keys (heap f) /\ q_level f' = q_level f
   \/ keys (heap f') = keys (heap f) ++ [(strncpy qptr len, len)]
      /\ q_level f <= q_level f' <= q_level f + 1)
  /\ exists pfx, keys (heap f') !! q = Some (pfx, len).
Proof.
  intros HU. unfold classify_quote. replace (CQU <=? 1) with false by lia.
  apply classify_walk_keys.
Qed.

Lemma one_colour_rest CQ CQU f q : forall ps,
  CQU <= 1 -> quote_list f = Some q ->
  classify_all CQ CQU f ps = Some (f, replicate (Datatypes.length ps) q).
Proof.
  induction ps as [|p ps IH]; intros HU Hq; [done|].
  cbn [classify_all]. unfold classify_quote.
  replace (CQU <=? 1) with true by lia. rewrite Hq. cbn.
  rewrite IH by done. done.
Qed.

(** X (classify_quote): with at most one quote colour in use, the classifier
    keeps a single class for all quoted text: whatever prefixes a session
    classifies, every call returns the one class allocated by the first
    call (with the empty prefix and the colour of index 0), no second class
    is ever allocated, and the level counter stays at 0. *)
Theorem one_colour_mode_shares_one_class CQ CQU p ps :
  CQU <= 1 ->
  exists f,
    classify_all CQ CQU empty_forest (p :: ps)
    = Some (f, replicate (S (Datatypes.length ps)) 0%nat)
    /\ heap f = [mkQClass 0 0 (CQ 0) [] None None None None]
    /\ quote_list f = Some 0%nat
    /\ q_level f = 0.
Proof.
  intros HU. eexists. split.
  - cbn [classify_all]. unfold classify_quote at 1.
    replace (CQU <=? 1) with true by lia. cbn.
    rewrite (one_colour_rest CQ CQU _ 0%nat) by done. cbn. reflexivity.
  - done.
Qed.

Lemma classify_all_keys CQ CQU : forall ps f f' qs,
  1 < CQU ->
  classify_all CQ CQU f ps = Some (f', qs) ->
  exists ks,
    keys (heap f') = keys (heap f) ++ ks
    /\ (Datatypes.length ks <= Datatypes.length ps)%nat
    /\ Forall (fun k => exists p, p ∈ ps
                 /\ k = (strncpy p (Datatypes.length p), Datatypes.length p)) ks
    /\ Forall2 (fun p q => exists pfx,
                  keys (heap f') !! q = Some (pfx, Datatypes.length p)) ps qs
    /\ q_level f <= q_level f' <= q_level f + Z.of_nat (Datatypes.length ks).
Proof.
  induction ps as [|p ps IH]; intros f f' qs HU H.
  - injection H as <- <-. exists []. rewrite app_nil_r.
    repeat split; [done|done|done|lia|simpl; lia].
  - cbn [classify_all] in H.
    apply bind_Some in H as ([f1 q] & H1 & H).
    apply bind_Some in H as ([f2 qs2] & H2 & H).
    injection H as <- <-. cbn [fst snd] in *.
    unfold classify_quote in H1. replace (CQU <=? 1) with false in H1 by lia.
    apply classify_walk_keys in H1 as [H1 [pfx Hq]].
    destruct (IH f1 f2 qs2 HU H2) as (ks & Hk & Hlen & Hall & Hret & Hlvl).
    assert (Forall (fun k => exists p0, p0 ∈ p :: ps
              /\ k = (strncpy p0 (Datatypes.length p0), Datatypes.length p0)) ks)
      as Hall'.
    { eapply Forall_impl; [|exact Hall]. intros k (p0 & Hp0 & ->).
      exists p0. split; [by apply elem_of_cons; right|done]. }
    assert (Forall2 (fun p0 q0 => exists pfx0,
                keys (heap f2) !! q0 = Some (pfx0, Datatypes.length p0))
              (p :: ps) (q :: qs2)) as Hret'.
    { apply Forall2_cons; [|done]. exists pfx. rewrite Hk.
      by apply lookup_app_l_Some. }
    destruct H1 as [[E El]|[E El]].
    + exists ks.
      split; [by rewrite Hk, E|]. split; [simpl; lia|]. split; [done|].
      split; [done|]. lia.
    + exists ((strncpy p (Datatypes.length p), Datatypes.length p) :: ks).
      split; [by rewrite Hk, E, <- app_assoc|]. split; [simpl; lia|]. split.
      { apply Forall_cons_2; [|done]. exists p. split; [by apply elem_of_cons; left|done]. }
      split; [done|]. cbn [Datatypes.length]. lia.
Qed.

(** X (classify_quote): a session with more than one quote colour, from the
    empty forest.  The forest never holds more classes than prefixes were
    classified; every class carries the bytes of one of those prefixes; the
    class returned for a prefix has, at the end of the session still, the
    length of that prefix; and the level counter is never larger than the
    number of classes. *)
Theorem session_classes_are_classified_prefixes CQ CQU ps f qs :
  1 < CQU ->
  classify_all CQ CQU empty_forest ps = Some (f, qs) ->
  (Datatypes.length (heap f) <= Datatypes.length ps)%nat
  /\ Forall (fun k => exists p, p ∈ ps
               /\ k = (strncpy p (Datatypes.length p), Datatypes.length p))
            (keys (heap f))
  /\ Forall2 (fun p q => exists pfx,
                keys (heap f) !! q = Some (pfx, Datatypes.length p)) ps qs
  /\ 0 <= q_level f <= Z.of_nat (Datatypes.length (heap f)).
Proof.
  intros HU H.
  destruct (classify_all_keys CQ CQU ps _ _ _ HU H) as (ks & Hk & Hlen & Hall & Hret & Hlvl).
  simpl in Hk, Hlvl.
  assert (Datatypes.length (heap f) = Datatypes.length ks) as Hl
    by (by rewrite <- keys_length, Hk).
  split; [lia|]. split; [by rewrite Hk|]. split; [done|lia].
Qed.

End ForestFacts.

Module ForestExample.

Import Quote QuoteKeys Inputs.

(** The prefix [>] classified in the forest that holds [>>] and, below it,
    [>>|]: a third class is added above the two (at the address 2). *)
Lemma classify_quote_adds_at_most_one_class_witness :
  exists f' q,
    classify_quote (fun i => i) 3 sample_forest (bytes ">") 1 = Some (f', q)
    /\ q = 2%nat
    /\ (keys (heap f') = keys (heap sample_forest) /\ q_level f' = q_level sample_forest
        \/ keys (heap f') = keys (heap sample_forest) ++ [(strncpy (bytes ">") 1, 1%nat)]
           /\ q_level sample_forest <= q_level f' <= q_level sample_forest + 1)
    /\ exists pfx, keys (heap f') !! q = Some (pfx, 1%nat).
Proof.
  eexists. eexists. split; [vm_compute; reflexivity|]. split; [reflexivity|].
  apply (ForestFacts.classify_quote_adds_at_most_one_class (fun i => i) 3
           sample_forest (bytes ">") 1).
  - lia.
  - vm_compute. reflexivity.
Defined.

(** Three prefixes classified with one colour in use: one class. *)
Lemma one_colour_mode_shares_one_class_witness :
  exists f,
    classify_all (fun i => i) 1 empty_forest (bytes ">" :: [bytes ">>"; bytes "|"])
    = Some (f, replicate (S (Datatypes.length [bytes ">>"; bytes "|"])) 0%nat)
    /\ heap f = [mkQClass 0 0 0 [] None None None None]
    /\ quote_list f = Some 0%nat
    /\ q_level f = 0.
Proof.
  apply (ForestFacts.one_colour_mode_shares_one_class (fun i => i) 1 (bytes ">")
           [bytes ">>"; bytes "|"]).
  lia.
Defined.

(** The session [>>], [>>|], [>] with three colours. *)
Lemma session_classes_are_classified_prefixes_witness :
  exists f qs,
    classify_all (fun i => i) 3 empty_forest [bytes ">>"; bytes ">>|"; bytes ">"]
    = Some (f, qs)
    /\ qs = [0; 1; 2]%nat
    /\ (Datatypes.length (heap f)
        <= Datatypes.length [bytes ">>"; bytes ">>|"; bytes ">"])%nat
    /\ Forall (fun k => exists p, p ∈ [bytes ">>"; bytes ">>|"; bytes ">"]
                 /\ k = (strncpy p (Datatypes.length p), Datatypes.length p))
              (keys (heap f))
    /\ Forall2 (fun p q => exists pfx,
                  keys (heap f) !! q = Some (pfx, Datatypes.length p))
               [bytes ">>"; bytes ">>|"; bytes ">"] qs
    /\ 0 <= q_level f <= Z.of_nat (Datatypes.length (heap f)).
Proof.
  eexists. eexists. split; [vm_compute; reflexivity|]. split; [reflexivity|].
  apply (ForestFacts.session_classes_are_classified_prefixes (fun i => i) 3
           [bytes ">>"; bytes ">>|"; bytes ">"]).
  - lia.
  - vm_compute. reflexivity.
Defined.

End ForestExample.

(** ** The header/body highlight pass *)

Module HighlightFacts.

Import Classifier Highlight.

Lemma to_short_id z : -32768 <= z <= 32767 -> to_short z = z.
Proof. intros H. unfold to_short. rewrite Z.mod_small; lia. Qed.

(** A write to a counted chunk. *)
Lemma wr_syntax_ok text l i v :
  line_ok text l -> 0 <= i < chunks l -> chunk_ok text v ->
  exists l',
    wr_syntax l i v = Some l' /\ line_ok text l'
    /\ chunks l' = chunks l
    /\ syntax l' = <[Z.to_nat i := v]> (syntax l).
Proof.
  intros (Hc & Hlen1 & Hlen & Hall) Hi Hv. unfold wr_syntax.
  replace (0 <=? i) with true by lia.
  replace (i <? Z.of_nat (length (syntax l))) with true by lia.
  eexists. split; [done|]. split; [|done].
  unfold line_ok. cbn. rewrite length_insert.
  split; [done|]. split; [done|]. split; [done|].
  rewrite take_insert_lt by lia. by apply Forall_insert.
Qed.

(** The count after [++chunks] below the cap, and the array after it. *)
Lemma grow_chunks_ok text l :
  line_ok text l -> chunks l < SHRT_MAX ->
  chunks (grow_chunks l) = chunks l + 1
  /\ (Z.to_nat (chunks l + 1) <= length (syntax (grow_chunks l)))%nat
  /\ (1 <= length (syntax (grow_chunks l)))%nat
  /\ take (Z.to_nat (chunks l)) (syntax (grow_chunks l))
     = take (Z.to_nat (chunks l)) (syntax l).
Proof.
  intros (Hc & Hlen1 & Hlen & Hall) Hcap. unfold SHRT_MAX in *.
  unfold grow_chunks. cbn [set_chunks chunks].
  rewrite to_short_id by lia.
  destruct (chunks l + 1 >? 1) eqn:E.
  - unfold realloc_syntax. cbn. rewrite length_resize.
    split; [done|]. split; [lia|]. split; [lia|].
    rewrite take_resize_le by lia. rewrite resize_le by lia. done.
  - cbn. split; [done|]. split; [lia|]. done.
Qed.

(** A non-empty match at [off], recorded on a line that can take it. *)
Lemma record_match_ok text off p c so eo :
  0 <= off -> off <= Z.of_nat (length text) ->
  0 <= so < eo -> eo <= Z.of_nat (length text) - off ->
  pass_ok text off p ->
  (p_found p = false -> chunks (p_line p) < SHRT_MAX) ->
  exists p',
    record_match (mkPass (if negb (p_found p) then grow_chunks (p_line p) else p_line p)
                         (p_i p) (p_found p) (p_null_rx p)) c (so + off) (eo + off)
    = Some p'
    /\ pass_ok text off p' /\ p_found p' = true /\ p_null_rx p' = false.
Proof.
  intros Hoff Hoff2 Hso Heo (Hl & Hi & Hf) Hcap.
  assert (chunk_ok text (mkSyntax c (so + off) (eo + off))) as Hnew.
  { unfold chunk_ok. cbn. lia. }
  unfold record_match. cbn [p_line p_found].
  destruct (p_found p) eqn:Hfound; cbn [negb].
  - destruct (Hf eq_refl) as (Hpi & Hc1 & s & Hs & Hlast).
    unfold rd_syntax. replace (0 <=? chunks (p_line p) - 1) with true by lia.
    rewrite <- Hpi, Hs. cbn [mbind option_bind].
    destruct (_ || _) eqn:Hbetter; cbn [orb].
    + destruct (wr_syntax_ok text (p_line p) (p_i p) _ Hl ltac:(lia) Hnew)
        as (l' & -> & Hl' & Hc' & Hs').
      cbn. eexists. split; [done|]. split; [|done].
      split; [done|]. cbn. rewrite Hs', length_insert, Hc'.
      split; [lia|]. intros _. split; [done|]. split; [done|].
      eexists. split; [apply list_lookup_insert_eq; lia|]. cbn. lia.
    + cbn. eexists. split; [done|]. split; [|done].
      split; [done|]. split; [done|]. intros _. split; [done|]. split; [done|].
      by exists s.
  - specialize (Hcap eq_refl).
    destruct (grow_chunks_ok text (p_line p) Hl Hcap) as (Hg & Hglen & Hg1 & Hgt).
    destruct Hl as (Hc & Hlen1 & Hlen & Hall).
    set (l1 := grow_chunks (p_line p)) in *.
    assert (line_ok text (set_syntax (<[Z.to_nat (chunks l1 - 1) :=
              mkSyntax c (so + off) (eo + off)]> (syntax l1)) l1)) as Hl1.
    { unfold line_ok. cbn. rewrite length_insert. unfold SHRT_MAX in *.
      split; [lia|]. split; [done|]. split; [lia|].
      rewrite Hg. replace (chunks (p_line p) + 1 - 1) with (chunks (p_line p)) by lia.
      replace (Z.to_nat (chunks (p_line p) + 1)) with (S (Z.to_nat (chunks (p_line p))))
        by lia.
      destruct (syntax l1 !! Z.to_nat (chunks (p_line p))) as [x|] eqn:Hx.
      2:{ apply lookup_ge_None in Hx. lia. }
      erewrite take_S_r by (apply list_lookup_insert_eq; lia).
      rewrite take_insert_ge by lia. rewrite Hgt.
      apply Forall_app. split; [done|]. by apply Forall_singleton. }
    unfold rd_syntax. replace (0 <=? chunks l1 - 1) with true by lia.
    destruct (syntax l1 !! Z.to_nat (chunks l1 - 1)) as [x|] eqn:Hx.
    2:{ apply lookup_ge_None in Hx. lia. }
    cbn [mbind option_bind orb]. unfold wr_syntax.
    replace (0 <=? chunks l1 - 1) with true by lia.
    replace (chunks l1 - 1 <? Z.of_nat (length (syntax l1))) with true by lia.
    cbn. eexists. split; [done|]. split; [|done].
    split; [done|]. cbn. rewrite length_insert.
    split; [lia|]. intros _. split; [done|]. split; [lia|].
    eexists. split; [apply list_lookup_insert_eq; lia|]. cbn. lia.
Qed.

Lemma pass_ok_flag text off l i found nr nr' :
  pass_ok text off (mkPass l i found nr) -> pass_ok text off (mkPass l i found nr').
Proof. done. Qed.

Lemma body_rules_ok text off : forall rules p,
  rules_ok rules -> 0 <= off < Z.of_nat (length text) ->
  pass_ok text off p ->
  exists rules' p',
    body_rules rules text off p = Some (rules', p')
    /\ pass_ok text off p' /\ rules_ok rules'.
Proof.
  induction rules as [|r rules IH]; intros p Hr Hoff Hp.
  - by exists [], p.
  - apply Forall_cons_1 in Hr as [Hr0 Hr]. cbn [body_rules].
    destruct (if stop_matching r then None else _) as [[so eo]|] eqn:Hm.
    + assert (0 <= so <= eo /\ eo <= Z.of_nat (length text) - off) as [Hso Heo].
      { destruct (stop_matching r); [done|]. apply Hr0 in Hm as [H1 H2].
        rewrite length_drop in H2. lia. }
      destruct (negb (eo =? so)) eqn:Hne.
      * destruct (negb (p_found p) && (chunks (p_line p) =? SHRT_MAX)) eqn:Hcap.
        { eexists _, _. split; [done|]. split; [|by apply Forall_cons_2].
          destruct p. by eapply pass_ok_flag. }
        destruct (record_match_ok text off p (pair r) so eo) as (p1 & -> & Hp1 & _);
          [lia|lia|lia|lia|done| |].
        { intros Hf. rewrite Hf in Hcap. cbn in Hcap.
          destruct Hp as ((Hc & _) & _). lia. }
        cbn [mbind option_bind].
        destruct (IH p1 Hr Hoff Hp1) as (rules' & p' & -> & Hp' & Hr').
        cbn. eexists _, _. split; [done|]. split; [done|]. by apply Forall_cons_2.
      * destruct (IH (mkPass (p_line p) (p_i p) (p_found p) true) Hr Hoff)
          as (rules' & p' & -> & Hp' & Hr').
        { destruct p. by eapply pass_ok_flag. }
        cbn. eexists _, _. split; [done|]. split; [done|]. by apply Forall_cons_2.
    + destruct (IH p Hr Hoff Hp) as (rules' & p' & -> & Hp' & Hr').
      cbn. eexists _, _. split; [done|]. split; [done|]. by apply Forall_cons_2.
Qed.

Lemma peek_drop_nonzero text off :
  0 <= off -> peek (drop (Z.to_nat off) text) <> 0 -> off < Z.of_nat (length text).
Proof.
  intros Hoff Hp. destruct (decide (off < Z.of_nat (length text))); [done|].
  rewrite drop_ge in Hp by lia. done.
Qed.

Lemma body_loop_ok text : forall fuel rules off l i,
  rules_ok rules -> line_ok text l ->
  0 <= i < Z.of_nat (length (syntax l)) ->
  0 <= off <= Z.of_nat (length text) ->
  (length text - Z.to_nat off < fuel)%nat ->
  exists rules' l',
    body_loop fuel rules text off l i = Some (rules', l') /\ line_ok text l'.
Proof.
  induction fuel as [|fuel IH]; intros rules off l i Hr Hl Hi Hoff Hf; [lia|].
  cbn [body_loop].
  destruct (peek (drop (Z.to_nat off) text) =? 0) eqn:Hz; [by eexists _, _|].
  assert (off < Z.of_nat (length text)) as Hlt by (apply peek_drop_nonzero; lia).
  destruct (body_rules_ok text off rules (mkPass l i false false) Hr ltac:(lia))
    as (rules1 & p & -> & Hp & Hr1); [done|].
  cbn [mbind option_bind]. destruct Hp as (Hl' & Hi' & Hfound).
  assert (exists off1, next_offset p off = Some off1
            /\ (p_found p || p_null_rx p = true -> off < off1 <= Z.of_nat (length text)))
    as (off1 & -> & Hoff1).
  { unfold next_offset. destruct (p_null_rx p) eqn:Hn.
    - eexists. split; [done|]. lia.
    - unfold rd_syntax. replace (0 <=? p_i p) with true by lia.
      destruct (syntax (p_line p) !! Z.to_nat (p_i p)) as [s|] eqn:Hs.
      2:{ apply lookup_ge_None in Hs. lia. }
      cbn. eexists. split; [done|]. rewrite orb_false_r. intros Hfd.
      destruct (Hfound Hfd) as (Hpi & Hc1 & s' & Hs' & Hlast).
      injection Hs' as <-. split; [done|].
      destruct Hl' as (_ & _ & _ & Hall). rewrite Forall_lookup in Hall.
      apply (Hall (Z.to_nat (p_i p)) s).
      rewrite lookup_take_lt by lia. done. }
  cbn [mbind option_bind].
  destruct (p_found p || p_null_rx p) eqn:Hgo; [|by eexists _, _].
  specialize (Hoff1 eq_refl). apply IH; [done|done|done|lia|lia].
Qed.

(** X (resolve_types, body patterns): the header/body highlight pass over
    one line, run with patterns that keep the contract of regexec (the match
    offsets are ordered and inside the text) on a line whose chunk array
    holds at least the one entry display_line allocates.  The pass ends
    within the steps the line length allows, without reading or writing
    outside the chunk array; the chunk count it leaves is between 0 and
    SHRT_MAX and not larger than the array; and every chunk counted is a
    non-empty span inside the text of the line. *)
Theorem body_pass_is_total_and_capped rules buf l :
  rules_ok rules -> (1 <= length (syntax l))%nat ->
  exists rules' l',
    body_pass rules buf l = Some (rules', l')
    /\ line_ok (mask_newline buf) l'.
Proof.
  intros Hr Hlen. unfold body_pass.
  apply body_loop_ok.
  - unfold rules_ok in *. rewrite Forall_fmap. eapply Forall_impl; [|exact Hr]. done.
  - unfold line_ok, SHRT_MAX. cbn. repeat split; [lia|lia|done|lia|done].
  - cbn. lia.
  - lia.
  - lia.
Qed.

Lemma find_ok w : forall s pos so,
  Samples.find w s pos = Some so ->
  pos <= so /\ so - pos + Z.of_nat (length w) <= Z.of_nat (length s).
Proof.
  induction s as [|x s IH]; intros pos so; cbn [Samples.find].
  - destruct (bool_decide _) eqn:E; [|done]. intros [= <-].
    apply bool_decide_eq_true in E. apply (f_equal length) in E.
    rewrite length_take in E. simpl in *. lia.
  - destruct (bool_decide _) eqn:E.
    + intros [= <-]. apply bool_decide_eq_true in E. apply (f_equal length) in E.
      rewrite length_take in E. lia.
    + intros H. apply IH in H. cbn [length]. lia.
Qed.

Lemma re_lit_ok w : regex_ok (Samples.re_lit w).
Proof.
  intros t nb so eo. unfold Samples.re_lit.
  destruct (Samples.find w t 0) as [so'|] eqn:Hf; [|done].
  intros [= <- <-]. apply find_ok in Hf. lia.
Qed.

End HighlightFacts.

Module HighlightCapExample.

Import Classifier Highlight Samples.

(** The line "aaa" under the rule that colours every "a": three chunks. *)
Lemma body_pass_is_total_and_capped_witness :
  (exists rules', body_pass rule_a (line_of_a 3) Pager.fresh_line
     = Some (rules', mkLine 0 MT_UNCLASSIFIED 0 3 (-1)
                       [mkSyntax 7 0 1; mkSyntax 7 1 2; mkSyntax 7 2 3] None None 0))
  /\ exists rules' l',
       body_pass rule_a (line_of_a 3) Pager.fresh_line = Some (rules', l')
       /\ line_ok (mask_newline (line_of_a 3)) l'.
Proof.
  split; [eexists; vm_compute; reflexivity|].
  apply (HighlightFacts.body_pass_is_total_and_capped rule_a (line_of_a 3)
           Pager.fresh_line).
  - apply Forall_cons_2; [apply HighlightFacts.re_lit_ok|apply Forall_nil_2].
  - simpl. lia.
Defined.

End HighlightCapExample.

(** ** The line formatter: layout and attributes *)

Module FormatLayoutFacts.

Import Format FormatLayout.

Section WithLocale.
Variable cfg : Config.
Variable loc : Locale.

Lemma grok_ansi_index allow allow' buf pos pa pa' :
  (grok_ansi allow buf pos pa).1 = (grok_ansi allow' buf pos pa').1.
Proof.
  unfold grok_ansi. destruct pa, pa'; simpl; repeat case_match; done.
Qed.

Lemma skip_ansi_index : forall fuel buf cnt ch pa pa',
  (skip_ansi cfg fuel buf cnt ch pa).1 = (skip_ansi cfg fuel buf cnt ch pa').1.
Proof.
  induction fuel as [|fuel IH]; intros buf cnt ch pa pa'; [done|].
  cbn [skip_ansi]. destruct (_ && _); [|done].
  pose proof (grok_ansi_index (C_AllowAnsi cfg) (C_AllowAnsi cfg) buf (ch + 2) pa pa') as E.
  destruct (grok_ansi _ buf (ch + 2) pa) as [x a].
  destruct (grok_ansi _ buf (ch + 2) pa') as [x' a'].
  simpl in E. subst x'. apply IH.
Qed.

Lemma format_body_layout buf cnt cf cf' wrap_cols (s s' : FState loc) :
  layout s = layout s' ->
  flow_layout (format_body cfg loc buf cnt cf wrap_cols s)
  = flow_layout (format_body cfg loc buf cnt cf' wrap_cols s').
Proof.
  unfold layout. intros [= Hch Hvch Hcol Hsp Hspec Hst].
  unfold format_body. rewrite <- Hch, <- Hvch, <- Hcol, <- Hsp, <- Hspec, <- Hst.
  pose proof (skip_ansi_index (length buf) buf cnt (f_ch s) (f_pa s) (f_pa s')) as E.
  destruct (skip_ansi cfg _ buf cnt (f_ch s) (f_pa s)) as [ch1 pa1].
  destruct (skip_ansi cfg _ buf cnt (f_ch s) (f_pa s')) as [ch1' pa1'].
  simpl in E. subst ch1'.
  set (ch2 := skip_markers cfg (length buf) buf cnt ch1).
  destruct (bool_decide (cnt <= ch2)%nat); [done|].
  destruct (mbrtowc loc (window buf ch2 cnt) (f_mbstate s)) as [r st].
  destruct r as [wc k| | |]; cbv beta iota zeta;
    repeat first
      [ reflexivity
      | match goal with
        | |- flow_layout (if ?c then _ else _) = _ => destruct c
        | |- flow_layout (match ?e with _ => _ end) = _ =>
            destruct e as [[[[? ?] ?] ?] ?]
        end ].
Qed.
Lemma format_loop_layout buf cnt cf cf' wrap_cols : forall fuel (s s' : FState loc),
  layout s = layout s' ->
  layout (format_loop cfg loc fuel buf cnt cf wrap_cols s)
  = layout (format_loop cfg loc fuel buf cnt cf' wrap_cols s').
Proof.
  induction fuel as [|fuel IH]; intros s s' Hl; [done|].
  cbn [format_loop].
  assert (f_ch s = f_ch s') as <- by (by injection Hl).
  destruct (bool_decide (f_ch s < cnt)%nat); [|done].
  pose proof (format_body_layout buf cnt cf cf' wrap_cols s s' Hl) as Hb.
  destruct (format_body cfg loc buf cnt cf wrap_cols s) as [s1 k|s1],
           (format_body cfg loc buf cnt cf' wrap_cols s') as [s1' k'|s1'];
    cbn [flow_layout] in Hb; try done.
  - apply IH. unfold layout in *. cbn. injection Hb as -> -> -> -> -> -> ->. done.
  - unfold layout in *. congruence.
Qed.

Lemma skip_ansi_none : forall fuel buf cnt ch,
  (skip_ansi cfg fuel buf cnt ch None).2 = None.
Proof.
  induction fuel as [|fuel IH]; intros buf cnt ch; [done|].
  cbn [skip_ansi]. destruct (_ && _); [|done]. cbn. apply IH.
Qed.

Lemma format_body_quiet buf cnt cf wrap_cols (s : FState loc) :
  f_pa s = None ->
  f_pa (flow_state (format_body cfg loc buf cnt cf wrap_cols s)) = None
  /\ f_out (flow_state (format_body cfg loc buf cnt cf wrap_cols s)) = f_out s.
Proof.
  intros Hpa. unfold format_body. rewrite Hpa.
  pose proof (skip_ansi_none (length buf) buf cnt (f_ch s)) as E.
  destruct (skip_ansi cfg _ buf cnt (f_ch s) None) as [ch1 pa1].
  simpl in E. subst pa1.
  set (ch2 := skip_markers cfg (length buf) buf cnt ch1).
  destruct (bool_decide (cnt <= ch2)%nat); [done|].
  destruct (mbrtowc loc (window buf ch2 cnt) (f_mbstate s)) as [r st].
  destruct r as [wc k| | |]; cbv beta iota zeta;
    repeat first
      [ done
      | match goal with
        | |- context [flow_state (if ?c then _ else _)] => destruct c
        | |- context [flow_state (match ?e with _ => _ end)] =>
            destruct e as [[[[? ?] ?] ?] ?]
        end ].
Qed.

Lemma format_loop_quiet buf cnt cf wrap_cols : forall fuel (s : FState loc),
  f_pa s = None ->
  f_pa (format_loop cfg loc fuel buf cnt cf wrap_cols s) = None
  /\ f_out (format_loop cfg loc fuel buf cnt cf wrap_cols s) = f_out s.
Proof.
  induction fuel as [|fuel IH]; intros s Hpa; [done|].
  cbn [format_loop].
  destruct (bool_decide (f_ch s < cnt)%nat); [|done].
  pose proof (format_body_quiet buf cnt cf wrap_cols s Hpa) as [H1 H2].
  destruct (format_body cfg loc buf cnt cf wrap_cols s) as [s1 k|s1];
    cbn [flow_state] in H1, H2; [|done].
  rewrite <- H2.
  apply (IH (mkFState loc (f_ch s1 + k) (f_vch s1 + k) (f_col s1) (f_space s1)
                      (f_special s1) (f_last_special s1) (f_mbstate s1)
                      (f_pa s1) (f_out s1))).
  done.
Qed.

End WithLocale.

(** X (format_line): what format_line returns and stores for its caller --
    the byte cursor, [*pvch], [*pcol], [*pspace], [*pspecial] and the
    decoder state -- depends neither on the attribute pointer [pa] nor on
    the colour flags: the call that only measures a line (pa = NULL) and a
    call that draws the same bytes agree on the bytes consumed and on the
    columns used. *)
Theorem format_line_layout_ignores_attributes cfg loc cont buf cf cf' pa pa' cnt wrap cols :
  layout (format_line cfg loc cont buf cf pa cnt wrap cols)
  = layout (format_line cfg loc cont buf cf' pa' cnt wrap cols).
Proof.
  unfold format_line. apply format_loop_layout. done.
Qed.

(** X (format_line): a call without an attribute pointer (pa = NULL, as the
    scanning call of display_line makes it) puts nothing on the screen,
    whatever the bytes of the line and the flags are, and hands back no
    attributes. *)
Theorem format_line_without_attributes_draws_nothing cfg loc cont buf cf cnt wrap cols :
  f_out (format_line cfg loc cont buf cf None cnt wrap cols) = []
  /\ f_pa (format_line cfg loc cont buf cf None cnt wrap cols) = None.
Proof.
  unfold format_line.
  edestruct (format_loop_quiet cfg loc buf cnt cf) as [H1 H2]; [|split; [exact H2|exact H1]].
  done.
Qed.

End FormatLayoutFacts.

(** ** The line formatter: the byte cursor *)

Module FormatCursorFacts.

Import Format FormatLayout.

Lemma grok_ansi_lt allow buf pos pa :
  Normalizer.is_ansi (drop pos buf) = true ->
  ((grok_ansi allow buf pos pa).1 < length buf)%nat.
Proof.
  intros Hr. destruct (AnsiFacts.is_ansi_split _ Hr) as (pre & post & Hd & Hpre).
  assert (length (drop pos buf) = (length pre + S (length post))%nat) as Hlen.
  { rewrite Hd, length_app. done. }
  rewrite length_drop in Hlen.
  assert ((grok_ansi allow buf pos pa).1 = (pos + length pre)%nat) as ->.
  { unfold grok_ansi.
    rewrite (AnsiFacts.skip_params_run buf post pre (length buf) pos Hd Hpre) by lia.
    destruct pa as [a|]; [|done]. by destruct (_ && _). }
  lia.
Qed.

Section WithLocale.
Variable cfg : Config.
Variable loc : Locale.
Variable buf : list Z.
Variable cnt : nat.
Hypothesis Hloc : locale_ok loc.
Hypothesis Hcnt : (cnt <= length buf)%nat.

Lemma skip_ansi_bound : forall fuel ch pa,
  (ch <= length buf)%nat ->
  ((skip_ansi cfg fuel buf cnt ch pa).1 <= length buf)%nat.
Proof.
  induction fuel as [|fuel IH]; intros ch pa Hch; [done|].
  cbn [skip_ansi]. destruct (_ && _) eqn:E; [|done].
  apply andb_true_iff in E as [_ E].
  pose proof (grok_ansi_lt (C_AllowAnsi cfg) buf (ch + 2) pa E) as Hx.
  destruct (grok_ansi _ buf (ch + 2) pa) as [x a]. apply IH. simpl in Hx. lia.
Qed.

Lemma skip_marker_bound : forall fuel ch,
  (ch < cnt)%nat -> (skip_marker fuel buf cnt ch <= cnt)%nat.
Proof.
  induction fuel as [|fuel IH]; intros ch Hch; cbn [skip_marker]; [lia|].
  destruct (_ =? _); [lia|].
  destruct (bool_decide (cnt <= S ch)%nat) eqn:E; [lia|].
  apply bool_decide_eq_false in E. apply IH. lia.
Qed.

Lemma skip_markers_bound : forall fuel ch,
  (ch <= length buf)%nat -> (skip_markers cfg fuel buf cnt ch <= length buf)%nat.
Proof.
  induction fuel as [|fuel IH]; intros ch Hch; [done|].
  cbn [skip_markers]. destruct (_ && _) eqn:E; [|done].
  repeat (apply andb_true_iff in E as [E _]).
  apply bool_decide_eq_true in E. apply IH.
  pose proof (skip_marker_bound (length buf) ch ltac:(lia)). lia.
Qed.

Lemma window_length pos : (length (window buf pos cnt) <= cnt - pos)%nat.
Proof. unfold window. rewrite length_take. lia. Qed.

Lemma backspaces_bound : forall fuel ch k wc special st st1 r1 st0,
  (ch + k <= cnt)%nat ->
  mbrtowc loc (window buf (ch + k) cnt) st0 = (r1, st1) ->
  let r := backspaces loc fuel buf cnt ch k wc special st st1 r1 in
  (r.1.1.1.1 + r.1.1.1.2 <= cnt)%nat.
Proof.
  induction fuel as [|fuel IH]; intros ch k wc special st st1 r1 st0 Hk Hr1; [done|].
  cbn [backspaces].
  destruct r1 as [wc1 k1| | |]; try done.
  destruct (_ && _); [|done].
  apply Hloc in Hr1. pose proof (window_length (ch + k)).
  destruct (mbrtowc loc (window buf (ch + k + k1) cnt) st1) as [r2 st2] eqn:Hr2.
  destruct r2 as [wc2 k2| | |]; try done.
  destruct (_ || _); [done|].
  apply Hloc in Hr2. pose proof (window_length (ch + k + k1)).
  destruct (mbrtowc loc (window buf (ch + (k + k1) + k2) cnt) st2) as [r3 st3] eqn:Hr3.
  eapply IH; [lia|exact Hr3].
Qed.

Lemma format_body_bound cf wrap_cols (s : FState loc) :
  (f_ch s <= length buf)%nat ->
  (flow_cursor (format_body cfg loc buf cnt cf wrap_cols s) <= length buf)%nat.
Proof.
  intros Hch. unfold format_body.
  pose proof (skip_ansi_bound (length buf) (f_ch s) (f_pa s) Hch) as H1.
  destruct (skip_ansi cfg _ buf cnt (f_ch s) (f_pa s)) as [ch1 pa1]. simpl in H1.
  pose proof (skip_markers_bound (length buf) ch1 H1) as H2.
  set (ch2 := skip_markers cfg (length buf) buf cnt ch1) in *.
  destruct (bool_decide (cnt <= ch2)%nat) eqn:E; [done|].
  apply bool_decide_eq_false in E.
  destruct (mbrtowc loc (window buf ch2 cnt) (f_mbstate s)) as [r st] eqn:Hr.
  pose proof (window_length ch2) as Hw.
  assert (forall wc k, r = MbChar wc k -> (k <= cnt - ch2)%nat) as Hk.
  { intros wc k ->. apply Hloc in Hr. lia. }
  assert (forall wc0 k0, (ch2 + k0 <= cnt)%nat ->
    forall t : nat * nat * Z * Z * mbstate loc,
      t = (if IsWPrint loc wc0 then
             let '(r1, st1) := mbrtowc loc (window buf (ch2 + k0) cnt) st in
             backspaces loc (length buf) buf cnt ch2 k0 wc0 0 st st1 r1
           else (ch2, k0, wc0, 0, st)) ->
      (t.1.1.1.1 + t.1.1.1.2 <= cnt)%nat) as Htuple.
  { intros wc0 k0 Hk0 t ->. destruct (IsWPrint loc wc0); [|done].
    destruct (mbrtowc loc (window buf (ch2 + k0) cnt) st) as [r1 st1] eqn:Hr1.
    by eapply backspaces_bound. }
  destruct r as [wc k| | |]; cbv beta iota zeta.
  - specialize (Hk wc k eq_refl).
    set (k0 := if bool_decide (k = 0%nat) then 1%nat else k) in *.
    assert (ch2 + k0 <= cnt)%nat as Hk0 by (subst k0; case_bool_decide; lia).
    clearbody k0.
    destruct (CharsetIsUtf8 loc && _); [cbn; lia|].
    specialize (Htuple wc k0 Hk0 _ eq_refl).
    destruct (if IsWPrint loc wc then _ else _) as [[[[ch3 k3] wc3] sp3] st3].
    cbn in Htuple.
    repeat match goal with
           | |- context [flow_cursor (if ?c then _ else _)] => destruct c
           end; cbn; lia.
  - destruct (CharsetIsUtf8 loc && _); [cbn; lia|].
    specialize (Htuple 0 1%nat ltac:(lia) _ eq_refl).
    destruct (if IsWPrint loc 0 then _ else _) as [[[[ch3 k3] wc3] sp3] st3].
    cbn in Htuple.
    repeat match goal with
           | |- context [flow_cursor (if ?c then _ else _)] => destruct c
           end; cbn; lia.
  - destruct (_ >? _); cbn; lia.
  - destruct (_ >? _); cbn; lia.
Qed.

Lemma format_loop_bound cf wrap_cols : forall fuel (s : FState loc),
  (f_ch s <= length buf)%nat ->
  (f_ch (format_loop cfg loc fuel buf cnt cf wrap_cols s) <= length buf)%nat.
Proof.
  induction fuel as [|fuel IH]; intros s Hch; [done|].
  cbn [format_loop]. destruct (bool_decide _); [|done].
  pose proof (format_body_bound cf wrap_cols s Hch) as Hb.
  destruct (format_body cfg loc buf cnt cf wrap_cols s) as [s1 k|s1];
    cbn [flow_cursor] in Hb; [|done].
  by apply IH.
Qed.

End WithLocale.

(** X (format_line): the byte cursor format_line returns never leaves the
    line.  With a decoder that keeps the contract of mbrtowc (a decoded
    character is made of at most the bytes the call could read) and a count
    [cnt] that is not larger than the length of the line, the value
    returned is at most the length of the line, whatever the bytes of the
    line, the sequences skipped and the overstrikes merged. *)
Theorem format_line_cursor_stays_in_line cfg loc cont buf cf pa cnt wrap cols :
  locale_ok loc -> (cnt <= length buf)%nat ->
  (f_ch (format_line cfg loc cont buf cf pa cnt wrap cols) <= length buf)%nat.
Proof.
  intros Hloc Hcnt. unfold format_line.
  apply format_loop_bound; [done|done|]. cbn. lia.
Qed.

Lemma utf8_locale_ok : locale_ok utf8_locale.
Proof.
  intros s st wc k st'. cbn. unfold utf8_mbrtowc.
  destruct s as [|b0 r]; [done|].
  repeat case_match; intros [= <- <- <-]; cbn; lia.
Qed.

End FormatCursorFacts.

Module FormatCursorExample.

Import Format FormatLayout Inputs.

(** The line [H \b H ESC [ 1 m i \n] measured at a width of 80 columns: the
    cursor stops at the newline, index 8 of 9. *)
Lemma format_line_cursor_stays_in_line_witness :
  f_ch (format_line plain_config utf8_locale 0 styled_line false None
          (length styled_line) 80 80) = 8%nat
  /\ (f_ch (format_line plain_config utf8_locale 0 styled_line false None
             (length styled_line) 80 80) <= length styled_line)%nat.
Proof.
  split; [vm_compute; reflexivity|].
  apply (FormatCursorFacts.format_line_cursor_stays_in_line plain_config utf8_locale
           0 styled_line false None (length styled_line) 80 80).
  - apply FormatCursorFacts.utf8_locale_ok.
  - lia.
Defined.

End FormatCursorExample.


(** ** The quote forest: shape, and that classify_quote returns *)

Module ShapeFacts.

Import Quote ForestShape.

Lemma tree_ind_all (P : tree -> Prop) :
  (forall i ks, Forall P ks -> P (T i ks)) -> forall t, P t.
Proof.
  intros H. fix IH 1. intros [i ks]. apply H.
  induction ks as [|k ks IHks]; constructor; [apply IH|exact IHks].
Qed.

Lemma rep_tree_inv h i ks :
  rep_tree h (T i ks) ->
  exists c, h !! i = Some c /\ dll h (Some i) (map root ks) (down c)
            /\ Forall (rep_tree h) ks.
Proof. inversion 1; subst. eauto. Qed.

(** *** Sibling runs *)

Lemma last_or_app xs ys d : last_or (xs ++ ys) d = last_or ys (last_or xs d).
Proof. revert d. induction xs as [|x xs IH]; intros d; simpl; [done|apply IH]. Qed.

Lemma dseg_app h par : forall A prv B first nxt,
  dseg h par prv (A ++ B) first nxt <->
  exists m, dseg h par prv A first m /\ dseg h par (last_or A prv) B m nxt.
Proof.
  induction A as [|a A IH]; intros prv B first nxt; simpl.
  - split.
    + intros H. by exists first.
    + intros (m & -> & H). done.
  - split.
    + intros (-> & c & Hc & Hp & Hu & H). apply IH in H as (m & H1 & H2).
      exists m. split; [|done]. split; [done|]. by exists c.
    + intros (m & (-> & c & Hc & Hp & Hu & H1) & H2). split; [done|].
      exists c. repeat split; try done. apply IH. by exists m.
Qed.

Lemma dseg_frame h h' par : forall xs prv first nxt,
  dseg h par prv xs first nxt ->
  (forall x c, x ∈ xs -> h !! x = Some c ->
     exists c', h' !! x = Some c' /\ next c' = next c /\ prev c' = prev c
                /\ up c' = up c) ->
  dseg h' par prv xs first nxt.
Proof.
  induction xs as [|x xs IH]; intros prv first nxt; simpl; [done|].
  intros (-> & c & Hc & Hp & Hu & H) Hsame. split; [done|].
  destruct (Hsame x c ltac:(by left) Hc) as (c' & Hc' & Hn' & Hp' & Hu').
  exists c'. rewrite Hn', Hp', Hu'. repeat split; try done.
  apply IH; [done|]. intros y cy Hy. apply Hsame. by right.
Qed.

Lemma dseg_valid h par : forall xs prv first nxt,
  dseg h par prv xs first nxt -> Forall (fun x => is_Some (h !! x)) xs.
Proof.
  induction xs as [|x xs IH]; intros prv first nxt; simpl; [constructor|].
  intros (-> & c & Hc & Hp & Hu & H). constructor; [by exists c|by eapply IH].
Qed.

Lemma NoDup_bound (xs : list nat) n :
  NoDup xs -> Forall (fun x => (x < n)%nat) xs -> (Datatypes.length xs <= n)%nat.
Proof.
  intros Hnd Hall.
  assert (Datatypes.length xs <= Datatypes.length (seq 0 n))%nat as H; [|by rewrite length_seq in H].
  apply NoDup_incl_length; [by apply NoDup_ListNoDup|].
  intros x Hx. apply in_seq. rewrite Forall_forall in Hall.
  specialize (Hall x Hx). lia.
Qed.

Lemma dseg_head h par prv xs first nxt :
  dseg h par prv xs first nxt -> first = match xs with [] => nxt | x :: _ => Some x end.
Proof. destruct xs; simpl; [done|]. by intros [-> _]. Qed.

(** The run [xs] with the [next] pointer of its last class set to [e']. *)
Lemma dseg_set_end h h' par e' : forall xs prv first e,
  xs <> [] -> NoDup xs ->
  dseg h par prv xs first e ->
  (forall x c, x ∈ xs -> h !! x = Some c ->
     exists c', h' !! x = Some c' /\ prev c' = prev c /\ up c' = up c
                /\ next c' = if bool_decide (last_or xs None = Some x)
                              then e' else next c) ->
  dseg h' par prv xs first e'.
Proof.
  induction xs as [|x xs IH]; intros prv first e Hne Hnd; [done|].
  apply list.NoDup_cons in Hnd as [Hx Hnd]. cbn [dseg last_or].
  intros (-> & c & Hc & Hp & Hu & H) Hsame. split; [done|].
  destruct (Hsame x c ltac:(by left) Hc) as (c' & Hc' & Hp' & Hu' & Hn').
  exists c'. rewrite Hp', Hu'. repeat split; try done.
  destruct xs as [|y ys].
  - cbn in *. rewrite bool_decide_eq_true_2 in Hn' by done. by rewrite Hn'.
  - assert (last_or (y :: ys) (Some x) <> Some x) as Hl.
    { intros E. apply Hx. clear -E. revert y E.
      induction ys as [|z zs IHz]; intros y E; cbn in E.
      - injection E as ->. by left.
      - right. by apply IHz. }
    rewrite bool_decide_eq_false_2 in Hn' by done. rewrite Hn'.
    apply (IH (Some x) (next c) e); try done.
    intros z cz Hz Hcz. destruct (Hsame z cz ltac:(by right) Hcz) as (cz' & ? & ? & ? & Hnz).
    exists cz'. repeat split; done.
Qed.

(** The run [xs] with the [prev] pointer of its first class set to [prv']. *)
Lemma dseg_set_prv h h' par prv' : forall xs prv first nxt,
  NoDup xs ->
  dseg h par prv xs first nxt ->
  (forall x c, x ∈ xs -> h !! x = Some c ->
     exists c', h' !! x = Some c' /\ next c' = next c /\ up c' = up c
                /\ prev c' = if bool_decide (head xs = Some x) then prv' else prev c) ->
  dseg h' par prv' xs first nxt.
Proof.
  intros xs prv first nxt Hnd. destruct xs as [|x xs]; [done|].
  apply list.NoDup_cons in Hnd as [Hx Hnd]. cbn [dseg].
  intros (-> & c & Hc & Hp & Hu & H) Hsame. split; [done|].
  destruct (Hsame x c ltac:(by left) Hc) as (c' & Hc' & Hn' & Hu' & Hp').
  exists c'. rewrite Hn', Hu'. cbn in Hp'. rewrite bool_decide_eq_true_2 in Hp' by done.
  repeat split; try done.
  eapply dseg_frame; [exact H|].
  intros z cz Hz Hcz. destruct (Hsame z cz ltac:(by right) Hcz) as (cz' & ? & ? & ? & Hpz).
  exists cz'. repeat split; try done. rewrite Hpz.
  rewrite bool_decide_eq_false_2; [done|]. cbn. intros [= ->]. done.
Qed.

(** *** Trees *)

Lemma ids_T i ks : ids (T i ks) = i :: ids_of ks.
Proof. reflexivity. Qed.

Lemma ids_of_cons t ts : ids_of (t :: ts) = ids t ++ ids_of ts.
Proof. reflexivity. Qed.

Lemma ids_of_app ts1 ts2 : ids_of (ts1 ++ ts2) = ids_of ts1 ++ ids_of ts2.
Proof.
  induction ts1 as [|t ts1 IH]; [done|].
  cbn [app]. rewrite !ids_of_cons, IH. by rewrite app_assoc.
Qed.

Lemma root_in_ids t : root t ∈ ids t.
Proof. destruct t. rewrite ids_T. by left. Qed.

Lemma elem_ids_of x ts : x ∈ ids_of ts <-> exists t, t ∈ ts /\ x ∈ ids t.
Proof.
  induction ts as [|t ts IH].
  - split; [by intros ?%elem_of_nil | by intros (? & ?%elem_of_nil & _)].
  - rewrite ids_of_cons, elem_of_app, IH. split.
    + intros [H|(t' & H1 & H2)]; [exists t; split; [by left|done]|].
      exists t'. split; [by right|done].
    + intros (t' & [->|H1]%elem_of_cons & H2); [by left|]. right. by exists t'.
Qed.

Lemma roots_in_ids ts x : x ∈ map root ts -> x ∈ ids_of ts.
Proof.
  induction ts as [|t ts IH]; [done|]. cbn [map]. rewrite ids_of_cons.
  intros [->|H]%elem_of_cons; apply elem_of_app; [left; apply root_in_ids|right; auto].
Qed.

Lemma map_root_app ts1 ts2 : map root (ts1 ++ ts2) = map root ts1 ++ map root ts2.
Proof. apply map_app. Qed.

Lemma rep_tree_frame h h' : forall t,
  rep_tree h t ->
  (forall x c, x ∈ ids t -> h !! x = Some c ->
     exists c', h' !! x = Some c' /\ links c' = links c) ->
  rep_tree h' t.
Proof.
  induction t as [i ks IH] using tree_ind_all. intros Hr Hsame.
  apply rep_tree_inv in Hr as (c & Hc & Hd & Hks).
  destruct (Hsame i c ltac:(by left) Hc) as (c' & Hc' & Hl).
  assert (down c' = down c) as Hdn by (unfold links in Hl; congruence).
  apply (rep_T h' i ks c'); [done| |].
  - rewrite Hdn. eapply dseg_frame; [exact Hd|].
    intros x cx Hx Hcx. destruct (Hsame x cx) as (cx' & Hcx' & Hlx); [|done|].
    + rewrite ids_T. right. by apply roots_in_ids.
    + exists cx'. unfold links in Hlx. split; [done|]. repeat split; congruence.
  - rewrite list.Forall_forall in IH, Hks. apply list.Forall_forall. intros k Hk.
    apply IH; [done|by apply Hks|].
    intros x cx Hx. apply Hsame. rewrite ids_T. right.
    apply elem_ids_of. by exists k.
Qed.

Lemma rep_forest_frame h h' ts :
  Forall (rep_tree h) ts ->
  (forall x c, x ∈ ids_of ts -> h !! x = Some c ->
     exists c', h' !! x = Some c' /\ links c' = links c) ->
  Forall (rep_tree h') ts.
Proof.
  rewrite !list.Forall_forall. intros Hall Hsame t Ht.
  apply (rep_tree_frame h); [by apply Hall|].
  intros x c Hx. apply Hsame. apply elem_ids_of. by exists t.
Qed.

(** Every address of a represented tree is in the heap. *)
Lemma rep_tree_valid h : forall t, rep_tree h t -> forall x, x ∈ ids t -> is_Some (h !! x).
Proof.
  induction t as [i ks IH] using tree_ind_all. intros Hr x.
  apply rep_tree_inv in Hr as (c & Hc & Hd & Hks).
  rewrite ids_T. intros [->|Hx]%elem_of_cons; [by exists c|].
  apply elem_ids_of in Hx as (k & Hk & Hx).
  rewrite list.Forall_forall in IH, Hks. by apply (IH k Hk (Hks k Hk)).
Qed.

Lemma rep_forest_valid h ts x :
  Forall (rep_tree h) ts -> x ∈ ids_of ts -> is_Some (h !! x).
Proof.
  rewrite list.Forall_forall. intros Hall (t & Ht & Hx)%elem_ids_of.
  by apply (rep_tree_valid h t (Hall t Ht)).
Qed.

End ShapeFacts.

(** ** The blocks of classify_quote, run on the arena *)

Module BlockFacts.

Import Quote ForestShape ShapeFacts.

Lemma store_eq h p f c : h !! p = Some c -> store h p f = Some (<[p := f c]> h).
Proof. intros H. unfold store. by rewrite H. Qed.

Lemma new_class_eq h qptr len :
  new_class h qptr len
  = (h ++ [mkQClass len 0 0 (strncpy qptr len) None None None None], Datatypes.length h).
Proof.
  unfold new_class, calloc_QClass. f_equal.
  replace (Datatypes.length h) with (Datatypes.length h + 0)%nat at 1 by lia.
  by rewrite insert_app_r.
Qed.

(** Looking a class up in an arena written as a chain of stores. *)
Ltac hside := first [ lia | congruence | (rewrite ?length_insert, ?length_app; simpl; lia) ].
Ltac hlookup :=
  repeat first
    [ rewrite list_lookup_insert_ne by hside
    | rewrite list_lookup_insert_eq by hside
    | rewrite lookup_app_l by hside
    | rewrite list_lookup_middle by hside ];
  first [ reflexivity | eassumption ].
Ltac hstore := erewrite store_eq by hlookup; cbn [mbind option_bind].
Ltac hread :=
  match goal with
  | |- context [(?H !! ?x) ≫= _] =>
      let c := fresh "c" in let E := fresh "E" in
      evar (c : QClass);
      assert (H !! x = Some c) as E by (subst c; hlookup);
      rewrite E; cbn [mbind option_bind]; subst c; clear E
  end.


Ltac hexec :=
  repeat first
    [ hstore | hread
    | progress cbn [next prev up down set_next set_prev set_up set_down
                    mbind option_bind]
    | rewrite bool_decide_eq_true_2 by assumption
    | rewrite bool_decide_eq_false_2 by assumption ].

Ltac hfin :=
  cbn [links next prev up down index color prefix length
       set_next set_prev set_up set_down set_index set_color andb];
  repeat case_bool_decide; simplify_eq; repeat split; try done; try congruence.

(** Case analysis on whether [x] is one of the addresses known to be in the
    arena. *)
Ltac xsplit x :=
  repeat match goal with
  | H : _ !! ?y = Some _ |- _ =>
      lazymatch y with x => fail | _ => idtac end;
      lazymatch goal with
      | _ : x <> y |- _ => fail
      | _ => idtac
      end;
      destruct (decide (x = y)) as [->|?]
  end.

Lemma insert_above_links inner h root q cq qptr len :
  h !! q = Some cq ->
  (forall n, next cq = Some n -> n <> q /\ is_Some (h !! n)) ->
  (forall p, prev cq = Some p -> p <> q /\ is_Some (h !! p) /\ next cq <> Some p) ->
  (inner = true -> exists u, up cq = Some u /\ u <> q /\ is_Some (h !! u)
                             /\ next cq <> Some u /\ prev cq <> Some u) ->
  let tmp := Datatypes.length h in
  exists h',
    insert_above inner h root q qptr len
    = Some (h', (if inner then root
                 else if bool_decide (root = Some q) then Some tmp else root), tmp)
    /\ Datatypes.length h' = S (Datatypes.length h)
    /\ (forall x c, h !! x = Some c -> x <> q ->
        exists c', h' !! x = Some c'
          /\ next c' = (if bool_decide (prev cq = Some x) then Some tmp else next c)
          /\ prev c' = (if bool_decide (next cq = Some x) then Some tmp else prev c)
          /\ up c' = up c
          /\ down c' = (if inner && bool_decide (up cq = Some x)
                           && bool_decide (down c = Some q)
                        then Some tmp else down c)
          /\ index c' = index c /\ color c' = color c /\ prefix c' = prefix c
          /\ length c' = length c)
    /\ (exists c', h' !! q = Some c' /\ links c' = (None, None, down cq, Some tmp)
          /\ index c' = index cq /\ color c' = color cq /\ prefix c' = prefix cq
          /\ length c' = length cq)
    /\ (exists t, h' !! tmp = Some t
          /\ links t = (next cq, prev cq, Some q, if inner then up cq else None)
          /\ index t = 0 /\ color t = 0 /\ prefix t = strncpy qptr len
          /\ length t = len).
Proof.
  intros Hq Hn Hp Hu tmp. pose proof (lookup_lt_Some _ _ _ Hq) as Hql.
  unfold insert_above. rewrite new_class_eq. fold tmp.
  destruct cq as [l i co pf nx pv dn upp]. cbn [next prev up down] in *.
  destruct nx as [n|];
    [destruct (Hn n eq_refl) as [Hnq [cn Hcn]];
     pose proof (lookup_lt_Some _ _ _ Hcn) as Hnl|];
  (destruct pv as [p|];
    [destruct (Hp p eq_refl) as (Hpq & [cp Hcp] & Hnp);
     pose proof (lookup_lt_Some _ _ _ Hcp) as Hpl|]);
  (destruct inner;
    [destruct (Hu eq_refl) as (u & Eu & Huq & [cu Hcu] & Hun & Hup);
     pose proof (lookup_lt_Some _ _ _ Hcu) as Hul; simplify_eq;
     destruct (decide (down cu = Some q)) |]).
  all: clear Hn Hp Hu.
  all: eexists; split; [hexec; reflexivity|].
  all: split; [rewrite ?length_insert, length_app; simpl; lia|].
  all: split; [|split; eexists; (split; [hlookup|]); hfin].
  all: intros x c Hx Hxq; pose proof (lookup_lt_Some _ _ _ Hx); xsplit x;
    simplify_eq; (eexists; split; [hlookup|]); hfin.
Qed.

Lemma last_sibling_run h par : forall ms prv d lst fuel,
  dseg h par prv ms (Some d) None -> last_or ms None = Some lst ->
  (Datatypes.length ms <= fuel)%nat ->
  last_sibling fuel h d = Some lst.
Proof.
  induction ms as [|m ms IH]; intros prv d lst fuel; [done|].
  cbn [dseg last_or Datatypes.length]. intros ([= <-] & c & Hc & _ & _ & H) Hl Hf.
  destruct fuel as [|fuel]; [lia|]. cbn [last_sibling]. rewrite Hc. cbn [mbind option_bind].
  destruct ms as [|m' ms].
  - cbn in H, Hl. rewrite H. congruence.
  - pose proof (dseg_head _ _ _ _ _ _ H) as Hn. rewrite Hn in H |- *.
    apply (IH (Some d)); [exact H|exact Hl|simpl in *; lia].
Qed.

Lemma last_or_in : forall ms o (lst : nat),
  last_or ms o = Some lst -> lst ∈ ms \/ o = Some lst.
Proof.
  induction ms as [|m ms IH]; intros o lst; cbn [last_or]; [by right|].
  intros [H|[= ->]]%IH; left; [by right|by left].
Qed.

Lemma relink_under_links h tmp q cq ct d ms lst :
  h !! q = Some cq ->
  (forall n, next cq = Some n -> n <> q /\ is_Some (h !! n) /\ n <> tmp /\ n ∉ ms) ->
  (forall p, prev cq = Some p -> p <> q /\ is_Some (h !! p) /\ next cq <> Some p
                                 /\ p ∉ ms) ->
  h !! tmp = Some ct -> down ct = Some d -> tmp <> q ->
  dseg h (Some tmp) None ms (Some d) None -> NoDup ms ->
  last_or ms None = Some lst -> q ∉ ms ->
  exists h',
    relink_under h tmp q = Some (h', next cq)
    /\ Datatypes.length h' = Datatypes.length h
    /\ (forall x c, h !! x = Some c -> x <> q ->
        exists c', h' !! x = Some c'
          /\ next c' = (if bool_decide (x = lst) then Some q
                        else if bool_decide (prev cq = Some x) then next cq
                        else next c)
          /\ prev c' = (if bool_decide (next cq = Some x) then prev cq else prev c)
          /\ up c' = up c /\ down c' = down c)
    /\ (exists c', h' !! q = Some c'
          /\ links c' = (None, Some lst, down cq, Some tmp)).
Proof.
  intros Hq Hn Hp Ht Hd Htq Hms Hnd Hl Hqm.
  assert (lst ∈ ms) as Hlm.
  { by destruct (last_or_in _ _ _ Hl). }
  assert (is_Some (h !! lst)) as [cl Hcl].
  { pose proof (dseg_valid _ _ _ _ _ _ Hms) as Hv.
    rewrite list.Forall_forall in Hv. by apply Hv. }
  assert (lst <> q) as Hlq by (intros ->; done).
  assert (Datatypes.length ms <= Datatypes.length h)%nat as Hlen.
  { apply NoDup_bound; [done|].
    eapply Forall_impl; [|apply (dseg_valid _ _ _ _ _ _ Hms)].
    intros x [c Hc]. by apply lookup_lt_Some in Hc. }
  pose proof (lookup_lt_Some _ _ _ Hq) as Hql.
  pose proof (lookup_lt_Some _ _ _ Ht) as Htl.
  unfold relink_under.
  destruct cq as [l i co pf nx pv dn upp]. cbn [next prev up down] in *.
  destruct ct as [tl ti tco tpf tnx tpv tdn tup]. cbn [next prev up down] in *.
  subst tdn.
  destruct nx as [n|];
    [destruct (Hn n eq_refl) as (Hnq & [cn Hcn] & Hnt & Hnm);
     pose proof (lookup_lt_Some _ _ _ Hcn) as Hnl;
     assert (lst <> n) by (intros ->; done)|];
  (destruct pv as [p|];
    [destruct (Hp p eq_refl) as (Hpq & [cp Hcp] & Hnp & Hpm);
     pose proof (lookup_lt_Some _ _ _ Hcp) as Hpl;
     assert (lst <> p) by (intros ->; done);
     destruct (decide (p = tmp)) as [->|Hpt]; simplify_eq |]).
  all: clear Hn Hp.
  all: eexists; split;
    [hexec;
     erewrite (last_sibling_run _ (Some tmp) ms None d lst);
       [hexec; reflexivity
       |eapply dseg_frame; [exact Hms|];
        intros x c Hx Hc; exists c; split; [|done];
        assert (x <> q) by (intros ->; done);
        try assert (x <> n) by (intros ->; done);
        try assert (x <> p) by (intros ->; done);
        try assert (x <> tmp) by (intros ->; done);
        hlookup
       |done
       |rewrite ?length_insert; lia]
    |].
  all: split; [rewrite ?length_insert; lia|].
  all: split; [|eexists; (split; [hlookup|]); hfin].
  all: intros x c Hx Hxq; pose proof (lookup_lt_Some _ _ _ Hx); xsplit x;
    simplify_eq; (eexists; split; [hlookup|]); hfin.
Qed.

Section Palette.

Variable CQ : Z -> Z.
Variable CQU : Z.

Lemma add_child_links h ptr cp qptr len lvl :
  h !! ptr = Some cp ->
  (forall d, down cp = Some d -> d <> ptr /\ is_Some (h !! d)) ->
  let tmp := Datatypes.length h in
  exists h',
    add_child CQ CQU h ptr qptr len lvl = Some (h', lvl + 1, tmp)
    /\ Datatypes.length h' = S (Datatypes.length h)
    /\ (forall x c, h !! x = Some c ->
        exists c', h' !! x = Some c'
          /\ next c' = next c
          /\ prev c' = (if bool_decide (down cp = Some x) then Some tmp else prev c)
          /\ up c' = up c
          /\ down c' = (if bool_decide (x = ptr) then Some tmp else down c))
    /\ (exists t, h' !! tmp = Some t /\ links t = (down cp, None, None, Some ptr)).
Proof.
  intros Hp Hd tmp. pose proof (lookup_lt_Some _ _ _ Hp) as Hpl.
  unfold add_child, new_class_color. rewrite new_class_eq. fold tmp.
  destruct cp as [l i co pf nx pv dn upp]. cbn [next prev up down] in *.
  destruct dn as [d|];
    [destruct (Hd d eq_refl) as [Hdp [cd Hcd]];
     pose proof (lookup_lt_Some _ _ _ Hcd) as Hdl|].
  all: clear Hd.
  all: eexists; split; [hexec; reflexivity|].
  all: cbn [fst snd].
  all: split; [rewrite ?length_insert, length_app; simpl; lia|].
  all: split; [|eexists; (split; [hlookup|]); hfin].
  all: intros x c Hx; pose proof (lookup_lt_Some _ _ _ Hx); xsplit x;
    simplify_eq; (eexists; split; [hlookup|]); hfin.
Qed.

Lemma add_top_links h root qptr len lvl :
  (forall r, root = Some r -> is_Some (h !! r)) ->
  let tmp := Datatypes.length h in
  exists h',
    add_top CQ CQU h root qptr len lvl = Some (h', Some tmp, lvl + 1, tmp)
    /\ Datatypes.length h' = S (Datatypes.length h)
    /\ (forall x c, h !! x = Some c ->
        exists c', h' !! x = Some c'
          /\ next c' = next c
          /\ prev c' = (if bool_decide (root = Some x) then Some tmp else prev c)
          /\ up c' = up c /\ down c' = down c)
    /\ (exists t, h' !! tmp = Some t /\ links t = (root, None, None, None)).
Proof.
  intros Hr tmp.
  unfold add_top, new_class_color. rewrite new_class_eq. fold tmp.
  destruct root as [r|];
    [destruct (Hr r eq_refl) as [cr Hcr];
     pose proof (lookup_lt_Some _ _ _ Hcr) as Hrl|].
  all: clear Hr.
  all: eexists; split; [hexec; cbn [fst snd]; hexec; reflexivity|].
  all: cbn [fst snd].
  all: split; [rewrite ?length_insert, length_app; simpl; lia|].
  all: split; [|eexists; (split; [hlookup|]); hfin].
  all: intros x c Hx; pose proof (lookup_lt_Some _ _ _ Hx); xsplit x;
    simplify_eq; (eexists; split; [hlookup|]); hfin.
Qed.

End Palette.

End BlockFacts.

(** ** The blocks of classify_quote, on the trees *)

Module MoveFacts.

Import stdpp.sets.
Import Quote ForestShape ShapeFacts BlockFacts.

#[local] Set Warnings "-clear-no-such-hyp".
#[local] Typeclasses Opaque ids_of ids.

Ltac nodup :=
  repeat match goal with
  | H : NoDup (_ ++ _) |- _ => apply NoDup_app in H as (? & ? & ?)
  | H : NoDup (_ :: _) |- _ => apply list.NoDup_cons in H as (? & ?)
  end.

(** Membership and disjointness of address lists, from the facts about
    lists alone. *)
Ltac ss :=
  repeat match goal with
  | H : context [_ !! _] |- _ => clear H
  | H : context [dseg] |- _ => clear H
  | H : context [dll] |- _ => clear H
  | H : context [rep_tree] |- _ => clear H
  end;
  set_solver.

Ltac ids_norm :=
  repeat first
    [ rewrite ids_of_app | rewrite ids_of_cons | rewrite ids_T
    | progress change (ids_of []) with (@nil nat) | rewrite app_nil_r ].

Tactic Notation "ids_norm" "in" hyp(H) :=
  repeat first
    [ rewrite ids_of_app in H | rewrite ids_of_cons in H | rewrite ids_T in H
    | progress change (ids_of []) with (@nil nat) in H | rewrite app_nil_r in H ].

Lemma roots_NoDup L : NoDup (ids_of L) -> NoDup (map root L).
Proof.
  induction L as [|[i ks] L IH]; [constructor|].
  rewrite ids_of_cons, ids_T. cbn [map root].
  intros [Hi (Hd & Hdis & HL)%NoDup_app]%list.NoDup_cons.
  apply list.NoDup_cons. split; [|by apply IH].
  intros Hx%roots_in_ids. ss.
Qed.

Lemma length_le_ids ts : (Datatypes.length ts <= Datatypes.length (ids_of ts))%nat.
Proof.
  induction ts as [|[i ks] ts IH]; [done|].
  rewrite ids_of_cons, ids_T, length_app. simpl. lia.
Qed.

Lemma rep_tree_reroot h h' i ks :
  rep_tree h (T i ks) ->
  (forall c, h !! i = Some c -> exists c', h' !! i = Some c' /\ down c' = down c) ->
  (forall x c, x ∈ ids_of ks -> h !! x = Some c ->
     exists c', h' !! x = Some c' /\ links c' = links c) ->
  rep_tree h' (T i ks).
Proof.
  intros (c & Hc & Hd & Hks)%rep_tree_inv Hroot Hsame.
  destruct (Hroot c Hc) as (c' & Hc' & Hdn).
  apply (rep_T h' i ks c'); [done| |by apply (rep_forest_frame h)].
  rewrite Hdn. eapply dseg_frame; [exact Hd|].
  intros x cx Hx%roots_in_ids Hcx.
  destruct (Hsame x cx Hx Hcx) as (cx' & Hcx' & Hl).
  exists cx'. unfold links in Hl. split; [done|]. repeat split; congruence.
Qed.

Lemma dseg_in_valid h par prv xs first nxt x :
  dseg h par prv xs first nxt -> x ∈ xs -> is_Some (h !! x).
Proof.
  intros H%dseg_valid Hx. rewrite list.Forall_forall in H. by apply H.
Qed.

Lemma head_in (xs : list nat) (x : nat) :
  match xs with [] => @None nat | y :: _ => Some y end = Some x -> x ∈ xs.
Proof. destruct xs; [done|]. intros [= ->]. by left. Qed.

Lemma last_or_None_in ms (lst : nat) : last_or ms None = Some lst -> lst ∈ ms.
Proof. intros H. by destruct (last_or_in _ _ _ H). Qed.

Lemma kid_not_root L a ks x :
  NoDup (ids_of L) -> T a ks ∈ L -> x ∈ ids_of ks -> x ∉ map root L.
Proof.
  induction L as [|[i js] L IH]; [by intros _ ?%elem_of_nil|].
  rewrite ids_of_cons, ids_T. cbn [map root].
  intros Hnd [[= -> ->]|Hin]%elem_of_cons Hx [->|Hr]%elem_of_cons.
  - nodup. ss.
  - apply roots_in_ids in Hr. nodup. ss.
  - assert (i ∈ ids_of L) by (apply elem_ids_of; exists (T a ks); rewrite ids_T; ss).
    nodup. ss.
  - nodup. by apply IH in Hr.
Qed.

Lemma insert_above_moved (inner : bool) h rt par hd A q Kq R qptr len :
  let L := A ++ T q Kq :: R in
  let tmp := Datatypes.length h in
  sibs h par hd L -> NoDup (ids_of L) ->
  (if inner
   then exists p cp, par = Some p /\ h !! p = Some cp /\ down cp = hd /\ p ∉ ids_of L
   else par = None) ->
  exists h',
    insert_above inner h rt q qptr len
    = Some (h', (if inner then rt
                 else if bool_decide (rt = Some q) then Some tmp else rt), tmp)
    /\ Datatypes.length h' = S (Datatypes.length h)
    /\ moved h h' par (if bool_decide (hd = Some q) then Some tmp else hd)
             L (A ++ T tmp [T q Kq] :: R).
Proof.
  intros L tmp [Hdll Hall] Hnd Hpar. subst L.
  pose proof (roots_NoDup _ Hnd) as Hrn.
  unfold dll in Hdll. rewrite map_app in Hdll, Hrn. cbn [map root] in Hdll, Hrn.
  apply dseg_app in Hdll as (m & HA & Hq). cbn [dseg] in Hq.
  destruct Hq as (-> & cq & Hcq & Hpv & Hup & HR).
  pose proof (dseg_head _ _ _ _ _ _ HR) as HnR.
  destruct (insert_above_links inner h rt q cq qptr len Hcq)
    as (h' & Heq & Hlen & Hx & Hq' & Ht).
  - intros n Hn. rewrite Hn in HnR. symmetry in HnR. apply head_in in HnR.
    split; [nodup; ss|exact (dseg_in_valid _ _ _ _ _ _ _ HR HnR)].
  - intros p Hp. rewrite Hp in Hpv. symmetry in Hpv. apply last_or_None_in in Hpv.
    split; [nodup; ss|]. split; [exact (dseg_in_valid _ _ _ _ _ _ _ HA Hpv)|].
    intros Hn. rewrite Hn in HnR. symmetry in HnR. apply head_in in HnR.
    nodup; ss.
  - intros ->. destruct Hpar as (p & cp & -> & Hcp & Hdn & Hp).
    exists p. split; [done|]. 
    rewrite ids_of_app, ids_of_cons, ids_T in Hp.
    split; [ss|]. split; [by exists cp|].
    split.
    + intros Hn. rewrite Hn in HnR. symmetry in HnR. apply head_in, roots_in_ids in HnR.
      ss.
    + intros Hn. rewrite Hn in Hpv. symmetry in Hpv.
      apply last_or_None_in, roots_in_ids in Hpv. ss.
  - exists h'. split; [exact Heq|]. split; [exact Hlen|].
    clear Heq. fold tmp in Hx, Hq', Ht.
    destruct Hq' as (cq' & Hcq' & Hlq & _). destruct Ht as (t & Hct & Hlt & _).
    unfold links in Hlq, Hlt.
    assert (forall x, x ∈ ids_of (A ++ T q Kq :: R) -> (x < tmp)%nat) as Hvalid.
    { intros x Hxin. destruct (rep_forest_valid _ _ _ Hall Hxin) as [c Hc].
      by apply lookup_lt_Some in Hc. }
    assert (par <> Some q) as Hpq.
    { destruct inner; [|by rewrite Hpar].
      destruct Hpar as (p & cp & -> & _ & _ & Hp). intros [= ->]. apply Hp.
      rewrite ids_of_app, ids_of_cons, ids_T. ss. }
    assert (forall x, prev cq = Some x -> x ∈ map root A) as HpA.
    { intros x Hp. rewrite Hp in Hpv. symmetry in Hpv. by apply last_or_None_in. }
    assert (forall x, next cq = Some x -> x ∈ map root R) as HnR'.
    { intros x Hn. rewrite Hn in HnR. symmetry in HnR. by apply head_in. }
    assert (forall x, x ∈ map root A -> x ∈ ids_of (A ++ T q Kq :: R)) as HinA.
    { intros x Hin%roots_in_ids. rewrite ids_of_app. ss. }
    assert (forall x, x ∈ map root R -> x ∈ ids_of (A ++ T q Kq :: R)) as HinR.
    { intros x Hin%roots_in_ids. rewrite ids_of_app, ids_of_cons. ss. }
    assert (forall x, inner = true -> up cq = Some x -> x ∉ ids_of (A ++ T q Kq :: R))
      as Hupx.
    { intros x -> Hu. destruct Hpar as (p & cp & -> & _ & _ & Hp). congruence. }
    (* classes off the list and other than the parent keep their links *)
    assert (forall x c, h !! x = Some c -> x <> q -> x ∉ map root A ->
              x ∉ map root R -> Some x <> par ->
              exists c', h' !! x = Some c' /\ links c' = links c) as Hold.
    { intros x c Hc Hxq HxA HxR Hxp.
      destruct (Hx x c Hc Hxq) as (c' & Hc' & Hn & Hp & Hu & Hd & _).
      exists c'. split; [done|]. unfold links.
      rewrite bool_decide_eq_false_2 in Hn by (intros E; by apply HxA, HpA).
      rewrite bool_decide_eq_false_2 in Hp by (intros E; by apply HxR, HnR').
      rewrite (bool_decide_eq_false_2 (up cq = Some x)) in Hd by congruence.
      rewrite andb_false_r in Hd. cbn in Hd. congruence. }
    (* the trees of the list other than that of q are still represented *)
    assert (forall a ks, T a ks ∈ A ++ T q Kq :: R -> rep_tree h' (T a ks)) as Htrees.
    { intros a ks Hin. rewrite list.Forall_forall in Hall.
      apply (rep_tree_reroot h); [by apply Hall| |].
      - intros c Hc. destruct (decide (a = q)) as [->|Haq].
        + exists cq'. split; [done|]. congruence.
        + destruct (Hx a c Hc Haq) as (c' & Hc' & _ & _ & _ & Hd & _).
          exists c'. split; [done|]. rewrite Hd.
          destruct inner; [|done].
          destruct (bool_decide (up cq = Some a)) eqn:E; [|done].
          apply bool_decide_eq_true in E. exfalso. apply (Hupx a eq_refl E).
          apply elem_ids_of. exists (T a ks). split; [done|]. rewrite ids_T. ss.
      - intros x c Hxin Hc.
        pose proof (kid_not_root _ _ _ _ Hnd Hin Hxin) as Hnr.
        rewrite map_app in Hnr. cbn [map root] in Hnr.
        apply Hold; [done|ss|ss|ss|].
        intros E. destruct inner; [|congruence].
        apply (Hupx x eq_refl); [congruence|].
        apply elem_ids_of. exists (T a ks). split; [done|]. rewrite ids_T. ss. }
    assert (tmp ∉ ids_of (A ++ T q Kq :: R)) as Htf.
    { intros Hin%Hvalid. lia. }
    unfold moved, sibs. repeat split.
    + (* the list is linked *)
      unfold dll. rewrite map_app. cbn [map root].
      apply dseg_app. exists (Some tmp). split.
      * destruct A as [|a A'].
        { cbn in HA. subst hd. rewrite bool_decide_eq_true_2 by done. done. }
        pose proof (dseg_head _ _ _ _ _ _ HA) as Hhd. cbn [map] in Hhd.
        rewrite bool_decide_eq_false_2.
        2:{ rewrite Hhd. intros [= E]. cbn [map app] in Hrn. nodup. ss. }
        apply (dseg_set_end h h' par (Some tmp) _ None hd (Some q)); [done| |done|].
        { by apply NoDup_app in Hrn as (? & _ & _). }
        intros x c Hxin Hc.
        assert (x <> q) as Hxq by (intros ->; nodup; ss).
        destruct (Hx x c Hc Hxq) as (c' & Hc' & Hn & Hp & Hu & _).
        exists c'. split; [done|]. rewrite Hp, Hu, Hn, Hpv.
        rewrite (bool_decide_eq_false_2 (next cq = Some x)); [done|].
        intros E%HnR'. nodup. ss.
      * cbn [dseg]. split; [done|]. exists t. split; [done|].
        split; [congruence|]. split.
        { destruct inner; [congruence|]. rewrite Hpar. congruence. }
        replace (next t) with (next cq) by congruence.
        apply (dseg_set_prv h h' par (Some tmp) _ (Some q)); [|done|].
        { by apply NoDup_app in Hrn as (_ & _ & (_ & ?)%list.NoDup_cons). }
        intros x c Hxin Hc.
        assert (x <> q) as Hxq by (intros ->; nodup; ss).
        destruct (Hx x c Hc Hxq) as (c' & Hc' & Hn & Hp & Hu & _).
        exists c'. split; [done|]. rewrite Hp, Hu, Hn, HnR.
        rewrite (bool_decide_eq_false_2 (prev cq = Some x)).
        2:{ intros E%HpA. nodup. ss. }
        repeat split; done.
    + (* the trees are represented *)
      apply Forall_app. rewrite list.Forall_cons. repeat split.
      * apply list.Forall_forall. intros [a ks] Hin. apply Htrees. ss.
      * apply (rep_T h' tmp [T q Kq] t); [done| |].
        { replace (down t) with (Some q) by congruence. cbn. split; [done|].
          exists cq'. split; [done|]. repeat split; congruence. }
        constructor; [|constructor]. apply Htrees. ss.
      * apply list.Forall_forall. intros [a ks] Hin. apply Htrees. ss.
    + (* no class twice *)
      ids_norm in Hnd. ids_norm in Htf. ids_norm.
      apply NoDup_app in Hnd as (H1 & H2 & H3).
      apply NoDup_app in H3 as (H3 & H4 & H5).
      apply NoDup_app. split; [done|]. split; [ss|].
      apply NoDup_app. split; [apply list.NoDup_cons; split; [ss|done]|].
      split; [ss|done].
    + lia.
    + intros x. ids_norm.
      intros Hin. destruct (decide (x = tmp)) as [->|Hne]; [right; lia|]. left.
      ss.
    + intros x c Hc Hnin Hxp. apply Hold; try done.
      * intros ->. apply Hnin. rewrite ids_of_app, ids_of_cons, ids_T. ss.
      * intros E. by apply Hnin, HinA.
      * intros E. by apply Hnin, HinR.
    + intros p cp -> Hcp. destruct inner; [|done].
      destruct Hpar as (p' & cp' & [= <-] & Hcp' & Hdn & Hp). simplify_eq.
      assert (p <> q) as Hne by congruence.
      destruct (Hx p cp' Hcp' Hne) as (c' & Hc' & Hn & Hpp & Hu & Hd & _).
      exists c'. split; [done|].
      rewrite bool_decide_eq_false_2 in Hn by (intros E%HpA%HinA; done).
      rewrite bool_decide_eq_false_2 in Hpp by (intros E%HnR'%HinR; done).
      rewrite (bool_decide_eq_true_2 (up cq = Some p)) in Hd by done.
      repeat split; done.
Qed.

End MoveFacts.

